(** * Probability distributions: special-function kernel, evaluators and
      range estimators

    A shallow embedding of [src/lib/mathUtils.js] and
    [src/lib/distributions.js], and of the code that uses them:
    [src/lib/distributionCatalog.js], the hook [usePlotData] and the
    state and event handlers of the components ([App], [ParameterInputs],
    [ParameterControl], [RangeSlider], [DistributionSelector],
    [PlotViewer]).

    ** Numbers

    A JavaScript Number is modelled by [num]: the three special values
    [NaN], [Infinity], [NegInfinity], and the finite values, carried as
    exact rationals.  Arithmetic on special values follows IEEE 754 as
    JavaScript exposes it (NaN is contagious and compares false with
    everything, [Infinity - Infinity] is NaN, [x / 0] is infinite, ...).
    On finite values the arithmetic of [num] is exact, and the sign of
    zero is not kept.  The rounding of binary64 is the module [binary64]:
    the loop counters step with the rounded addition, and the module
    [rounded] evaluates range estimators with the rounded operations, for
    the windows that rounding, overflow or underflow changes.  Where
    rounding decides a statement about an estimator or a loop, the
    statement is made so as to hold of the rounded computation as well
    ([min <= max] where rounding can bring two bounds together, a bound
    on the counter where a loop depends on it).

    ** The Math object

    ECMAScript fixes the value of [Math.exp], [Math.log], [Math.sqrt],
    [Math.sin], [Math.cos] and [Math.pow] at special arguments and leaves
    the rest "implementation-approximated".  The fixed part is written out
    below; the approximated part is a parameter, the class [MathLib],
    together with the few sign and order facts the proofs rely on, which
    hold of a JavaScript engine with underflow to [0] included. *)

From Stdlib Require Import ZArith QArith Qround Qabs Qpower Qreduction.
From Stdlib Require Import Lqa Lia Bool List.
From stdpp Require Import base gmap strings.
Import ListNotations.

Local Open Scope Q_scope.

(* ================================================================== *)
(** * JavaScript numbers *)
(* ================================================================== *)

Inductive num : Type :=
| NaN
| Infinity
| NegInfinity
| Num (q : Q).

Declare Scope num_scope.
Delimit Scope num_scope with num.
Bind Scope num_scope with num.

Coercion Num : Q >-> num.

Definition Qlt_bool (a b : Q) : bool := negb (Qle_bool b a).

(** Finite results are kept in lowest terms, so that equal values are
    equal terms. *)
Definition fin (q : Q) : num := Num (Qred q).

Definition signed_inf (positive : bool) : num :=
  if positive then Infinity else NegInfinity.

Definition nneg (x : num) : num :=
  match x with
  | NaN => NaN
  | Infinity => NegInfinity
  | NegInfinity => Infinity
  | Num q => fin (- q)
  end.

Definition nadd (x y : num) : num :=
  match x, y with
  | NaN, _ | _, NaN => NaN
  | Infinity, NegInfinity | NegInfinity, Infinity => NaN
  | Infinity, _ | _, Infinity => Infinity
  | NegInfinity, _ | _, NegInfinity => NegInfinity
  | Num a, Num b => fin (a + b)
  end.

Definition nsub (x y : num) : num := nadd x (nneg y).

(** [inf * q]: the sign of [q] decides, and [inf * 0] is NaN. *)
Definition scale_inf (positive : bool) (q : Q) : num :=
  match q ?= 0 with
  | Eq => NaN
  | Gt => signed_inf positive
  | Lt => signed_inf (negb positive)
  end.

Definition nmul (x y : num) : num :=
  match x, y with
  | NaN, _ | _, NaN => NaN
  | Num a, Num b => fin (a * b)
  | Infinity, Num q | Num q, Infinity => scale_inf true q
  | NegInfinity, Num q | Num q, NegInfinity => scale_inf false q
  | Infinity, Infinity | NegInfinity, NegInfinity => Infinity
  | Infinity, NegInfinity | NegInfinity, Infinity => NegInfinity
  end.

(** Division.  A zero divisor is taken as [+0]. *)
Definition ndiv (x y : num) : num :=
  match x, y with
  | NaN, _ | _, NaN => NaN
  | Num a, Num b =>
      if Qeq_bool b 0 then
        match a ?= 0 with
        | Eq => NaN
        | Gt => Infinity
        | Lt => NegInfinity
        end
      else fin (a / b)
  | Num _, _ => Num 0
  | Infinity, Num b => signed_inf (Qle_bool 0 b)
  | NegInfinity, Num b => signed_inf (Qlt_bool b 0)
  | _, _ => NaN
  end.

(** Comparison; [None] when an operand is NaN. *)
Definition ncmp (x y : num) : option comparison :=
  match x, y with
  | NaN, _ | _, NaN => None
  | Num a, Num b => Some (a ?= b)
  | NegInfinity, NegInfinity | Infinity, Infinity => Some Eq
  | NegInfinity, _ | _, Infinity => Some Lt
  | _, NegInfinity | Infinity, _ => Some Gt
  end.

Definition nlt (x y : num) : bool :=
  match ncmp x y with Some Lt => true | _ => false end.
Definition nle (x y : num) : bool :=
  match ncmp x y with Some Lt | Some Eq => true | _ => false end.
Definition ngt (x y : num) : bool := nlt y x.
Definition nge (x y : num) : bool := nle y x.
(** [x === y] and [x !== y] on numbers. *)
Definition strict_eq (x y : num) : bool :=
  match ncmp x y with Some Eq => true | _ => false end.
Definition strict_ne (x y : num) : bool := negb (strict_eq x y).

Notation "x + y" := (nadd x y) : num_scope.
Notation "x - y" := (nsub x y) : num_scope.
Notation "x * y" := (nmul x y) : num_scope.
Notation "x / y" := (ndiv x y) : num_scope.
Notation "- x" := (nneg x) : num_scope.
Notation "x <? y" := (nlt x y) : num_scope.
Notation "x <=? y" := (nle x y) : num_scope.
Notation "x >? y" := (ngt x y) : num_scope.
Notation "x >=? y" := (nge x y) : num_scope.
Notation "x === y" := (strict_eq x y) (at level 70, no associativity) : num_scope.
Notation "x !== y" := (strict_ne x y) (at level 70, no associativity) : num_scope.

(** Global [isFinite] and [Number.isInteger]. *)
Definition isFinite (x : num) : bool :=
  match x with Num _ => true | _ => false end.

Definition Number_isInteger (x : num) : bool :=
  match x with
  | Num q => Pos.eqb (Qden (Qred q)) 1
  | _ => false
  end.

(** Truthiness of a number: [0] and [NaN] are falsy. *)
Definition truthy (x : num) : bool :=
  match x with
  | NaN => false
  | Num q => negb (Qeq_bool q 0)
  | _ => true
  end.

(** [v || d] where [v] is the value of a property read, [None] standing
    for [undefined]. *)
Definition or_default (v : option num) (d : num) : num :=
  match v with
  | Some x => if truthy x then x else d
  | None => d
  end.

Definition Math_abs (x : num) : num :=
  match x with
  | NaN => NaN
  | Infinity | NegInfinity => Infinity
  | Num q => fin (Qabs q)
  end.

(** [Math.max] and [Math.min] of two arguments. *)
Definition Math_max (x y : num) : num :=
  match ncmp x y with
  | None => NaN
  | Some Lt => y
  | _ => x
  end.

Definition Math_min (x y : num) : num :=
  match ncmp x y with
  | None => NaN
  | Some Gt => y
  | _ => x
  end.

Definition Math_ceil (x : num) : num :=
  match x with
  | Num q => Num (inject_Z (Qceiling q))
  | _ => x
  end.

Definition Qtrunc (q : Q) : Z :=
  if Qle_bool 0 q then Qfloor q else Qceiling q.

(** The [%] operator. *)
Definition nrem (x y : num) : num :=
  match x, y with
  | Num a, Num b =>
      if Qeq_bool b 0 then NaN
      else fin (a - b * inject_Z (Qtrunc (a / b)))
  | Num a, Infinity | Num a, NegInfinity => x
  | _, _ => NaN
  end.
Notation "x % y" := (nrem x y) (at level 40, left associativity) : num_scope.

(** ** Binary64

    The rounding that every arithmetic operation of the source ends with.
    It is applied where a statement depends on it: the step [i++] of a
    loop counter, and the estimators evaluated as the source computes
    them (the module [rounded] below). *)
Module binary64.

(** [floor (log2 q)] for a positive rational. *)
Definition ilog2 (q : Q) : Z :=
  let l := (Z.log2 (Qnum q) - Z.log2 (Zpos (Qden q)))%Z in
  if Qle_bool (2 ^ l) q then l else (l - 1)%Z.

(** The nearest integer, the even one on a tie. *)
Definition nearest_even (x : Q) : Z :=
  let f := Qfloor x in
  match Qcompare (x - inject_Z f) (1 # 2) with
  | Lt => f
  | Gt => (f + 1)%Z
  | Eq => if Z.even f then f else (f + 1)%Z
  end.

(** The exponent of the unit in the last place of the binary64 numbers
    next to [q]: 53 significant bits, and the subnormal spacing
    [2^-1074] at the bottom. *)
Definition ulp_exponent (q : Q) : Z := Z.max (ilog2 (Qabs q) - 52) (-1074).

(** Round to nearest, ties to even, before overflow. *)
Definition nearest (q : Q) : Q :=
  if Qeq_bool q 0 then 0
  else
    let e := ulp_exponent q in
    inject_Z (nearest_even (q / 2 ^ e)) * 2 ^ e.

(** The binary64 number a result is rounded to: a finite value goes to
    the nearest binary64 number, and to an infinity when that is beyond
    the largest one. *)
Definition round (x : num) : num :=
  match x with
  | Num q =>
      let r := nearest q in
      if Qle_bool (2 ^ 1024) r then Infinity
      else if Qle_bool r (- 2 ^ 1024) then NegInfinity
      else fin r
  | _ => x
  end.

Definition add (x y : num) : num := round (nadd x y).
Definition sub (x y : num) : num := round (nsub x y).
Definition mul (x y : num) : num := round (nmul x y).
Definition div (x y : num) : num := round (ndiv x y).

End binary64.

(** [i++] on a loop counter: [i + 1], rounded.  The step is exact below
    [2^53], and a counter that has reached [2^53] stays there. *)
Definition increment (i : num) : num := binary64.add i (Num 1).

(** [Math.PI] and [Math.SQRT2] are the binary64 constants. *)
Definition Math_PI : num := Num (884279719003555 # 281474976710656).
Definition Math_SQRT2 : num := Num (6369051672525773 # 4503599627370496).

(* ================================================================== *)
(** * The Math object *)
(* ================================================================== *)

(** The implementation-approximated part of the Math object, on finite
    arguments away from the special cases.  Like the arithmetic, the
    approximations return exact rationals, and they keep sign and order
    facts that hold of the functions of a JavaScript engine wherever these
    return a finite number, underflow to [0] included: [exp] is not
    negative, and at least [1] on non-negative arguments; [log] is negative
    on [(0, 1)]; [sqrt] is positive and monotone; a power of a positive
    base is not negative, and at least [1] for a base above [1] and a
    positive exponent.  These are the only facts about the approximations
    that the proofs use. *)
Class MathLib : Type := {
  exp_approx : Q -> Q;
  log_approx : Q -> Q;
  sqrt_approx : Q -> Q;
  sin_approx : Q -> Q;
  cos_approx : Q -> Q;
  pow_approx : Q -> Q -> Q;
  exp_approx_nonneg : forall q, 0 <= exp_approx q;
  exp_approx_ge1 : forall q, 0 <= q -> 1 <= exp_approx q;
  log_approx_neg : forall q, 0 < q -> q < 1 -> log_approx q < 0;
  sqrt_approx_pos : forall q, 0 < q -> 0 < sqrt_approx q;
  sqrt_approx_mono : forall p q, 0 < p -> p <= q -> sqrt_approx p <= sqrt_approx q;
  pow_approx_nonneg : forall b e, 0 < b -> 0 <= pow_approx b e;
  pow_approx_ge1 : forall b e, 1 < b -> 0 < e -> 1 <= pow_approx b e
}.

Section MathObject.
Context {M : MathLib}.

Definition Math_exp (x : num) : num :=
  match x with
  | NaN => NaN
  | Infinity => Infinity
  | NegInfinity => Num 0
  | Num q => if Qeq_bool q 0 then Num 1 else fin (exp_approx q)
  end.

Definition Math_log (x : num) : num :=
  match x with
  | NaN | NegInfinity => NaN
  | Infinity => Infinity
  | Num q =>
      if Qlt_bool q 0 then NaN
      else if Qeq_bool q 0 then NegInfinity
      else if Qeq_bool q 1 then Num 0
      else fin (log_approx q)
  end.

Definition Math_sqrt (x : num) : num :=
  match x with
  | NaN | NegInfinity => NaN
  | Infinity => Infinity
  | Num q =>
      if Qlt_bool q 0 then NaN
      else if Qeq_bool q 0 then Num 0
      else fin (sqrt_approx q)
  end.

Definition Math_sin (x : num) : num :=
  match x with
  | Num q => if Qeq_bool q 0 then Num 0 else fin (sin_approx q)
  | _ => NaN
  end.

Definition Math_cos (x : num) : num :=
  match x with
  | Num q => if Qeq_bool q 0 then Num 1 else fin (cos_approx q)
  | _ => NaN
  end.

Definition Qis_integer (q : Q) : bool := Pos.eqb (Qden (Qred q)) 1.
Definition Qto_Z (q : Q) : Z := Qnum (Qred q).
Definition Qis_odd_integer (q : Q) : bool := Qis_integer q && Z.odd (Qto_Z q).

(** [Number::exponentiate] for a finite non-zero exponent [e]. *)
Definition pow_finite (base : num) (e : Q) : num :=
  match base with
  | NaN => NaN
  | Infinity => if Qlt_bool 0 e then Infinity else Num 0
  | NegInfinity =>
      if Qlt_bool 0 e
      then (if Qis_odd_integer e then NegInfinity else Infinity)
      else Num 0
  | Num b =>
      if Qeq_bool b 0 then (if Qlt_bool 0 e then Num 0 else Infinity)
      else if Qlt_bool b 0 && negb (Qis_integer e) then NaN
      else if Qis_integer e then fin (Qpower b (Qto_Z e))
      else fin (pow_approx b e)
  end.

(** [Math.pow], also the [**] operator. *)
Definition Math_pow (base exponent : num) : num :=
  match exponent with
  | NaN => NaN
  | Num e => if Qeq_bool e 0 then Num 1 else pow_finite base e
  | Infinity =>
      match base with
      | NaN => NaN
      | Infinity | NegInfinity => Infinity
      | Num b =>
          match Qabs b ?= 1 with
          | Gt => Infinity
          | Eq => NaN
          | Lt => Num 0
          end
      end
  | NegInfinity =>
      match base with
      | NaN => NaN
      | Infinity | NegInfinity => Num 0
      | Num b =>
          match Qabs b ?= 1 with
          | Gt => Num 0
          | Eq => NaN
          | Lt => Infinity
          end
      end
  end.

End MathObject.

(* ================================================================== *)
(** * mathUtils.js: the special-function kernel *)
(* ================================================================== *)

Module mathUtils.
Section Kernel.
Context {M : MathLib}.
Local Open Scope num_scope.

Definition of_nat (n : nat) : num := Num (inject_Z (Z.of_nat n)).

(** The coefficient table [c] of [gamma]. *)
Definition lanczos_c : list Q :=
  [ 0.99999999999980993; 676.5203681218851; -1259.1392167224028;
    771.32342877765313; -176.61502916214059; 12.507343278686905;
    -0.13857109526572012; 9.9843695780195716e-6; 1.5056327351493116e-7 ]%Q.

(** The body of [gamma] after the reflection test: [z -= 1], the loop
    [for (i = 1; i < g + 2; i++) x += c[i] / (z + i)] and the closing
    product. *)
Definition lanczos (z0 : num) : num :=
  let g : num := 7 in
  let c (i : nat) : num := Num (nth i lanczos_c 0%Q) in
  let z := z0 - 1 in
  let x := fold_left (fun x i => x + c i / (z + of_nat i)) (seq 1 8) (c 0%nat) in
  let t := z + g + 0.5 in
  Math_sqrt (2 * Math_PI) * Math_pow t (z + 0.5) * Math_exp (- t) * x.

(** [gamma], with a bound [fuel] on the depth of nested calls: [None]
    when the bound is reached. *)
Fixpoint gamma_rec (fuel : nat) (z : num) : option num :=
  match fuel with
  | O => None
  | S fuel' =>
      if z <? 0.5 then
        match gamma_rec fuel' (1 - z) with
        | Some g => Some (Math_PI / (Math_sin (Math_PI * z) * g))
        | None => None
        end
      else Some (lanczos z)
  end.

(** Two levels are enough on every input ([gamma_rec_enough] below), so
    this is the value [gamma] returns. *)
Definition gamma (z : num) : num :=
  match gamma_rec 2 z with
  | Some v => v
  | None => NaN
  end.

Definition logGamma (z : num) : num :=
  if z <=? 0 then NaN
  else if z >? 50 then
    (z - 0.5) * Math_log z - z + 0.5 * Math_log (2 * Math_PI) + 1 / (12 * z)
  else
    let gammaValue := gamma z in
    if isFinite gammaValue && (gammaValue >? 0) then Math_log gammaValue else NaN.

(** No operation of the model throws, so the [catch] arms of the source
    are unreachable and left out, here and in the evaluators. *)
Definition beta (a b : num) : num :=
  if (a <=? 0) || (b <=? 0) then NaN
  else if (a >? 50) || (b >? 50) || (a + b >? 50) then
    Math_exp (logGamma a + logGamma b - logGamma (a + b))
  else
    let result := gamma a * gamma b / gamma (a + b) in
    if isFinite result then result else NaN.

Definition safeLog (x : num) : num :=
  if x >? 0 then Math_log x else NegInfinity.

Definition safePow (base exponent : num) : num :=
  if (base === 0) && (exponent === 0) then 1
  else if (base <? 0) && (exponent % 1 !== 0) then NaN
  else Math_pow base exponent.

Definition logFactorial (n : num) : num :=
  if n <? 0 then NegInfinity
  else if (n === 0) || (n === 1) then 0
  else logGamma (n + 1).

Definition besselI0 (z : num) : num :=
  let absZ := Math_abs z in
  if absZ <? 3.75 then
    let t := Math_pow (absZ / 3.75) 2 in
    1 + t * (3.5156229 + t * (3.0899424 + t * (1.2067492 +
      t * (0.2659732 + t * (0.0360768 + t * 0.0045813)))))
  else
    let t := 3.75 / absZ in
    Math_exp absZ / Math_sqrt absZ * (0.39894228 + t * (0.01328592 +
      t * (0.00225319 + t * (-0.00157565 + t * (0.00916281 +
      t * (-0.02057706 + t * (0.02635537 + t * (-0.01647633 + t * 0.00392377)))))))).

Definition erfc (u : num) : num :=
  let p := 0.3275911 in
  let a1 := 0.254829592 in
  let a2 := -0.284496736 in
  let a3 := 1.421413741 in
  let a4 := -1.453152027 in
  let a5 := 1.061405429 in
  let sign : num := if u <? 0 then -1 else 1 in
  let z := Math_abs u in
  let t := 1 / (1 + p * z) in
  let poly := (((((a5 * t) + a4) * t) + a3) * t + a2) * t + a1 in
  let erfZ := 1 - poly * Math_exp (- z * z) in
  if sign >=? 0 then 1 - erfZ else 1 + erfZ.

Definition normalCDF (z : num) : num :=
  0.5 * erfc (- z / Math_SQRT2).

End Kernel.
End mathUtils.

(* ================================================================== *)
(** * distributions.js: evaluators and range estimators *)
(* ================================================================== *)

(** The object [{ min, max }] a range estimator returns. *)
Record range : Type := { min : num; max : num }.

(** The [params] object of a range estimator: a map from parameter names
    to numbers; a missing key reads as [undefined]. *)
Abbreviation params := (gmap string num).

Module normal.
Section Dist.
Context {M : MathLib}.
Local Open Scope num_scope.

Definition pdf (x mu sigma : num) : num :=
  if sigma <=? 0 then 0
  else
    let z := (x - mu) / sigma in
    (1 / (sigma * Math_sqrt (2 * Math_PI))) * Math_exp (-0.5 * z * z).

Definition rangeCalculator (ps : params) : range :=
  let mu := or_default (ps !! "mu") 0 in
  let sigma := or_default (ps !! "sigma") 1 in
  {| min := mu - 4 * sigma; max := mu + 4 * sigma |}.

End Dist.
End normal.

Module beta.
Section Dist.
Context {M : MathLib}.
Local Open Scope num_scope.

Definition pdf (x alpha betaParam : num) : num :=
  if (x <? 0) || (x >? 1) || (alpha <=? 0) || (betaParam <=? 0) then 0
  else if (x === 0) || (x === 1) then
    if ((alpha >? 1) && (x === 0)) || ((betaParam >? 1) && (x === 1)) then 0
    else if ((alpha <? 1) && (x === 0)) || ((betaParam <? 1) && (x === 1)) then Infinity
    else if ((alpha === 1) && (x === 0)) || ((betaParam === 1) && (x === 1)) then
      let betaValue := mathUtils.beta alpha betaParam in
      if isFinite betaValue && (betaValue >? 0) then 1 / betaValue else 0
    else 0
  else
    let betaValue := mathUtils.beta alpha betaParam in
    if negb (isFinite betaValue) || (betaValue <=? 0) then 0
    else
      let term1 := mathUtils.safePow x (alpha - 1) in
      let term2 := mathUtils.safePow (1 - x) (betaParam - 1) in
      if negb (isFinite term1) || negb (isFinite term2) then 0
      else
        let result := term1 * term2 / betaValue in
        if isFinite result then result else 0.

Definition rangeCalculator (ps : params) : range :=
  {| min := 0; max := 1 |}.

End Dist.
End beta.

Module gamma.
Section Dist.
Context {M : MathLib}.
Local Open Scope num_scope.

Definition pdf (x alpha betaParam : num) : num :=
  if (x <? 0) || (alpha <=? 0) || (betaParam <=? 0) then 0
  else
    let gammaValue := mathUtils.gamma alpha in
    (mathUtils.safePow betaParam alpha / gammaValue)
      * mathUtils.safePow x (alpha - 1) * Math_exp (- betaParam * x).

Definition rangeCalculator (ps : params) : range :=
  let alpha := or_default (ps !! "alpha") 1 in
  let beta := or_default (ps !! "beta") 1 in
  {| min := 0; max := Math_max 5 ((alpha + 3 * Math_sqrt alpha) / beta) |}.

End Dist.
End gamma.

Module exponential.
Section Dist.
Context {M : MathLib}.
Local Open Scope num_scope.

Definition pdf (x lambda : num) : num :=
  if (x <? 0) || (lambda <=? 0) then 0
  else lambda * Math_exp (- lambda * x).

Definition rangeCalculator (ps : params) : range :=
  let lambda := or_default (ps !! "lambda") 1 in
  {| min := 0; max := 5 / lambda |}.

End Dist.
End exponential.

Module uniform.
Section Dist.
Local Open Scope num_scope.

Definition pdf (x a b : num) : num :=
  if b <=? a then 0
  else if (x <? a) || (x >? b) then 0
  else 1 / (b - a).

Definition rangeCalculator (ps : params) : range :=
  let a := or_default (ps !! "a") 0 in
  let b := or_default (ps !! "b") 1 in
  let range := b - a in
  {| min := a - 0.1 * range; max := b + 0.1 * range |}.

End Dist.
End uniform.

Module lognormal.
Section Dist.
Context {M : MathLib}.
Local Open Scope num_scope.

Definition pdf (x mu sigma : num) : num :=
  if (x <=? 0) || (sigma <=? 0) then 0
  else
    let logX := mathUtils.safeLog x in
    if negb (isFinite logX) then 0
    else
      let z := (logX - mu) / sigma in
      (1 / (x * sigma * Math_sqrt (2 * Math_PI))) * Math_exp (-0.5 * z * z).

Definition rangeCalculator (ps : params) : range :=
  let mu := or_default (ps !! "mu") 0 in
  let sigma := or_default (ps !! "sigma") 1 in
  let mean := Math_exp (mu + sigma * sigma / 2) in
  {| min := 0;
     max := mean + 3 * Math_sqrt ((Math_exp (sigma * sigma) - 1)
                                   * Math_exp (2 * mu + sigma * sigma)) |}.

End Dist.
End lognormal.

Module chi2.
Section Dist.
Context {M : MathLib}.
Local Open Scope num_scope.

Definition pdf (x k : num) : num :=
  if (x <? 0) || (k <=? 0) then 0
  else if (x === 0) && (k <? 2) then Infinity
  else if (x === 0) && (k === 2) then 0.5
  else if x === 0 then 0
  else
    let gammaValue := mathUtils.gamma (k / 2) in
    (1 / (mathUtils.safePow 2 (k / 2) * gammaValue))
      * mathUtils.safePow x (k / 2 - 1) * Math_exp (- x / 2).

Definition rangeCalculator (ps : params) : range :=
  let k := or_default (ps !! "k") 1 in
  {| min := 0; max := k + 4 * Math_sqrt (2 * k) |}.

End Dist.
End chi2.

Module student.
Section Dist.
Context {M : MathLib}.
Local Open Scope num_scope.

Definition pdf (x nu : num) : num :=
  if nu <=? 0 then 0
  else
    let gammaRatio := mathUtils.gamma ((nu + 1) / 2) / mathUtils.gamma (nu / 2) in
    let denominator :=
      Math_sqrt (nu * Math_PI) * mathUtils.safePow (1 + (x * x) / nu) ((nu + 1) / 2) in
    gammaRatio / denominator.

Definition rangeCalculator (ps : params) : range :=
  let nu := or_default (ps !! "nu") 1 in
  let scale := if nu >? 2 then Math_sqrt (nu / (nu - 2)) else 3 in
  {| min := -4 * scale; max := 4 * scale |}.

End Dist.
End student.

(** ** Discrete distributions *)

Module binomial.
Section Dist.
Context {M : MathLib}.
Local Open Scope num_scope.

(** The loop [for (let i = 0; i < k; i++) coeff = coeff * (n - i) / (i + 1)],
    entered at counter [i] with accumulator [coeff]; [fuel] bounds the
    number of iterations and [None] means it ran out. *)
Fixpoint coeff_loop (fuel : nat) (k n i coeff : num) : option num :=
  if i <? k then
    match fuel with
    | O => None
    | S fuel' => coeff_loop fuel' k n (increment i) (coeff * (n - i) / (i + 1))
    end
  else Some coeff.

Definition pdf (fuel : nat) (k n p : num) : option num :=
  if negb (Number_isInteger k) || (k <? 0) || (k >? n) || (n <? 0)
     || (p <? 0) || (p >? 1) then Some (Num 0)
  else if p === 0 then Some (if k === 0 then Num 1 else Num 0)
  else if p === 1 then Some (if k === n then Num 1 else Num 0)
  else
    match coeff_loop fuel k n 0 1 with
    | Some coeff => Some (coeff * Math_pow p k * Math_pow (1 - p) (n - k))
    | None => None
    end.

Definition rangeCalculator (ps : params) : range :=
  let n := or_default (ps !! "n") 10 in
  {| min := 0; max := n |}.

End Dist.
End binomial.

Module poisson.
Section Dist.
Context {M : MathLib}.
Local Open Scope num_scope.

Definition pdf (k lambda : num) : num :=
  if negb (Number_isInteger k) || (k <? 0) || (lambda <=? 0) then 0
  else
    let logProb := k * Math_log lambda - lambda - mathUtils.logFactorial k in
    Math_exp logProb.

Definition rangeCalculator (ps : params) : range :=
  let lambda := or_default (ps !! "lambda") 3 in
  let max := Math_max 20 (Math_ceil (lambda + 4 * Math_sqrt lambda)) in
  {| min := 0; max := max |}.

End Dist.
End poisson.

Module geometric.
Section Dist.
Context {M : MathLib}.
Local Open Scope num_scope.

Definition pdf (k p : num) : num :=
  if negb (Number_isInteger k) || (k <? 1) || (p <=? 0) || (p >? 1) then 0
  else Math_pow (1 - p) (k - 1) * p.

Definition rangeCalculator (ps : params) : range :=
  let p := or_default (ps !! "p") 0.3 in
  let max := Math_max 10 (Math_ceil (- Math_log 0.01 / Math_log (1 - p))) in
  {| min := 1; max := max |}.

End Dist.
End geometric.

Module negativeBinomial.
Section Dist.
Context {M : MathLib}.
Local Open Scope num_scope.

(** The loop [for (let i = 0; i < r - 1; i++)
    coeff = coeff * (k - 1 - i) / (i + 1)]. *)
Fixpoint coeff_loop (fuel : nat) (k r i coeff : num) : option num :=
  if i <? r - 1 then
    match fuel with
    | O => None
    | S fuel' => coeff_loop fuel' k r (increment i) (coeff * (k - 1 - i) / (i + 1))
    end
  else Some coeff.

Definition pdf (fuel : nat) (k r p : num) : option num :=
  if negb (Number_isInteger k) || (k <? r) || (r <? 1) || (p <=? 0) || (p >? 1)
  then Some (Num 0)
  else
    match coeff_loop fuel k r 0 1 with
    | Some coeff => Some (coeff * Math_pow p r * Math_pow (1 - p) (k - r))
    | None => None
    end.

Definition rangeCalculator (ps : params) : range :=
  let r := or_default (ps !! "r") 5 in
  let p := or_default (ps !! "p") 0.3 in
  let mean := r / p in
  let max := Math_max (r + 10) (Math_ceil (mean + 4 * Math_sqrt (mean * (1 - p) / p))) in
  {| min := r; max := max |}.

End Dist.
End negativeBinomial.

Module bernoulli.
Section Dist.
Local Open Scope num_scope.

Definition pdf (x p : num) : num :=
  if (x !== 0) && (x !== 1) then 0
  else if (p <? 0) || (p >? 1) then 0
  else if x === 1 then p else 1 - p.

Definition rangeCalculator (ps : params) : range :=
  {| min := 0; max := 1 |}.

End Dist.
End bernoulli.

Module discreteUniform.
Section Dist.
Local Open Scope num_scope.

Definition pdf (x lower upper : num) : num :=
  if negb (Number_isInteger x) || (x <? lower) || (x >? upper) || (lower >? upper) then 0
  else 1 / (upper - lower + 1).

Definition rangeCalculator (ps : params) : range :=
  let lower := or_default (ps !! "lower") 1 in
  let upper := or_default (ps !! "upper") 6 in
  {| min := lower; max := upper |}.

End Dist.
End discreteUniform.

Module hypergeometric.
Section Dist.
Context {M : MathLib}.
Local Open Scope num_scope.

Definition pdf (x N K n : num) : num :=
  if negb (Number_isInteger x) || (x <? 0) || (x >? n) || (x >? K)
     || (n - x >? N - K) then 0
  else if (N <? K) || (N <? n) || (K <? 0) || (n <? 0) then 0
  else
    let logCombK :=
      mathUtils.logFactorial K - mathUtils.logFactorial x
        - mathUtils.logFactorial (K - x) in
    let logCombNK :=
      mathUtils.logFactorial (N - K) - mathUtils.logFactorial (n - x)
        - mathUtils.logFactorial (N - K - n + x) in
    let logCombN :=
      mathUtils.logFactorial N - mathUtils.logFactorial n
        - mathUtils.logFactorial (N - n) in
    Math_exp (logCombK + logCombNK - logCombN).

Definition rangeCalculator (ps : params) : range :=
  let N := or_default (ps !! "N") 50 in
  let K := or_default (ps !! "K") 20 in
  let n := or_default (ps !! "n") 10 in
  let min := Math_max 0 (n - (N - K)) in
  let max := Math_min n K in
  {| min := min; max := max |}.

End Dist.
End hypergeometric.

Module betaBinomial.
Section Dist.
Context {M : MathLib}.
Local Open Scope num_scope.

Definition pdf (x n alpha beta_param : num) : num :=
  if negb (Number_isInteger x) || (x <? 0) || (x >? n) || (alpha <=? 0)
     || (beta_param <=? 0) then 0
  else
    let logBinomCoeff :=
      mathUtils.logFactorial n - mathUtils.logFactorial x
        - mathUtils.logFactorial (n - x) in
    let logBetaRatio :=
      (mathUtils.logGamma (x + alpha) + mathUtils.logGamma (n - x + beta_param)
         - mathUtils.logGamma (n + alpha + beta_param))
      + (mathUtils.logGamma (alpha + beta_param) - mathUtils.logGamma alpha
           - mathUtils.logGamma beta_param) in
    Math_exp (logBinomCoeff + logBetaRatio).

Definition rangeCalculator (ps : params) : range :=
  let n := or_default (ps !! "n") 10 in
  {| min := 0; max := n |}.

End Dist.
End betaBinomial.

Module discreteWeibull.
Section Dist.
Context {M : MathLib}.
Local Open Scope num_scope.

Definition pdf (x q beta_param : num) : num :=
  if negb (Number_isInteger x) || (x <? 0) || (q <=? 0) || (q >=? 1)
     || (beta_param <=? 0) then 0
  else
    let x_beta := Math_pow x beta_param in
    let x1_beta := Math_pow (x + 1) beta_param in
    if (x_beta >? 700) || (x1_beta >? 700) then 0
    else
      let qx := Math_pow q x_beta in
      let qx1 := Math_pow q x1_beta in
      let result := qx - qx1 in
      if isFinite result && (result >=? 0) then result else 0.

(** The search loop [for (let x = 1; x <= 50; x++)] with its [break]:
    the first [x] of [xs] that passes the test, else the initial
    [maxX = 10]. *)
Fixpoint find_maxX (q beta_param : num) (xs : list nat) : num :=
  match xs with
  | [] => 10
  | x :: rest =>
      let x_beta := Math_pow (mathUtils.of_nat x) beta_param in
      if x_beta * Math_log q <? -10 then mathUtils.of_nat x
      else find_maxX q beta_param rest
  end.

Definition rangeCalculator (ps : params) : range :=
  let q := or_default (ps !! "q") 0.5 in
  let beta_param := or_default (ps !! "beta") 1 in
  let maxX := find_maxX q beta_param (seq 1 50) in
  {| min := 0; max := Math_min maxX 30 |}.

End Dist.
End discreteWeibull.

(** ** Further continuous distributions *)

Module cauchy.
Section Dist.
Local Open Scope num_scope.

Definition pdf (x x0 gamma : num) : num :=
  if gamma <=? 0 then 0
  else
    let z := (x - x0) / gamma in
    1 / (Math_PI * gamma * (1 + z * z)).

Definition rangeCalculator (ps : params) : range :=
  let x0 := or_default (ps !! "x0") 0 in
  let gamma := or_default (ps !! "gamma") 1 in
  {| min := x0 - 10 * gamma; max := x0 + 10 * gamma |}.

End Dist.
End cauchy.

Module laplace.
Section Dist.
Context {M : MathLib}.
Local Open Scope num_scope.

Definition pdf (x mu b : num) : num :=
  if b <=? 0 then 0
  else (1 / (2 * b)) * Math_exp (- Math_abs (x - mu) / b).

Definition rangeCalculator (ps : params) : range :=
  let mu := or_default (ps !! "mu") 0 in
  let b := or_default (ps !! "b") 1 in
  {| min := mu - 6 * b; max := mu + 6 * b |}.

End Dist.
End laplace.

Module logistic.
Section Dist.
Context {M : MathLib}.
Local Open Scope num_scope.

Definition pdf (x mu s : num) : num :=
  if s <=? 0 then 0
  else
    let z := - (x - mu) / s in
    let exp_z := Math_exp z in
    exp_z / (s * Math_pow (1 + exp_z) 2).

Definition rangeCalculator (ps : params) : range :=
  let mu := or_default (ps !! "mu") 0 in
  let s := or_default (ps !! "s") 1 in
  {| min := mu - 6 * s; max := mu + 6 * s |}.

End Dist.
End logistic.

Module gumbel.
Section Dist.
Context {M : MathLib}.
Local Open Scope num_scope.

Definition pdf (x mu beta : num) : num :=
  if beta <=? 0 then 0
  else
    let z := (x - mu) / beta in
    (1 / beta) * Math_exp (- z - Math_exp (- z)).

Definition rangeCalculator (ps : params) : range :=
  let mu := or_default (ps !! "mu") 0 in
  let beta := or_default (ps !! "beta") 1 in
  {| min := mu - 3 * beta; max := mu + 8 * beta |}.

End Dist.
End gumbel.

Module weibull.
Section Dist.
Context {M : MathLib}.
Local Open Scope num_scope.

Definition pdf (x alpha beta : num) : num :=
  if (alpha <=? 0) || (beta <=? 0) || (x <? 0) then 0
  else
    let xb := x / beta in
    (alpha / beta) * Math_pow xb (alpha - 1) * Math_exp (- Math_pow xb alpha).

Definition rangeCalculator (ps : params) : range :=
  let alpha := or_default (ps !! "alpha") 2 in
  let beta := or_default (ps !! "beta") 1 in
  let max := beta * Math_pow (- Math_log 0.001) (1 / alpha) in
  {| min := 0; max := Math_min max (beta * 5) |}.

End Dist.
End weibull.

Module pareto.
Section Dist.
Context {M : MathLib}.
Local Open Scope num_scope.

Definition pdf (x alpha m : num) : num :=
  if (alpha <=? 0) || (m <=? 0) || (x <? m) then 0
  else alpha * Math_pow m alpha / Math_pow x (alpha + 1).

Definition rangeCalculator (ps : params) : range :=
  let alpha := or_default (ps !! "alpha") 1 in
  let m := or_default (ps !! "m") 1 in
  let max := m * Math_pow 1000 (1 / alpha) in
  {| min := m; max := Math_min max (m * 10) |}.

End Dist.
End pareto.

Module halfNormal.
Section Dist.
Context {M : MathLib}.
Local Open Scope num_scope.

Definition pdf (x sigma : num) : num :=
  if (sigma <=? 0) || (x <? 0) then 0
  else
    Math_sqrt (2 / (Math_PI * sigma * sigma))
      * Math_exp (- (x * x) / (2 * sigma * sigma)).

Definition rangeCalculator (ps : params) : range :=
  let sigma := or_default (ps !! "sigma") 1 in
  {| min := 0; max := 4 * sigma |}.

End Dist.
End halfNormal.

Module halfCauchy.
Section Dist.
Local Open Scope num_scope.

Definition pdf (x beta : num) : num :=
  if (beta <=? 0) || (x <? 0) then 0
  else
    let z := x / beta in
    2 / (Math_PI * beta * (1 + z * z)).

Definition rangeCalculator (ps : params) : range :=
  let beta := or_default (ps !! "beta") 1 in
  {| min := 0; max := 10 * beta |}.

End Dist.
End halfCauchy.

Module inverseGamma.
Section Dist.
Context {M : MathLib}.
Local Open Scope num_scope.

Definition pdf (x alpha beta : num) : num :=
  if (alpha <=? 0) || (beta <=? 0) || (x <=? 0) then 0
  else
    Math_pow beta alpha / mathUtils.gamma alpha * Math_pow x (- alpha - 1)
      * Math_exp (- beta / x).

Definition rangeCalculator (ps : params) : range :=
  let alpha := or_default (ps !! "alpha") 2 in
  let beta := or_default (ps !! "beta") 1 in
  let mean := if alpha >? 1 then beta / (alpha - 1) else beta in
  {| min := 0.001; max := mean * 5 |}.

End Dist.
End inverseGamma.

Module triangular.
Section Dist.
Local Open Scope num_scope.

Definition pdf (x lower c upper : num) : num :=
  if (lower >=? c) || (c >=? upper) || (x <? lower) || (x >? upper) then 0
  else if x <? c then 2 * (x - lower) / ((upper - lower) * (c - lower))
  else if x === c then 2 / (upper - lower)
  else 2 * (upper - x) / ((upper - lower) * (upper - c)).

Definition rangeCalculator (ps : params) : range :=
  let lower := or_default (ps !! "lower") 0 in
  let upper := or_default (ps !! "upper") 1 in
  let padding := (upper - lower) * 0.1 in
  {| min := lower - padding; max := upper + padding |}.

End Dist.
End triangular.

Module kumaraswamy.
Section Dist.
Context {M : MathLib}.
Local Open Scope num_scope.

Definition pdf (x a b : num) : num :=
  if (a <=? 0) || (b <=? 0) || (x <? 0) || (x >? 1) then 0
  else a * b * Math_pow x (a - 1) * Math_pow (1 - Math_pow x a) (b - 1).

Definition rangeCalculator (ps : params) : range :=
  {| min := 0; max := 1 |}.

End Dist.
End kumaraswamy.

Module asymmetricLaplace.
Section Dist.
Context {M : MathLib}.
Local Open Scope num_scope.

Definition pdf (x mu b kappa : num) : num :=
  if (b <=? 0) || (kappa <=? 0) then 0
  else
    let sign : num := if x >=? mu then 1 else -1 in
    let kappaSign := if sign >? 0 then kappa else 1 / kappa in
    let normalization := kappa / (b * (1 + kappa * kappa)) in
    normalization * Math_exp (- Math_abs (x - mu) * kappaSign / b).

Definition rangeCalculator (ps : params) : range :=
  let mu := or_default (ps !! "mu") 0 in
  let b := or_default (ps !! "b") 1 in
  let kappa := or_default (ps !! "kappa") 1 in
  let leftScale := b / kappa in
  let rightScale := b * kappa in
  {| min := mu - 6 * leftScale; max := mu + 6 * rightScale |}.

End Dist.
End asymmetricLaplace.

Module skewNormal.
Section Dist.
Context {M : MathLib}.
Local Open Scope num_scope.

Definition pdf (x mu sigma alpha : num) : num :=
  if sigma <=? 0 then 0
  else
    let z := (x - mu) / sigma in
    let phi := (1 / Math_sqrt (2 * Math_PI)) * Math_exp (-0.5 * z * z) in
    let Phi_t := mathUtils.normalCDF (alpha * z) in
    (2 / sigma) * phi * Phi_t.

Definition rangeCalculator (ps : params) : range :=
  let mu := or_default (ps !! "mu") 0 in
  let sigma := or_default (ps !! "sigma") 1 in
  let alpha := or_default (ps !! "alpha") 0 in
  let extension : num := if Math_abs alpha >? 2 then 1.5 else 1 in
  {| min := mu - 4 * sigma * extension; max := mu + 4 * sigma * extension |}.

End Dist.
End skewNormal.

Module halfStudentT.
Section Dist.
Context {M : MathLib}.
Local Open Scope num_scope.

Definition pdf (x nu sigma : num) : num :=
  if (nu <=? 0) || (sigma <=? 0) || (x <? 0) then 0
  else
    let t := x / sigma in
    let gammaRatio := mathUtils.gamma ((nu + 1) / 2) / mathUtils.gamma (nu / 2) in
    (2 * gammaRatio) / (Math_sqrt (nu * Math_PI) * sigma)
      * Math_pow (1 + t * t / nu) (- (nu + 1) / 2).

Definition rangeCalculator (ps : params) : range :=
  let nu := or_default (ps !! "nu") 2 in
  let sigma := or_default (ps !! "sigma") 1 in
  let scale := if nu >? 2 then Math_sqrt (nu / (nu - 2)) else 2 in
  {| min := 0; max := 5 * sigma * scale |}.

End Dist.
End halfStudentT.

Module logitNormal.
Section Dist.
Context {M : MathLib}.
Local Open Scope num_scope.

Definition pdf (x mu tau : num) : num :=
  if (tau <=? 0) || (x <=? 0) || (x >=? 1) then 0
  else
    let logit_x := Math_log (x / (1 - x)) in
    let norm_factor := 1 / (x * (1 - x)) * Math_sqrt (tau / (2 * Math_PI)) in
    norm_factor * Math_exp (- tau / 2 * Math_pow (logit_x - mu) 2).

Definition rangeCalculator (ps : params) : range :=
  {| min := 0.001; max := 0.999 |}.

End Dist.
End logitNormal.

Module wald.
Section Dist.
Context {M : MathLib}.
Local Open Scope num_scope.

Definition pdf (x mu lam : num) : num :=
  if (mu <=? 0) || (lam <=? 0) || (x <=? 0) then 0
  else
    let sqrt_term := Math_sqrt (lam / (2 * Math_PI * x * x * x)) in
    let exp_term := Math_exp (- lam * Math_pow (x - mu) 2 / (2 * mu * mu * x)) in
    sqrt_term * exp_term.

Definition rangeCalculator (ps : params) : range :=
  let mu := or_default (ps !! "mu") 1 in
  let lam := or_default (ps !! "lam") 1 in
  let cv := Math_sqrt (mu / lam) in
  {| min := 0.001; max := mu + 4 * mu * cv |}.

End Dist.
End wald.

Module moyal.
Section Dist.
Context {M : MathLib}.
Local Open Scope num_scope.

Definition pdf (x mu sigma : num) : num :=
  if sigma <=? 0 then 0
  else
    let z := (x - mu) / sigma in
    (1 / (Math_sqrt (2 * Math_PI) * sigma)) * Math_exp (-0.5 * (z + Math_exp (- z))).

Definition rangeCalculator (ps : params) : range :=
  let mu := or_default (ps !! "mu") 0 in
  let sigma := or_default (ps !! "sigma") 1 in
  {| min := mu - 3 * sigma; max := mu + 10 * sigma |}.

End Dist.
End moyal.

Module exGaussian.
Section Dist.
Context {M : MathLib}.
Local Open Scope num_scope.

Definition pdf (x mu sigma lam : num) : num :=
  if (sigma <=? 0) || (lam <=? 0) then 0
  else
    let exp_part :=
      lam / 2 * Math_exp (lam / 2 * (2 * mu + lam * sigma * sigma - 2 * x)) in
    let u := (mu + lam * sigma * sigma - x) / (Math_sqrt 2 * sigma) in
    exp_part * mathUtils.erfc u.

Definition rangeCalculator (ps : params) : range :=
  let mu := or_default (ps !! "mu") 0 in
  let sigma := or_default (ps !! "sigma") 1 in
  let lam := or_default (ps !! "lam") 1 in
  {| min := mu - 3 * sigma; max := mu + 4 * sigma + 3 / lam |}.

End Dist.
End exGaussian.

Module vonMises.
Section Dist.
Context {M : MathLib}.
Local Open Scope num_scope.

Definition pdf (x mu kappa : num) : num :=
  if (kappa <=? 0) || (x <? - Math_PI) || (x >? Math_PI) then 0
  else Math_exp (kappa * Math_cos (x - mu)) / (2 * Math_PI * mathUtils.besselI0 kappa).

Definition rangeCalculator (ps : params) : range :=
  {| min := - Math_PI; max := Math_PI |}.

End Dist.
End vonMises.

Module rice.
Section Dist.
Context {M : MathLib}.
Local Open Scope num_scope.

Definition pdf (x nu sigma : num) : num :=
  if (sigma <=? 0) || (nu <? 0) || (x <? 0) then 0
  else
    let sigma2 := sigma * sigma in
    let z := x * nu / sigma2 in
    (x / sigma2) * Math_exp (- (x * x + nu * nu) / (2 * sigma2)) * mathUtils.besselI0 z.

Definition rangeCalculator (ps : params) : range :=
  let nu := or_default (ps !! "nu") 1 in
  let sigma := or_default (ps !! "sigma") 1 in
  let mean :=
    sigma * Math_sqrt (Math_PI / 2) * Math_exp (- nu * nu / (4 * sigma * sigma)) in
  {| min := 0; max := Math_max (nu + 4 * sigma) (mean + 4 * sigma) |}.

End Dist.
End rice.

Module truncatedNormal.
Section Dist.
Context {M : MathLib}.
Local Open Scope num_scope.

Definition pdf (x mu sigma lower upper : num) : num :=
  if (sigma <=? 0) || (x <? lower) || (x >? upper) || (lower >=? upper) then 0
  else
    let z := (x - mu) / sigma in
    let phi := (1 / Math_sqrt (2 * Math_PI)) * Math_exp (-0.5 * z * z) in
    let alpha := (lower - mu) / sigma in
    let beta := (upper - mu) / sigma in
    let Z := mathUtils.normalCDF beta - mathUtils.normalCDF alpha in
    phi / (sigma * Z).

Definition rangeCalculator (ps : params) : range :=
  let lower := or_default (ps !! "lower") (-2) in
  let upper := or_default (ps !! "upper") 2 in
  let padding := (upper - lower) * 0.05 in
  {| min := lower - padding; max := upper + padding |}.

End Dist.
End truncatedNormal.

(* ================================================================== *)
(** * The exports [pdfFunctions] and [rangeCalculators] *)
(* ================================================================== *)

(** The keys of the [distributions] object. *)
Inductive dist : Type :=
| Normal | Beta | Gamma | Exponential | Uniform | Lognormal | Chi2 | Student
| Binomial | Poisson | Geometric | NegativeBinomial | Bernoulli
| DiscreteUniform | Hypergeometric | BetaBinomial | DiscreteWeibull
| Cauchy | Laplace | Logistic | Gumbel | Weibull | Pareto | HalfNormal
| HalfCauchy | InverseGamma | Triangular | Kumaraswamy | AsymmetricLaplace
| SkewNormal | HalfStudentT | LogitNormal | Wald | Moyal | ExGaussian
| VonMises | Rice | TruncatedNormal.

Section Exports.
Context {M : MathLib}.

(** [pdfFunctions[d](...args)].  [fuel] bounds the coefficient loops of
    the two evaluators that have one.  A call with the wrong number of
    arguments is not modelled ([None]). *)
Definition pdfFunctions (d : dist) (fuel : nat) (args : list num) : option num :=
  match d, args with
  | Normal, [x; mu; sigma] => Some (normal.pdf x mu sigma)
  | Beta, [x; alpha; betaParam] => Some (beta.pdf x alpha betaParam)
  | Gamma, [x; alpha; betaParam] => Some (gamma.pdf x alpha betaParam)
  | Exponential, [x; lambda] => Some (exponential.pdf x lambda)
  | Uniform, [x; a; b] => Some (uniform.pdf x a b)
  | Lognormal, [x; mu; sigma] => Some (lognormal.pdf x mu sigma)
  | Chi2, [x; k] => Some (chi2.pdf x k)
  | Student, [x; nu] => Some (student.pdf x nu)
  | Binomial, [k; n; p] => binomial.pdf fuel k n p
  | Poisson, [k; lambda] => Some (poisson.pdf k lambda)
  | Geometric, [k; p] => Some (geometric.pdf k p)
  | NegativeBinomial, [k; r; p] => negativeBinomial.pdf fuel k r p
  | Bernoulli, [x; p] => Some (bernoulli.pdf x p)
  | DiscreteUniform, [x; lower; upper] => Some (discreteUniform.pdf x lower upper)
  | Hypergeometric, [x; N; K; n] => Some (hypergeometric.pdf x N K n)
  | BetaBinomial, [x; n; alpha; beta_param] => Some (betaBinomial.pdf x n alpha beta_param)
  | DiscreteWeibull, [x; q; beta_param] => Some (discreteWeibull.pdf x q beta_param)
  | Cauchy, [x; x0; gamma] => Some (cauchy.pdf x x0 gamma)
  | Laplace, [x; mu; b] => Some (laplace.pdf x mu b)
  | Logistic, [x; mu; s] => Some (logistic.pdf x mu s)
  | Gumbel, [x; mu; beta] => Some (gumbel.pdf x mu beta)
  | Weibull, [x; alpha; beta] => Some (weibull.pdf x alpha beta)
  | Pareto, [x; alpha; m] => Some (pareto.pdf x alpha m)
  | HalfNormal, [x; sigma] => Some (halfNormal.pdf x sigma)
  | HalfCauchy, [x; beta] => Some (halfCauchy.pdf x beta)
  | InverseGamma, [x; alpha; beta] => Some (inverseGamma.pdf x alpha beta)
  | Triangular, [x; lower; c; upper] => Some (triangular.pdf x lower c upper)
  | Kumaraswamy, [x; a; b] => Some (kumaraswamy.pdf x a b)
  | AsymmetricLaplace, [x; mu; b; kappa] => Some (asymmetricLaplace.pdf x mu b kappa)
  | SkewNormal, [x; mu; sigma; alpha] => Some (skewNormal.pdf x mu sigma alpha)
  | HalfStudentT, [x; nu; sigma] => Some (halfStudentT.pdf x nu sigma)
  | LogitNormal, [x; mu; tau] => Some (logitNormal.pdf x mu tau)
  | Wald, [x; mu; lam] => Some (wald.pdf x mu lam)
  | Moyal, [x; mu; sigma] => Some (moyal.pdf x mu sigma)
  | ExGaussian, [x; mu; sigma; lam] => Some (exGaussian.pdf x mu sigma lam)
  | VonMises, [x; mu; kappa] => Some (vonMises.pdf x mu kappa)
  | Rice, [x; nu; sigma] => Some (rice.pdf x nu sigma)
  | TruncatedNormal, [x; mu; sigma; lower; upper] =>
      Some (truncatedNormal.pdf x mu sigma lower upper)
  | _, _ => None
  end.

Definition rangeCalculators (d : dist) : params -> range :=
  match d with
  | Normal => normal.rangeCalculator
  | Beta => beta.rangeCalculator
  | Gamma => gamma.rangeCalculator
  | Exponential => exponential.rangeCalculator
  | Uniform => uniform.rangeCalculator
  | Lognormal => lognormal.rangeCalculator
  | Chi2 => chi2.rangeCalculator
  | Student => student.rangeCalculator
  | Binomial => binomial.rangeCalculator
  | Poisson => poisson.rangeCalculator
  | Geometric => geometric.rangeCalculator
  | NegativeBinomial => negativeBinomial.rangeCalculator
  | Bernoulli => bernoulli.rangeCalculator
  | DiscreteUniform => discreteUniform.rangeCalculator
  | Hypergeometric => hypergeometric.rangeCalculator
  | BetaBinomial => betaBinomial.rangeCalculator
  | DiscreteWeibull => discreteWeibull.rangeCalculator
  | Cauchy => cauchy.rangeCalculator
  | Laplace => laplace.rangeCalculator
  | Logistic => logistic.rangeCalculator
  | Gumbel => gumbel.rangeCalculator
  | Weibull => weibull.rangeCalculator
  | Pareto => pareto.rangeCalculator
  | HalfNormal => halfNormal.rangeCalculator
  | HalfCauchy => halfCauchy.rangeCalculator
  | InverseGamma => inverseGamma.rangeCalculator
  | Triangular => triangular.rangeCalculator
  | Kumaraswamy => kumaraswamy.rangeCalculator
  | AsymmetricLaplace => asymmetricLaplace.rangeCalculator
  | SkewNormal => skewNormal.rangeCalculator
  | HalfStudentT => halfStudentT.rangeCalculator
  | LogitNormal => logitNormal.rangeCalculator
  | Wald => wald.rangeCalculator
  | Moyal => moyal.rangeCalculator
  | ExGaussian => exGaussian.rangeCalculator
  | VonMises => vonMises.rangeCalculator
  | Rice => rice.rangeCalculator
  | TruncatedNormal => truncatedNormal.rangeCalculator
  end.

End Exports.

(** The [default] field of each entry of [parameters], by distribution
    and parameter name. *)
Definition parameters (d : dist) : list (string * num) :=
  match d with
  | Normal => [("mu", Num 0); ("sigma", Num 1)]
  | Beta => [("alpha", Num 2); ("beta", Num 2)]
  | Gamma => [("alpha", Num 2); ("beta", Num 1)]
  | Exponential => [("lambda", Num 1)]
  | Uniform => [("a", Num 0); ("b", Num 1)]
  | Lognormal => [("mu", Num 0); ("sigma", Num 1)]
  | Chi2 => [("k", Num 1)]
  | Student => [("nu", Num 1)]
  | Binomial => [("n", Num 10); ("p", Num 0.5)]
  | Poisson => [("lambda", Num 3)]
  | Geometric => [("p", Num 0.3)]
  | NegativeBinomial => [("r", Num 5); ("p", Num 0.3)]
  | Bernoulli => [("p", Num 0.5)]
  | DiscreteUniform => [("lower", Num 1); ("upper", Num 6)]
  | Hypergeometric => [("N", Num 50); ("K", Num 20); ("n", Num 10)]
  | BetaBinomial => [("n", Num 10); ("alpha", Num 2); ("beta", Num 2)]
  | DiscreteWeibull => [("q", Num 0.5); ("beta", Num 1)]
  | Cauchy => [("x0", Num 0); ("gamma", Num 1)]
  | Laplace => [("mu", Num 0); ("b", Num 1)]
  | Logistic => [("mu", Num 0); ("s", Num 1)]
  | Gumbel => [("mu", Num 0); ("beta", Num 1)]
  | Weibull => [("alpha", Num 2); ("beta", Num 1)]
  | Pareto => [("alpha", Num 1); ("m", Num 1)]
  | HalfNormal => [("sigma", Num 1)]
  | HalfCauchy => [("beta", Num 1)]
  | InverseGamma => [("alpha", Num 2); ("beta", Num 1)]
  | Triangular => [("lower", Num 0); ("c", Num 0.5); ("upper", Num 1)]
  | Kumaraswamy => [("a", Num 2); ("b", Num 2)]
  | AsymmetricLaplace => [("mu", Num 0); ("b", Num 1); ("kappa", Num 1)]
  | SkewNormal => [("mu", Num 0); ("sigma", Num 1); ("alpha", Num 0)]
  | HalfStudentT => [("nu", Num 2); ("sigma", Num 1)]
  | LogitNormal => [("mu", Num 0); ("tau", Num 1)]
  | Wald => [("mu", Num 1); ("lam", Num 1)]
  | Moyal => [("mu", Num 0); ("sigma", Num 1)]
  | ExGaussian => [("mu", Num 0); ("sigma", Num 1); ("lam", Num 1)]
  | VonMises => [("mu", Num 0); ("kappa", Num 1)]
  | Rice => [("nu", Num 1); ("sigma", Num 1)]
  | TruncatedNormal =>
      [("mu", Num 0); ("sigma", Num 1); ("lower", Num (-2)); ("upper", Num 2)]
  end.

(* ================================================================== *)
(** * The estimators in binary64 *)
(* ================================================================== *)

(** Some of the range estimators of [distributions.js] once more, with
    every arithmetic operation rounded as the source computes it.  They
    give the windows that rounding, overflow or underflow collapses;
    the parameters they are applied to are binary64 numbers. *)
Module rounded.

Local Open Scope num_scope.

(** In this module the four operators stand for the rounded
    operations. *)
#[local] Set Warnings "-notation-overridden".
Local Notation "x + y" := (binary64.add x y) : num_scope.
Local Notation "x - y" := (binary64.sub x y) : num_scope.
Local Notation "x * y" := (binary64.mul x y) : num_scope.
Local Notation "x / y" := (binary64.div x y) : num_scope.

Section MathObject.
Context {M : MathLib}.

(** [Math.exp] is [Infinity] above [ln (2^1024)] and [0] below
    [ln (2^-1075)], whatever the approximation in between. *)
Definition exp (x : num) : num :=
  if x >? 709.782712893384 then Infinity
  else if x <? -745.1332191019412 then Num 0
  else binary64.round (Math_exp x).

Definition sqrt (x : num) : num := binary64.round (Math_sqrt x).

Definition pow (base exponent : num) : num := binary64.round (Math_pow base exponent).

End MathObject.

(** [max - min], as the source would compute it. *)
Definition width (r : range) : num := max r - min r.

Module normal.
Definition rangeCalculator (ps : params) : range :=
  let mu := or_default (ps !! "mu") 0 in
  let sigma := or_default (ps !! "sigma") 1 in
  {| min := mu - 4 * sigma; max := mu + 4 * sigma |}.
End normal.

Module lognormal.
Section Dist.
Context {M : MathLib}.
Definition rangeCalculator (ps : params) : range :=
  let mu := or_default (ps !! "mu") 0 in
  let sigma := or_default (ps !! "sigma") 1 in
  let mean := exp (mu + sigma * sigma / 2) in
  {| min := 0;
     max := mean + 3 * sqrt ((exp (sigma * sigma) - 1)
                              * exp (2 * mu + sigma * sigma)) |}.
End Dist.
End lognormal.

Module negativeBinomial.
Section Dist.
Context {M : MathLib}.
Definition rangeCalculator (ps : params) : range :=
  let r := or_default (ps !! "r") 5 in
  let p := or_default (ps !! "p") 0.3 in
  let mean := r / p in
  let max := Math_max (r + 10) (Math_ceil (mean + 4 * sqrt (mean * (1 - p) / p))) in
  {| min := r; max := max |}.
End Dist.
End negativeBinomial.

Module hypergeometric.
Definition rangeCalculator (ps : params) : range :=
  let N := or_default (ps !! "N") 50 in
  let K := or_default (ps !! "K") 20 in
  let n := or_default (ps !! "n") 10 in
  let min := Math_max 0 (n - (N - K)) in
  let max := Math_min n K in
  {| min := min; max := max |}.
End hypergeometric.

Module cauchy.
Definition rangeCalculator (ps : params) : range :=
  let x0 := or_default (ps !! "x0") 0 in
  let gamma := or_default (ps !! "gamma") 1 in
  {| min := x0 - 10 * gamma; max := x0 + 10 * gamma |}.
End cauchy.

Module laplace.
Definition rangeCalculator (ps : params) : range :=
  let mu := or_default (ps !! "mu") 0 in
  let b := or_default (ps !! "b") 1 in
  {| min := mu - 6 * b; max := mu + 6 * b |}.
End laplace.

Module logistic.
Definition rangeCalculator (ps : params) : range :=
  let mu := or_default (ps !! "mu") 0 in
  let s := or_default (ps !! "s") 1 in
  {| min := mu - 6 * s; max := mu + 6 * s |}.
End logistic.

Module gumbel.
Definition rangeCalculator (ps : params) : range :=
  let mu := or_default (ps !! "mu") 0 in
  let beta := or_default (ps !! "beta") 1 in
  {| min := mu - 3 * beta; max := mu + 8 * beta |}.
End gumbel.

Module pareto.
Section Dist.
Context {M : MathLib}.
Definition rangeCalculator (ps : params) : range :=
  let alpha := or_default (ps !! "alpha") 1 in
  let m := or_default (ps !! "m") 1 in
  let max := m * pow 1000 (1 / alpha) in
  {| min := m; max := Math_min max (m * 10) |}.
End Dist.
End pareto.

Module asymmetricLaplace.
Definition rangeCalculator (ps : params) : range :=
  let mu := or_default (ps !! "mu") 0 in
  let b := or_default (ps !! "b") 1 in
  let kappa := or_default (ps !! "kappa") 1 in
  let leftScale := b / kappa in
  let rightScale := b * kappa in
  {| min := mu - 6 * leftScale; max := mu + 6 * rightScale |}.
End asymmetricLaplace.

Module skewNormal.
Definition rangeCalculator (ps : params) : range :=
  let mu := or_default (ps !! "mu") 0 in
  let sigma := or_default (ps !! "sigma") 1 in
  let alpha := or_default (ps !! "alpha") 0 in
  let extension : num := if Math_abs alpha >? 2 then 1.5 else 1 in
  {| min := mu - 4 * sigma * extension; max := mu + 4 * sigma * extension |}.
End skewNormal.

Module moyal.
Definition rangeCalculator (ps : params) : range :=
  let mu := or_default (ps !! "mu") 0 in
  let sigma := or_default (ps !! "sigma") 1 in
  {| min := mu - 3 * sigma; max := mu + 10 * sigma |}.
End moyal.

Module exGaussian.
Definition rangeCalculator (ps : params) : range :=
  let mu := or_default (ps !! "mu") 0 in
  let sigma := or_default (ps !! "sigma") 1 in
  let lam := or_default (ps !! "lam") 1 in
  {| min := mu - 3 * sigma; max := mu + 4 * sigma + 3 / lam |}.
End exGaussian.

Module rice.
Section Dist.
Context {M : MathLib}.
Definition rangeCalculator (ps : params) : range :=
  let nu := or_default (ps !! "nu") 1 in
  let sigma := or_default (ps !! "sigma") 1 in
  let mean :=
    sigma * sqrt (Math_PI / 2) * exp (- nu * nu / (4 * sigma * sigma)) in
  {| min := 0; max := Math_max (nu + 4 * sigma) (mean + 4 * sigma) |}.
End Dist.
End rice.

End rounded.

(* ================================================================== *)
(** * A small Math object *)
(* ================================================================== *)

(** Low-order series for the approximated functions.  They are enough to
    run the evaluators on concrete inputs and to show that [MathLib] is
    inhabited; no accuracy is claimed for them, and every theorem below is
    stated for an arbitrary [MathLib]. *)
Module series.

Definition exp (q : Q) : Q :=
  if Qle_bool 0 q then 1 + q + 0.5 * q * q else / (1 - q + 0.5 * q * q).

Definition log (q : Q) : Q := 2 * (q - 1) * / (q + 1).

Definition sqrt (q : Q) : Q := 0.5 * (q + 1).

Definition sin (q : Q) : Q := q - (1 # 6) * q * q * q.

Definition cos (q : Q) : Q := 1 - 0.5 * q * q.

Definition pow (b e : Q) : Q := exp (e * log b).

End series.

(** The same series, with the values of the functions tabulated at the
    arguments that [Poisson.pdf(3, 3)] visits: [e^-10.5] and the
    exponential next to [-1.4959226], [ln 3] and the logarithm next to
    [6], the square root next to [2 pi], and [10.5^3.5]. *)
Module table.

Definition exp (q : Q) : Q :=
  if Qeq_bool q (-10.5) then 0.00002753644935
  else if Qle_bool (-1.496) q && Qle_bool q (-1.495) then 0.2240418
  else series.exp q.

Definition log (q : Q) : Q :=
  if Qeq_bool q 3 then 1.09861229
  else if Qle_bool 5.9 q && Qle_bool q 6.1 then 1.79175947
  else series.log q.

(** The tangent of the square root at [2 pi]. *)
Definition sqrt (q : Q) : Q := 1.25331413732 + 0.1994711402 * q.

Definition pow (b e : Q) : Q :=
  if Qeq_bool b 10.5 && Qeq_bool e 3.5 then 3751.1337255 else series.pow b e.

End table.

(* ================================================================== *)
(** * Notions used in the statements *)
(* ================================================================== *)

Definition is_nan (x : num) : bool :=
  match x with NaN => true | _ => false end.

(** The width [max - min] of a range estimate. *)
Definition width (r : range) : num := (max r - min r)%num.

(** [r.min < r.max], as a JavaScript comparison. *)
Definition ordered (r : range) : bool := (min r <? max r)%num.

(** [r.min <= r.max]. *)
Definition weakly_ordered (r : range) : bool := (min r <=? max r)%num.

(** [v] is a finite number between [lo] and [hi]. *)
Definition within (v : num) (lo hi : Q) : Prop :=
  exists q : Q, v = Num q /\ lo <= q <= hi.

Section Accuracy.
Context {M : MathLib}.
Local Open Scope num_scope.

(** The Math object is accurate to seven digits where [Poisson.pdf(3, 3)]
    calls it: at the square root of [2 pi], at [10.5^3.5] and [e^-10.5]
    (the Lanczos formula for [gamma(4)], with [z = 3] and [t = 10.5]), at
    [ln 3], and for the logarithm next to [6] and the exponential next to
    [-1.4959226]. *)
Definition accurate_for_poisson_3_3 : Prop :=
  let z : num := 3 in
  let t := z + 7 + 0.5 in
  within (Math_sqrt (2 * Math_PI)) 2.506628274 2.506628275
  /\ within (Math_pow t (z + 0.5)) 3751.13372 3751.13373
  /\ within (Math_exp (- t)) 0.0000275364493 0.0000275364494
  /\ within (Math_log 3) 1.0986122 1.0986123
  /\ (forall g : Q, (5.999999 <= g <= 6.000001)%Q ->
        within (Math_log (Num g)) 1.7917592 1.7917597)
  /\ (forall y : Q, (-1.495924 <= y <= -1.495922)%Q ->
        within (Math_exp (Num y)) 0.2240414 0.2240420).

End Accuracy.

(** The value at the boundary point governed by the shape [s]: [0] when
    [s > 1], [+Infinity] when [s < 1], and at [s = 1] the reciprocal of the
    kernel's Beta value if that value is finite and positive, else [0]. *)
Definition beta_boundary_value {M : MathLib} (s alpha betaParam : num) : num :=
  (if s >? 1 then 0
   else if s <? 1 then Infinity
   else
     let betaValue := mathUtils.beta alpha betaParam in
     if isFinite betaValue && (betaValue >? 0) then 1 / betaValue else 0)%num.

(** Number of arguments of each evaluator, the evaluation point
    included. *)
Definition arity (d : dist) : nat :=
  match d with
  | Exponential | Chi2 | Student | Poisson | Geometric | Bernoulli
  | HalfNormal | HalfCauchy => 2
  | Hypergeometric | BetaBinomial | Triangular | AsymmetricLaplace
  | SkewNormal | ExGaussian => 4
  | TruncatedNormal => 5
  | _ => 3
  end.

(** The parameters (the arguments after the evaluation point) violate a
    constraint of the distribution: a scale, shape or rate that is not
    positive, a probability outside its interval, a negative count, or
    bounds out of order. *)
Definition violates (d : dist) (args : list num) : bool :=
  (match d, args with
   | Normal, [_; _; sigma] => sigma <=? 0
   | Beta, [_; alpha; betaParam] => (alpha <=? 0) || (betaParam <=? 0)
   | Gamma, [_; alpha; betaParam] => (alpha <=? 0) || (betaParam <=? 0)
   | Exponential, [_; lambda] => lambda <=? 0
   | Uniform, [_; a; b] => b <=? a
   | Lognormal, [_; _; sigma] => sigma <=? 0
   | Chi2, [_; k] => k <=? 0
   | Student, [_; nu] => nu <=? 0
   | Binomial, [_; n; p] => (n <? 0) || (p <? 0) || (p >? 1)
   | Poisson, [_; lambda] => lambda <=? 0
   | Geometric, [_; p] => (p <=? 0) || (p >? 1)
   | NegativeBinomial, [_; r; p] => (r <? 1) || (p <=? 0) || (p >? 1)
   | Bernoulli, [_; p] => (p <? 0) || (p >? 1)
   | DiscreteUniform, [_; lower; upper] => lower >? upper
   | Hypergeometric, [_; N; K; n] => (N <? K) || (N <? n) || (K <? 0) || (n <? 0)
   | BetaBinomial, [_; n; alpha; beta_param] =>
       (n <? 0) || (alpha <=? 0) || (beta_param <=? 0)
   | DiscreteWeibull, [_; q; beta_param] => (q <=? 0) || (q >=? 1) || (beta_param <=? 0)
   | Cauchy, [_; _; gamma] => gamma <=? 0
   | Laplace, [_; _; b] => b <=? 0
   | Logistic, [_; _; s] => s <=? 0
   | Gumbel, [_; _; beta] => beta <=? 0
   | Weibull, [_; alpha; beta] => (alpha <=? 0) || (beta <=? 0)
   | Pareto, [_; alpha; m] => (alpha <=? 0) || (m <=? 0)
   | HalfNormal, [_; sigma] => sigma <=? 0
   | HalfCauchy, [_; beta] => beta <=? 0
   | InverseGamma, [_; alpha; beta] => (alpha <=? 0) || (beta <=? 0)
   | Triangular, [_; lower; c; upper] => (lower >=? c) || (c >=? upper)
   | Kumaraswamy, [_; a; b] => (a <=? 0) || (b <=? 0)
   | AsymmetricLaplace, [_; _; b; kappa] => (b <=? 0) || (kappa <=? 0)
   | SkewNormal, [_; _; sigma; _] => sigma <=? 0
   | HalfStudentT, [_; nu; sigma] => (nu <=? 0) || (sigma <=? 0)
   | LogitNormal, [_; _; tau] => tau <=? 0
   | Wald, [_; mu; lam] => (mu <=? 0) || (lam <=? 0)
   | Moyal, [_; _; sigma] => sigma <=? 0
   | ExGaussian, [_; _; sigma; lam] => (sigma <=? 0) || (lam <=? 0)
   | VonMises, [_; _; kappa] => kappa <=? 0
   | Rice, [_; nu; sigma] => (sigma <=? 0) || (nu <? 0)
   | TruncatedNormal, [_; _; sigma; lower; upper] => (sigma <=? 0) || (lower >=? upper)
   | _, _ => false
   end)%num.

(** [check ps k P]: the parameter [k] is supplied in [ps] with a finite
    value, and that value passes [P]. *)
Definition check (ps : params) (k : string) (P : Q -> bool) : bool :=
  match ps !! k with
  | Some (Num q) => P q
  | _ => false
  end.

Notation "'param' x := k 'of' ps ; b" := (check ps k (fun x => b))
  (at level 10, x name, k at level 0, ps at level 0, b at level 200,
   only parsing).

(** A parameter assignment satisfies the constraints of its distribution:
    every parameter is supplied with a finite value, and the values pass
    the parameter checks of the evaluator (the negation of [violates]; for
    the number of trials of the Beta-Binomial, which has no check of its
    own, the support [0..n] is not empty). *)
Definition valid_params (d : dist) (ps : params) : bool :=
  let pos := Qlt_bool 0 in
  let nonneg := Qle_bool 0 in
  let prob p := Qle_bool 0 p && Qle_bool p 1 in
  let prob_pos p := Qlt_bool 0 p && Qle_bool p 1 in
  match d with
  | Normal => param mu := "mu" of ps; param sigma := "sigma" of ps; pos sigma
  | Beta => param alpha := "alpha" of ps; param beta := "beta" of ps;
      pos alpha && pos beta
  | Gamma => param alpha := "alpha" of ps; param beta := "beta" of ps;
      pos alpha && pos beta
  | Exponential => param lambda := "lambda" of ps; pos lambda
  | Uniform => param a := "a" of ps; param b := "b" of ps; Qlt_bool a b
  | Lognormal => param mu := "mu" of ps; param sigma := "sigma" of ps; pos sigma
  | Chi2 => param k := "k" of ps; pos k
  | Student => param nu := "nu" of ps; pos nu
  | Binomial => param n := "n" of ps; param p := "p" of ps; nonneg n && prob p
  | Poisson => param lambda := "lambda" of ps; pos lambda
  | Geometric => param p := "p" of ps; prob_pos p
  | NegativeBinomial => param r := "r" of ps; param p := "p" of ps;
      Qle_bool 1 r && prob_pos p
  | Bernoulli => param p := "p" of ps; prob p
  | DiscreteUniform => param lower := "lower" of ps; param upper := "upper" of ps;
      Qle_bool lower upper
  | Hypergeometric => param N := "N" of ps; param K := "K" of ps; param n := "n" of ps;
      Qle_bool K N && Qle_bool n N && nonneg K && nonneg n
  | BetaBinomial => param n := "n" of ps; param alpha := "alpha" of ps;
      param beta := "beta" of ps; nonneg n && pos alpha && pos beta
  | DiscreteWeibull => param q := "q" of ps; param beta := "beta" of ps;
      pos q && Qlt_bool q 1 && pos beta
  | Cauchy => param x0 := "x0" of ps; param gamma := "gamma" of ps; pos gamma
  | Laplace => param mu := "mu" of ps; param b := "b" of ps; pos b
  | Logistic => param mu := "mu" of ps; param s := "s" of ps; pos s
  | Gumbel => param mu := "mu" of ps; param beta := "beta" of ps; pos beta
  | Weibull => param alpha := "alpha" of ps; param beta := "beta" of ps;
      pos alpha && pos beta
  | Pareto => param alpha := "alpha" of ps; param m := "m" of ps; pos alpha && pos m
  | HalfNormal => param sigma := "sigma" of ps; pos sigma
  | HalfCauchy => param beta := "beta" of ps; pos beta
  | InverseGamma => param alpha := "alpha" of ps; param beta := "beta" of ps;
      pos alpha && pos beta
  | Triangular => param lower := "lower" of ps; param c := "c" of ps;
      param upper := "upper" of ps; Qlt_bool lower c && Qlt_bool c upper
  | Kumaraswamy => param a := "a" of ps; param b := "b" of ps; pos a && pos b
  | AsymmetricLaplace => param mu := "mu" of ps; param b := "b" of ps;
      param kappa := "kappa" of ps; pos b && pos kappa
  | SkewNormal => param mu := "mu" of ps; param sigma := "sigma" of ps;
      param alpha := "alpha" of ps; pos sigma
  | HalfStudentT => param nu := "nu" of ps; param sigma := "sigma" of ps;
      pos nu && pos sigma
  | LogitNormal => param mu := "mu" of ps; param tau := "tau" of ps; pos tau
  | Wald => param mu := "mu" of ps; param lam := "lam" of ps; pos mu && pos lam
  | Moyal => param mu := "mu" of ps; param sigma := "sigma" of ps; pos sigma
  | ExGaussian => param mu := "mu" of ps; param sigma := "sigma" of ps;
      param lam := "lam" of ps; pos sigma && pos lam
  | VonMises => param mu := "mu" of ps; param kappa := "kappa" of ps; pos kappa
  | Rice => param nu := "nu" of ps; param sigma := "sigma" of ps;
      nonneg nu && pos sigma
  | TruncatedNormal => param mu := "mu" of ps; param sigma := "sigma" of ps;
      param lower := "lower" of ps; param upper := "upper" of ps;
      pos sigma && Qlt_bool lower upper
  end.

(** The argument list the plotting hook passes to an evaluator: the
    evaluation point, then the values of the parameters in the order of
    [parameters]. *)
Definition arguments (d : dist) (ps : params) (x : num) : list num :=
  x :: map (fun kv => match ps !! fst kv with Some v => v | None => NaN end)
           (parameters d).

(** What is known of the window of an estimator under valid parameters:
    [min < max]; or [min <= max], where rounding can bring the two bounds
    together; or neither, where the window can be empty or NaN. *)
Inductive guarantee : Type := below | not_above | unordered.

Definition window_guarantee (d : dist) : guarantee :=
  match d with
  | Beta | Gamma | Exponential | Uniform | Chi2 | Student | Binomial | Poisson
  | Geometric | Bernoulli | BetaBinomial | DiscreteWeibull | HalfNormal
  | HalfCauchy | Triangular | Kumaraswamy | HalfStudentT | LogitNormal
  | VonMises | TruncatedNormal => below
  | Normal | NegativeBinomial | Cauchy | Laplace | Logistic | Gumbel | Weibull
  | Pareto | AsymmetricLaplace | SkewNormal | Moyal | ExGaussian => not_above
  | Lognormal | DiscreteUniform | Hypergeometric | InverseGamma | Wald | Rice =>
      unordered
  end.

(* ================================================================== *)
(** * Objects and Maps with string keys *)
(* ================================================================== *)

(** [Math.floor] and the global [isNaN]. *)
Definition Math_floor (x : num) : num :=
  match x with
  | Num q => Num (inject_Z (Qfloor q))
  | _ => x
  end.

Definition isNaN (x : num) : bool :=
  match x with NaN => true | _ => false end.

(** A JavaScript object whose keys are strings other than array indices,
    and a [Map], enumerate their entries in insertion order, and an
    assignment to a key already present keeps its place.  Both are
    modelled by an association list without repeated keys; for an object
    the keys are those that [plain_key] accepts. *)
Module obj.
Section Obj.
Context {A : Type}.

Definition t : Type := list (string * A).

(** [o[k]], [m.get(k)]: [None] stands for [undefined]. *)
Fixpoint get (k : string) (o : t) : option A :=
  match o with
  | [] => None
  | (k', v) :: o' => if decide (k = k') then Some v else get k o'
  end.

(** [o[k] = v], [m.set(k, v)], and [{ ...o, [k]: v }]. *)
Fixpoint set (k : string) (v : A) (o : t) : t :=
  match o with
  | [] => [(k, v)]
  | (k', v') :: o' =>
      if decide (k = k') then (k, v) :: o' else (k', v') :: set k v o'
  end.

Definition keys (o : t) : list string := map fst o.
Definition values (o : t) : list A := map snd o.

End Obj.
Arguments t : clear implicits.

(** The property names an object inherits from [Object.prototype]: read
    from [{}] they give the inherited value, not [undefined]. *)
Definition inherited : list string :=
  [ "constructor"; "__proto__"; "hasOwnProperty"; "isPrototypeOf";
    "propertyIsEnumerable"; "toLocaleString"; "toString"; "valueOf";
    "__defineGetter__"; "__defineSetter__"; "__lookupGetter__";
    "__lookupSetter__" ]%string.

Definition starts_with_digit (k : string) : bool :=
  match k with
  | String a _ => (48 <=? Ascii.nat_of_ascii a)%nat && (Ascii.nat_of_ascii a <=? 57)%nat
  | EmptyString => false
  end.

(** The keys at which [get] and [set] are those of an object: a key that
    is not inherited and does not start with a digit (an array index
    does, and enumerates before the other keys).  The keys of a [Map]
    are not restricted. *)
Definition plain_key (k : string) : bool :=
  negb (starts_with_digit k) && negb (bool_decide (k ∈ inherited)).

End obj.

(** The [params] argument of a range estimator, read from an object. *)
Definition to_params (o : obj.t num) : params := list_to_map o.

(* ================================================================== *)
(** * distributions.js: the specification table *)
(* ================================================================== *)

(** The fields [type] and [plotType]. *)
Inductive kind : Type := continuous | discrete.
Inductive plotKind : Type := line | bar.

(** An entry of [parameters] and its [sliderRange].  The text fields
    ([displayName], [description]) and the constant [type: 'number'] are
    left out. *)
Module slider.
Record t : Type := make { min : num; max : num; step : num }.
End slider.

Module parameter.
Record t : Type := make {
  name : string;
  default : num;
  min : num;
  max : num;
  step : num;
  sliderRange : slider.t
}.
End parameter.

(** The fields of the entries of [distributions] next to [pdf] and
    [rangeCalculator]. *)
Module spec.

Definition name (d : dist) : string :=
  match d with
  | Normal => "normal" | Beta => "beta" | Gamma => "gamma"
  | Exponential => "exponential" | Uniform => "uniform"
  | Lognormal => "lognormal" | Chi2 => "chi2" | Student => "student"
  | Binomial => "binomial" | Poisson => "poisson" | Geometric => "geometric"
  | NegativeBinomial => "negativeBinomial" | Bernoulli => "bernoulli"
  | DiscreteUniform => "discreteUniform" | Hypergeometric => "hypergeometric"
  | BetaBinomial => "betaBinomial" | DiscreteWeibull => "discreteWeibull"
  | Cauchy => "cauchy" | Laplace => "laplace" | Logistic => "logistic"
  | Gumbel => "gumbel" | Weibull => "weibull" | Pareto => "pareto"
  | HalfNormal => "halfNormal" | HalfCauchy => "halfCauchy"
  | InverseGamma => "inverseGamma" | Triangular => "triangular"
  | Kumaraswamy => "kumaraswamy" | AsymmetricLaplace => "asymmetricLaplace"
  | SkewNormal => "skewNormal" | HalfStudentT => "halfStudentT"
  | LogitNormal => "logitNormal" | Wald => "wald" | Moyal => "moyal"
  | ExGaussian => "exGaussian" | VonMises => "vonMises" | Rice => "rice"
  | TruncatedNormal => "truncatedNormal"
  end.

Definition type (d : dist) : kind :=
  match d with
  | Binomial | Poisson | Geometric | NegativeBinomial | Bernoulli
  | DiscreteUniform | Hypergeometric | BetaBinomial | DiscreteWeibull => discrete
  | _ => continuous
  end.

Definition plotType (d : dist) : plotKind :=
  match d with
  | Binomial | Poisson | Geometric | NegativeBinomial | Bernoulli
  | DiscreteUniform | Hypergeometric | BetaBinomial | DiscreteWeibull => bar
  | _ => line
  end.

Definition category (d : dist) : string :=
  match d with
  | Binomial | Poisson | Geometric | NegativeBinomial | Bernoulli
  | DiscreteUniform | Hypergeometric | BetaBinomial | DiscreteWeibull => "Discrete"
  | _ => "Continuous"
  end.

Definition parameters (d : dist) : list parameter.t :=
  match d with
  | Normal =>
      [ parameter.make "mu" (Num 0) NegInfinity Infinity (Num 0.1) (slider.make (Num (-5)) (Num 5) (Num 0.1));
        parameter.make "sigma" (Num 1) (Num 0.001) Infinity (Num 0.1) (slider.make (Num 0.1) (Num 3) (Num 0.1)) ]
  | Beta =>
      [ parameter.make "alpha" (Num 2) (Num 0.001) Infinity (Num 0.1) (slider.make (Num 0.1) (Num 5) (Num 0.1));
        parameter.make "beta" (Num 2) (Num 0.001) Infinity (Num 0.1) (slider.make (Num 0.1) (Num 5) (Num 0.1)) ]
  | Gamma =>
      [ parameter.make "alpha" (Num 2) (Num 0.001) Infinity (Num 0.1) (slider.make (Num 0.1) (Num 5) (Num 0.1));
        parameter.make "beta" (Num 1) (Num 0.001) Infinity (Num 0.1) (slider.make (Num 0.1) (Num 3) (Num 0.1)) ]
  | Exponential =>
      [ parameter.make "lambda" (Num 1) (Num 0.001) Infinity (Num 0.1) (slider.make (Num 0.1) (Num 3) (Num 0.1)) ]
  | Uniform =>
      [ parameter.make "a" (Num 0) NegInfinity Infinity (Num 0.1) (slider.make (Num (-5)) (Num 5) (Num 0.1));
        parameter.make "b" (Num 1) NegInfinity Infinity (Num 0.1) (slider.make (Num (-5)) (Num 5) (Num 0.1)) ]
  | Lognormal =>
      [ parameter.make "mu" (Num 0) NegInfinity Infinity (Num 0.1) (slider.make (Num (-2)) (Num 2) (Num 0.1));
        parameter.make "sigma" (Num 1) (Num 0.001) Infinity (Num 0.1) (slider.make (Num 0.1) (Num 2) (Num 0.1)) ]
  | Chi2 =>
      [ parameter.make "k" (Num 1) (Num 0.001) Infinity (Num 0.1) (slider.make (Num 1) (Num 10) (Num 1)) ]
  | Student =>
      [ parameter.make "nu" (Num 1) (Num 0.001) Infinity (Num 0.1) (slider.make (Num 0.5) (Num 10) (Num 0.5)) ]
  | Binomial =>
      [ parameter.make "n" (Num 10) (Num 1) Infinity (Num 1) (slider.make (Num 1) (Num 50) (Num 1));
        parameter.make "p" (Num 0.5) (Num 0) (Num 1) (Num 0.01) (slider.make (Num 0) (Num 1) (Num 0.01)) ]
  | Poisson =>
      [ parameter.make "lambda" (Num 3) (Num 0.001) Infinity (Num 0.1) (slider.make (Num 0.1) (Num 20) (Num 0.1)) ]
  | Geometric =>
      [ parameter.make "p" (Num 0.3) (Num 0.001) (Num 1) (Num 0.001) (slider.make (Num 0.01) (Num 1) (Num 0.01)) ]
  | NegativeBinomial =>
      [ parameter.make "r" (Num 5) (Num 1) Infinity (Num 1) (slider.make (Num 1) (Num 20) (Num 1));
        parameter.make "p" (Num 0.3) (Num 0.001) (Num 1) (Num 0.001) (slider.make (Num 0.01) (Num 1) (Num 0.01)) ]
  | Bernoulli =>
      [ parameter.make "p" (Num 0.5) (Num 0) (Num 1) (Num 0.01) (slider.make (Num 0) (Num 1) (Num 0.01)) ]
  | DiscreteUniform =>
      [ parameter.make "lower" (Num 1) NegInfinity Infinity (Num 1) (slider.make (Num 0) (Num 10) (Num 1));
        parameter.make "upper" (Num 6) NegInfinity Infinity (Num 1) (slider.make (Num 1) (Num 20) (Num 1)) ]
  | Hypergeometric =>
      [ parameter.make "N" (Num 50) (Num 1) Infinity (Num 1) (slider.make (Num 10) (Num 100) (Num 1));
        parameter.make "K" (Num 20) (Num 0) Infinity (Num 1) (slider.make (Num 1) (Num 50) (Num 1));
        parameter.make "n" (Num 10) (Num 1) Infinity (Num 1) (slider.make (Num 1) (Num 30) (Num 1)) ]
  | BetaBinomial =>
      [ parameter.make "n" (Num 10) (Num 1) Infinity (Num 1) (slider.make (Num 1) (Num 50) (Num 1));
        parameter.make "alpha" (Num 2) (Num 0.001) Infinity (Num 0.1) (slider.make (Num 0.1) (Num 10) (Num 0.1));
        parameter.make "beta" (Num 2) (Num 0.001) Infinity (Num 0.1) (slider.make (Num 0.1) (Num 10) (Num 0.1)) ]
  | DiscreteWeibull =>
      [ parameter.make "q" (Num 0.5) (Num 0.001) (Num 0.999) (Num 0.01) (slider.make (Num 0.1) (Num 0.9) (Num 0.01));
        parameter.make "beta" (Num 1) (Num 0.1) Infinity (Num 0.1) (slider.make (Num 0.1) (Num 3) (Num 0.1)) ]
  | Cauchy =>
      [ parameter.make "x0" (Num 0) NegInfinity Infinity (Num 0.1) (slider.make (Num (-5)) (Num 5) (Num 0.1));
        parameter.make "gamma" (Num 1) (Num 0.001) Infinity (Num 0.1) (slider.make (Num 0.1) (Num 3) (Num 0.1)) ]
  | Laplace =>
      [ parameter.make "mu" (Num 0) NegInfinity Infinity (Num 0.1) (slider.make (Num (-5)) (Num 5) (Num 0.1));
        parameter.make "b" (Num 1) (Num 0.001) Infinity (Num 0.1) (slider.make (Num 0.1) (Num 3) (Num 0.1)) ]
  | Logistic =>
      [ parameter.make "mu" (Num 0) NegInfinity Infinity (Num 0.1) (slider.make (Num (-5)) (Num 5) (Num 0.1));
        parameter.make "s" (Num 1) (Num 0.001) Infinity (Num 0.1) (slider.make (Num 0.1) (Num 3) (Num 0.1)) ]
  | Gumbel =>
      [ parameter.make "mu" (Num 0) NegInfinity Infinity (Num 0.1) (slider.make (Num (-5)) (Num 5) (Num 0.1));
        parameter.make "beta" (Num 1) (Num 0.001) Infinity (Num 0.1) (slider.make (Num 0.1) (Num 3) (Num 0.1)) ]
  | Weibull =>
      [ parameter.make "alpha" (Num 2) (Num 0.001) Infinity (Num 0.1) (slider.make (Num 0.1) (Num 5) (Num 0.1));
        parameter.make "beta" (Num 1) (Num 0.001) Infinity (Num 0.1) (slider.make (Num 0.1) (Num 3) (Num 0.1)) ]
  | Pareto =>
      [ parameter.make "alpha" (Num 1) (Num 0.001) Infinity (Num 0.1) (slider.make (Num 0.1) (Num 5) (Num 0.1));
        parameter.make "m" (Num 1) (Num 0.001) Infinity (Num 0.1) (slider.make (Num 0.1) (Num 3) (Num 0.1)) ]
  | HalfNormal =>
      [ parameter.make "sigma" (Num 1) (Num 0.001) Infinity (Num 0.1) (slider.make (Num 0.1) (Num 3) (Num 0.1)) ]
  | HalfCauchy =>
      [ parameter.make "beta" (Num 1) (Num 0.001) Infinity (Num 0.1) (slider.make (Num 0.1) (Num 3) (Num 0.1)) ]
  | InverseGamma =>
      [ parameter.make "alpha" (Num 2) (Num 0.001) Infinity (Num 0.1) (slider.make (Num 0.1) (Num 5) (Num 0.1));
        parameter.make "beta" (Num 1) (Num 0.001) Infinity (Num 0.1) (slider.make (Num 0.1) (Num 3) (Num 0.1)) ]
  | Triangular =>
      [ parameter.make "lower" (Num 0) NegInfinity Infinity (Num 0.1) (slider.make (Num (-2)) (Num 2) (Num 0.1));
        parameter.make "c" (Num 0.5) NegInfinity Infinity (Num 0.1) (slider.make (Num (-1)) (Num 3) (Num 0.1));
        parameter.make "upper" (Num 1) NegInfinity Infinity (Num 0.1) (slider.make (Num 0) (Num 4) (Num 0.1)) ]
  | Kumaraswamy =>
      [ parameter.make "a" (Num 2) (Num 0.001) Infinity (Num 0.1) (slider.make (Num 0.1) (Num 5) (Num 0.1));
        parameter.make "b" (Num 2) (Num 0.001) Infinity (Num 0.1) (slider.make (Num 0.1) (Num 5) (Num 0.1)) ]
  | AsymmetricLaplace =>
      [ parameter.make "mu" (Num 0) NegInfinity Infinity (Num 0.1) (slider.make (Num (-5)) (Num 5) (Num 0.1));
        parameter.make "b" (Num 1) (Num 0.001) Infinity (Num 0.1) (slider.make (Num 0.1) (Num 3) (Num 0.1));
        parameter.make "kappa" (Num 1) (Num 0.001) Infinity (Num 0.1) (slider.make (Num 0.1) (Num 3) (Num 0.1)) ]
  | SkewNormal =>
      [ parameter.make "mu" (Num 0) NegInfinity Infinity (Num 0.1) (slider.make (Num (-5)) (Num 5) (Num 0.1));
        parameter.make "sigma" (Num 1) (Num 0.001) Infinity (Num 0.1) (slider.make (Num 0.1) (Num 3) (Num 0.1));
        parameter.make "alpha" (Num 0) NegInfinity Infinity (Num 0.1) (slider.make (Num (-5)) (Num 5) (Num 0.1)) ]
  | HalfStudentT =>
      [ parameter.make "nu" (Num 2) (Num 0.001) Infinity (Num 0.1) (slider.make (Num 0.5) (Num 10) (Num 0.5));
        parameter.make "sigma" (Num 1) (Num 0.001) Infinity (Num 0.1) (slider.make (Num 0.1) (Num 3) (Num 0.1)) ]
  | LogitNormal =>
      [ parameter.make "mu" (Num 0) NegInfinity Infinity (Num 0.1) (slider.make (Num (-3)) (Num 3) (Num 0.1));
        parameter.make "tau" (Num 1) (Num 0.001) Infinity (Num 0.1) (slider.make (Num 0.1) (Num 5) (Num 0.1)) ]
  | Wald =>
      [ parameter.make "mu" (Num 1) (Num 0.001) Infinity (Num 0.1) (slider.make (Num 0.1) (Num 3) (Num 0.1));
        parameter.make "lam" (Num 1) (Num 0.001) Infinity (Num 0.1) (slider.make (Num 0.1) (Num 5) (Num 0.1)) ]
  | Moyal =>
      [ parameter.make "mu" (Num 0) NegInfinity Infinity (Num 0.1) (slider.make (Num (-5)) (Num 5) (Num 0.1));
        parameter.make "sigma" (Num 1) (Num 0.001) Infinity (Num 0.1) (slider.make (Num 0.1) (Num 3) (Num 0.1)) ]
  | ExGaussian =>
      [ parameter.make "mu" (Num 0) NegInfinity Infinity (Num 0.1) (slider.make (Num (-2)) (Num 2) (Num 0.1));
        parameter.make "sigma" (Num 1) (Num 0.001) Infinity (Num 0.1) (slider.make (Num 0.1) (Num 3) (Num 0.1));
        parameter.make "lam" (Num 1) (Num 0.001) Infinity (Num 0.1) (slider.make (Num 0.1) (Num 3) (Num 0.1)) ]
  | VonMises =>
      [ parameter.make "mu" (Num 0) (- Math_PI)%num Math_PI (Num 0.1) (slider.make (- Math_PI)%num Math_PI (Num 0.1));
        parameter.make "kappa" (Num 1) (Num 0.001) Infinity (Num 0.1) (slider.make (Num 0.1) (Num 5) (Num 0.1)) ]
  | Rice =>
      [ parameter.make "nu" (Num 1) (Num 0) Infinity (Num 0.1) (slider.make (Num 0) (Num 3) (Num 0.1));
        parameter.make "sigma" (Num 1) (Num 0.001) Infinity (Num 0.1) (slider.make (Num 0.1) (Num 3) (Num 0.1)) ]
  | TruncatedNormal =>
      [ parameter.make "mu" (Num 0) NegInfinity Infinity (Num 0.1) (slider.make (Num (-3)) (Num 3) (Num 0.1));
        parameter.make "sigma" (Num 1) (Num 0.001) Infinity (Num 0.1) (slider.make (Num 0.1) (Num 3) (Num 0.1));
        parameter.make "lower" (Num (-2)) NegInfinity Infinity (Num 0.1) (slider.make (Num (-5)) (Num 0) (Num 0.1));
        parameter.make "upper" (Num 2) NegInfinity Infinity (Num 0.1) (slider.make (Num 0) (Num 5) (Num 0.1)) ]
  end.

End spec.

(** [Object.values(distributions)]: the entries in the order they are
    written. *)
Definition distributions : list dist :=
  [ Normal; Beta; Gamma; Exponential; Uniform; Lognormal; Chi2; Student;
    Binomial; Poisson; Geometric; NegativeBinomial; Bernoulli;
    DiscreteUniform; Hypergeometric; BetaBinomial; DiscreteWeibull;
    Cauchy; Laplace; Logistic; Gumbel; Weibull; Pareto; HalfNormal;
    HalfCauchy; InverseGamma; Triangular; Kumaraswamy; AsymmetricLaplace;
    SkewNormal; HalfStudentT; LogitNormal; Wald; Moyal; ExGaussian;
    VonMises; Rice; TruncatedNormal ].

Definition distributionCategories : obj.t (list string) :=
  [ ("Continuous",
     [ "normal"; "beta"; "gamma"; "exponential"; "uniform"; "lognormal";
       "chi2"; "student"; "cauchy"; "laplace"; "logistic"; "gumbel";
       "weibull"; "pareto"; "halfNormal"; "halfCauchy"; "inverseGamma";
       "triangular"; "kumaraswamy"; "asymmetricLaplace"; "skewNormal";
       "halfStudentT"; "logitNormal"; "wald"; "moyal"; "exGaussian";
       "vonMises"; "rice"; "truncatedNormal" ]);
    ("Discrete",
     [ "binomial"; "poisson"; "geometric"; "negativeBinomial"; "bernoulli";
       "discreteUniform"; "hypergeometric"; "betaBinomial";
       "discreteWeibull" ]) ]%string.

(** A call [pdf(...args)]: arguments beyond the evaluator's parameters are
    ignored, and a parameter without argument is [undefined], which the
    comparisons, the arithmetic and the Math functions of the evaluators
    treat as NaN. *)
Definition apply_pdf {M : MathLib} (d : dist) (fuel : nat) (args : list num) :
    option num :=
  pdfFunctions d fuel (firstn (arity d) (args ++ repeat NaN (arity d))).

(* ================================================================== *)
(** * distributionCatalog.js *)
(* ================================================================== *)

Module DistributionCatalog.

(** [{ ...dist, parameterDefaults }]. *)
Record distributionInfo : Type := {
  dist_spec : dist;
  parameterDefaults : obj.t num
}.

Definition extractDefaults (parameters : list parameter.t) : obj.t num :=
  fold_left
    (fun defaults p =>
       obj.set (parameter.name p) (parameter.default p) defaults)
    parameters [].

(** The Map [this.distributions] once the constructor has run
    [initializeDistributions]. *)
Definition initializeDistributions : obj.t distributionInfo :=
  fold_left
    (fun m dist =>
       obj.set (spec.name dist)
         {| dist_spec := dist;
            parameterDefaults := extractDefaults (spec.parameters dist) |} m)
    distributions [].

(** The entries of [getDistributionList], without the text fields. *)
Record listEntry : Type := {
  name : string;
  type : kind;
  category : string
}.

Definition getDistributionList : list listEntry :=
  map (fun info =>
         let dist := dist_spec info in
         {| name := spec.name dist;
            type := spec.type dist;
            category := spec.category dist |})
      (obj.values initializeDistributions).

Definition getDistributionInfo (name : string) : option distributionInfo :=
  obj.get name initializeDistributions.

Definition getParameterInfo (distributionName : string) : list parameter.t :=
  match obj.get distributionName initializeDistributions with
  | Some info => spec.parameters (dist_spec info)
  | None => []
  end.

Definition getParameterDefaults (distributionName : string) : obj.t num :=
  match obj.get distributionName initializeDistributions with
  | Some info => parameterDefaults info
  | None => []
  end.

(** [None] stands for [null]. *)
Definition getPDFFunction {M : MathLib} (distributionName : string) :
    option (nat -> list num -> option num) :=
  match obj.get distributionName initializeDistributions with
  | Some info => Some (apply_pdf (dist_spec info))
  | None => None
  end.

End DistributionCatalog.

(* ================================================================== *)
(** * usePlotData.js *)
(* ================================================================== *)

Module usePlotData.
Section Hook.
Context {M : MathLib}.
Local Open Scope num_scope.

(** The object [generatePDFData] returns, without the text fields. *)
Record plotData : Type := {
  x : list num;
  y : list num;
  type : kind;
  plotType : plotKind
}.

(** [isNaN(pdfValue) || !isFinite(pdfValue) ? 0 : pdfValue]. *)
Definition clean (pdfValue : num) : num :=
  if isNaN pdfValue || negb (isFinite pdfValue) then 0 else pdfValue.

(** The loop [for (let xi = minX; xi <= maxX; xi++)] of the discrete
    branch, entered at [xi]: the points pushed on [x] and [y].  [fuel]
    bounds the number of iterations, and is also the bound handed to the
    evaluator; [None] when a bound is reached. *)
Fixpoint discrete_loop (fuel : nat) (pdf : list num -> option num)
    (parameters : list num) (xi maxX : num) : option (list num * list num) :=
  if xi <=? maxX then
    match fuel with
    | O => None
    | S fuel' =>
        match pdf (xi :: parameters) with
        | Some pdfValue =>
            match discrete_loop fuel' pdf parameters (increment xi) maxX with
            | Some (xs, ys) => Some (xi :: xs, clean pdfValue :: ys)
            | None => None
            end
        | None => None
        end
    end
  else Some ([], []).

(** The loop [for (let i = 0; i <= numPoints; i++)] of the continuous
    branch. *)
Fixpoint continuous_loop (pdf : list num -> option num)
    (parameters : list num) (min step : num) (indices : list nat) :
    option (list num * list num) :=
  match indices with
  | [] => Some ([], [])
  | i :: indices' =>
      let xi := min + mathUtils.of_nat i * step in
      match pdf (xi :: parameters) with
      | Some pdfValue =>
          match continuous_loop pdf parameters min step indices' with
          | Some (xs, ys) => Some (xi :: xs, clean pdfValue :: ys)
          | None => None
          end
      | None => None
      end
  end.

(** [generatePDFData] for a distribution the catalog knows, so that [pdf]
    and [rangeCalculator] are present.  The outer [None] is a bound
    reached; the inner one is the [null] returned for an empty plot. *)
Definition generatePDFData (fuel : nat) (distributionInfo : dist)
    (effectiveParameters : obj.t num) : option (option plotData) :=
  let range := rangeCalculators distributionInfo (to_params effectiveParameters) in
  let pdf := apply_pdf distributionInfo fuel in
  let isDiscrete :=
    match spec.type distributionInfo with discrete => true | continuous => false end in
  let points :=
    if isDiscrete then
      let minX := Math_max 0 (Math_ceil (min range)) in
      let maxX := Math_floor (max range) in
      discrete_loop fuel pdf (obj.values effectiveParameters) minX maxX
    else
      let numPoints := 200%nat in
      let step := (max range - min range) / mathUtils.of_nat numPoints in
      continuous_loop pdf (obj.values effectiveParameters) (min range) step
        (seq 0 (S numPoints)) in
  match points with
  | None => None
  | Some (xs, ys) =>
      if (length xs =? 0)%nat || (length ys =? 0)%nat
         || negb (length xs =? length ys)%nat
      then Some None
      else Some (Some {| x := xs; y := ys;
                         type := spec.type distributionInfo;
                         plotType := spec.plotType distributionInfo |})
  end.

(** The effect of the hook: the value of the state [plotData] after it,
    from the value before.  [parameters] is [None] for a missing
    object. *)
Definition effect (fuel : nat) (plotData_ : option plotData)
    (distributionName : string) (parameters : option (obj.t num)) :
    option (option plotData) :=
  if decide (distributionName = ""%string) then Some plotData_
  else
    match DistributionCatalog.getDistributionInfo distributionName with
    | None => Some plotData_
    | Some info =>
        let distributionInfo := DistributionCatalog.dist_spec info in
        let missing :=
          match parameters with
          | None => true
          | Some o => (length (obj.keys o) =? 0)%nat
          end in
        if missing then
          let defaults := DistributionCatalog.getParameterDefaults distributionName in
          if (length (obj.keys defaults) =? 0)%nat then Some plotData_
          else generatePDFData fuel distributionInfo defaults
        else
          match parameters with
          | Some o => generatePDFData fuel distributionInfo o
          | None => Some plotData_
          end
    end.

End Hook.
End usePlotData.

(* ================================================================== *)
(** * The components *)
(* ================================================================== *)

(** ** RangeSlider.jsx *)

Module RangeSlider.
Section Component.
Local Open Scope num_scope.

Record props : Type := {
  value : num;
  min : num;
  max : num;
  step : num;
  domainMin : num;
  domainMax : num
}.

(** The three [useState] cells. *)
Record state : Type := {
  sliderMin : num;
  sliderMax : num;
  exactValue : num
}.

Definition initial (p : props) : state :=
  {| sliderMin := min p; sliderMax := max p; exactValue := value p |}.

(** The handlers take the number [parseFloat] read from the input and
    return the state after the event with the values handed to
    [onChange], in order. *)
Definition resetRange (p : props) (s : state) : state :=
  {| sliderMin := min p; sliderMax := max p; exactValue := exactValue s |}.

Definition handleSliderChange (p : props) (s : state) (newValue : num) :
    state * list num :=
  ({| sliderMin := sliderMin s; sliderMax := sliderMax s; exactValue := newValue |},
   [newValue]).

Definition handleExactValueChange (p : props) (s : state) (newValue : num) :
    state * list num :=
  if isNaN newValue then (s, [])
  else
    let constrainedValue := Math_max (domainMin p) (Math_min (domainMax p) newValue) in
    let sliderMin' :=
      if constrainedValue <? sliderMin s
      then Math_max (constrainedValue - Math_abs (constrainedValue * 0.1)) (domainMin p)
      else sliderMin s in
    let sliderMax' :=
      if constrainedValue >? sliderMax s
      then Math_min (constrainedValue + Math_abs (constrainedValue * 0.1)) (domainMax p)
      else sliderMax s in
    ({| sliderMin := sliderMin'; sliderMax := sliderMax'; exactValue := newValue |},
     [constrainedValue]).

Definition handleMinChange (p : props) (s : state) (newMin : num) : state :=
  if isNaN newMin then s
  else {| sliderMin := Math_max (domainMin p) newMin;
          sliderMax := sliderMax s; exactValue := exactValue s |}.

Definition handleMaxChange (p : props) (s : state) (newMax : num) : state :=
  if isNaN newMax then s
  else {| sliderMin := sliderMin s;
          sliderMax := Math_min (domainMax p) newMax; exactValue := exactValue s |}.

Definition handleExactValueBlur (p : props) (s : state) : state * list num :=
  let constrainedValue :=
    Math_max (domainMin p) (Math_min (domainMax p) (exactValue s)) in
  if constrainedValue !== exactValue s
  then ({| sliderMin := sliderMin s; sliderMax := sliderMax s;
           exactValue := constrainedValue |}, [constrainedValue])
  else (s, []).

(** What the render computes for the slider input. *)
Definition effectiveMin (s : state) : num := Math_min (sliderMin s) (sliderMax s).
Definition effectiveMax (s : state) : num := Math_max (sliderMin s) (sliderMax s).

Definition isInRange (p : props) (s : state) : bool :=
  (value p >=? effectiveMin s) && (value p <=? effectiveMax s).

Definition sliderValue (p : props) (s : state) : num :=
  if isInRange p s then value p
  else if value p <? effectiveMin s then effectiveMin s else effectiveMax s.

End Component.
End RangeSlider.

(** ** ParameterControl.jsx *)

Module ParameterControl.

(** The props handed to [RangeSlider]; [value] is [None] for [undefined].
    Every entry of the table has a [sliderRange], so its fallback is not
    reached. *)
Definition sliderProps (parameter : parameter.t) (value : option num) :
    RangeSlider.props :=
  let sliderRange := parameter.sliderRange parameter in
  let currentValue :=
    match value with Some v => v | None => parameter.default parameter end in
  {| RangeSlider.value := currentValue;
     RangeSlider.min := slider.min sliderRange;
     RangeSlider.max := slider.max sliderRange;
     RangeSlider.step := slider.step sliderRange;
     RangeSlider.domainMin := parameter.min parameter;
     RangeSlider.domainMax := parameter.max parameter |}.

End ParameterControl.

(** ** ParameterInputs.jsx and App.jsx *)

Module ParameterInputs.

(** [onChange({ ...values, [paramName]: value })]: the object handed to
    [onChange]. *)
Definition handleParameterChange (values : obj.t num) (paramName : string)
    (value : num) : obj.t num :=
  obj.set paramName value values.

End ParameterInputs.

Module App.

Record state : Type := {
  selectedDistribution : string;
  parameters : obj.t num
}.

Definition initial : state :=
  {| selectedDistribution := "normal"; parameters := [] |}.

Definition handleDistributionChange (s : state) (newDistribution : string) : state :=
  {| selectedDistribution := newDistribution;
     parameters := DistributionCatalog.getParameterDefaults newDistribution |}.

(** [setParameters], as [ParameterInputs] calls it. *)
Definition setParameters (s : state) (values : obj.t num) : state :=
  {| selectedDistribution := selectedDistribution s; parameters := values |}.

End App.

(** ** DistributionSelector.jsx *)

Module DistributionSelector.

(** The [reduce] that groups the list by category. *)
Definition groupedDistributions (distributions : list DistributionCatalog.listEntry) :
    obj.t (list DistributionCatalog.listEntry) :=
  fold_left
    (fun groups dist =>
       let category :=
         if decide (DistributionCatalog.category dist = ""%string)
         then "Other"%string else DistributionCatalog.category dist in
       match obj.get category groups with
       | None => obj.set category [dist] groups
       | Some group => obj.set category (group ++ [dist]) groups
       end)
    distributions [].

Definition selectedDist (distributions : list DistributionCatalog.listEntry)
    (selected : string) : option DistributionCatalog.listEntry :=
  find (fun d => bool_decide (DistributionCatalog.name d = selected)) distributions.

End DistributionSelector.

(** ** PlotViewer.jsx *)

Module PlotViewer.
Section Component.
Local Open Scope num_scope.

(** [Math.max(...xs)] and [Math.min(...xs)]. *)
Definition Math_max_of (xs : list num) : num := fold_left Math_max xs NegInfinity.
Definition Math_min_of (xs : list num) : num := fold_left Math_min xs Infinity.

(** The tick spacing of the x axis of a bar plot. *)
Definition dtick (xs : list num) : num :=
  let range := Math_max_of xs - Math_min_of xs in
  if range >? 100 then Math_ceil (range / 20)
  else if range >? 50 then Math_ceil (range / 25)
  else if range >? 20 then Math_ceil (range / 20)
  else 1.

End Component.
End PlotViewer.

(* ================================================================== *)
(** * Notions used in the statements about the catalog and the components *)
(* ================================================================== *)

(** The parameter objects [App] can hold while the distribution [d] is
    selected: the defaults set by [handleDistributionChange], then any
    number of changes of a parameter of [d] through [ParameterInputs]. *)
Inductive reachable (d : dist) : obj.t num -> Prop :=
| reach_select (s : App.state) :
    reachable d (App.parameters (App.handleDistributionChange s (spec.name d)))
| reach_change (values : obj.t num) (p : parameter.t) (v : num) :
    reachable d values ->
    In p (DistributionCatalog.getParameterInfo (spec.name d)) ->
    reachable d (ParameterInputs.handleParameterChange values (parameter.name p) v).

(** The entry of [parameterDefaults] that a parameter gives. *)
Definition name_default (p : parameter.t) : string * num :=
  (parameter.name p, parameter.default p).

(** The slider with another [value] prop. *)
Definition with_value (p : RangeSlider.props) (v : num) : RangeSlider.props :=
  {| RangeSlider.value := v;
     RangeSlider.min := RangeSlider.min p;
     RangeSlider.max := RangeSlider.max p;
     RangeSlider.step := RangeSlider.step p;
     RangeSlider.domainMin := RangeSlider.domainMin p;
     RangeSlider.domainMax := RangeSlider.domainMax p |}.

(** The lower bound of the slider is not below the domain of the
    parameter, and the upper bound is not above it.  (Nothing keeps the
    lower bound below [domainMax], nor the upper bound above
    [domainMin].) *)
Definition clamped_to_domain (p : RangeSlider.props) (s : RangeSlider.state) : bool :=
  ((RangeSlider.domainMin p <=? RangeSlider.sliderMin s)
   && (RangeSlider.sliderMax s <=? RangeSlider.domainMax p))%num.

(** The distributions with a constraint that relates two parameters. *)
Definition cross_constrained (d : dist) : bool :=
  match d with
  | Uniform | DiscreteUniform | Hypergeometric | Triangular | TruncatedNormal => true
  | _ => false
  end.

(** The clamp of [handleExactValueChange] for the parameter [p]. *)
Definition constrain (p : parameter.t) (v : num) : num :=
  Math_max (parameter.min p) (Math_min (parameter.max p) v).

(** The key under which [groupedDistributions] files an entry. *)
Definition category_of (e : DistributionCatalog.listEntry) : string :=
  if decide (DistributionCatalog.category e = ""%string)
  then "Other"%string else DistributionCatalog.category e.

(** The consecutive integers [lo, lo + 1, ...], [n] of them. *)
Definition integers_from (lo : Z) (n : nat) : list num :=
  map (fun i => Num (inject_Z (lo + Z.of_nat i))) (seq 0 n).

(** The props [ParameterControl] hands to the slider of the parameter
    [sigma] of the Normal distribution while no value is set, and the
    parameters of [App] once [sigma] has been changed to [3]. *)
Definition sigma_props : RangeSlider.props :=
  ParameterControl.sliderProps
    (parameter.make "sigma" (Num 1) (Num 0.001) Infinity (Num 0.1)
       (slider.make (Num 0.1) (Num 3) (Num 0.1)))
    None.

Definition sigma_changed : obj.t num :=
  ParameterInputs.handleParameterChange
    (App.parameters (App.handleDistributionChange App.initial "normal"))
    "sigma" (Num 3).

(* ================================================================== *)
(** * Notions used in the statements about the kernel and the evaluators *)
(* ================================================================== *)

Section KernelTerms.
Context {M : MathLib}.
Local Open Scope num_scope.

(** The term [erfZ] of [erfc], from [z = |u|]. *)
Definition erfZ (z : num) : num :=
  let p := 0.3275911 in
  let a1 := 0.254829592 in
  let a2 := -0.284496736 in
  let a3 := 1.421413741 in
  let a4 := -1.453152027 in
  let a5 := 1.061405429 in
  let t := 1 / (1 + p * z) in
  let poly := (((((a5 * t) + a4) * t) + a3) * t + a2) * t + a1 in
  1 - poly * Math_exp (- z * z).

End KernelTerms.

(** [v] is not a negative number: it is NaN, or it is [>= 0]. *)
Definition not_negative (v : num) : Prop := (v <? 0)%num = false.

(** The evaluation point (the first argument) lies outside the support
    of the distribution, as the guard of its evaluator tests it. *)
Definition outside_support (d : dist) (args : list num) : bool :=
  (match d, args with
   | Beta, [x; _; _] => (x <? 0) || (x >? 1)
   | Gamma, [x; _; _] => x <? 0
   | Exponential, [x; _] => x <? 0
   | Uniform, [x; a; b] => (x <? a) || (x >? b)
   | Lognormal, [x; _; _] => x <=? 0
   | Chi2, [x; _] => x <? 0
   | Binomial, [k; n; _] => (k <? 0) || (k >? n)
   | Poisson, [k; _] => k <? 0
   | Geometric, [k; _] => k <? 1
   | NegativeBinomial, [k; r; _] => k <? r
   | Bernoulli, [x; _] => (x !== 0) && (x !== 1)
   | DiscreteUniform, [x; lower; upper] => (x <? lower) || (x >? upper)
   | Hypergeometric, [x; N; K; n] =>
       (x <? 0) || (x >? n) || (x >? K) || (n - x >? N - K)
   | BetaBinomial, [x; n; _; _] => (x <? 0) || (x >? n)
   | DiscreteWeibull, [x; _; _] => x <? 0
   | Weibull, [x; _; _] => x <? 0
   | Pareto, [x; _; m] => x <? m
   | HalfNormal, [x; _] => x <? 0
   | HalfCauchy, [x; _] => x <? 0
   | InverseGamma, [x; _; _] => x <=? 0
   | Triangular, [x; lower; _; upper] => (x <? lower) || (x >? upper)
   | Kumaraswamy, [x; _; _] => (x <? 0) || (x >? 1)
   | HalfStudentT, [x; _; _] => x <? 0
   | LogitNormal, [x; _; _] => (x <=? 0) || (x >=? 1)
   | Wald, [x; _; _] => x <=? 0
   | VonMises, [x; _; _] => (x <? - Math_PI) || (x >? Math_PI)
   | Rice, [x; _; _] => x <? 0
   | TruncatedNormal, [x; _; _; lower; upper] => (x <? lower) || (x >? upper)
   | _, _ => false
   end)%num.

(** The evaluator of [d] returns [0] at its first tests: a parameter
    violates its constraint, the evaluation point lies outside the
    support, or it is not an integer where the distribution is discrete. *)
Definition rejects (d : dist) (args : list num) : bool :=
  violates d args || outside_support d args
  || match spec.type d, args with
     | discrete, x :: _ => negb (Number_isInteger x)
     | _, _ => false
     end.

(** The evaluators in which a NaN argument that passes the first tests
    can be lost before the result. *)
Definition swallows_NaN (d : dist) : bool :=
  match d with
  | Beta | Uniform | Lognormal | Chi2 | Binomial | DiscreteWeibull | Kumaraswamy =>
      true
  | _ => false
  end.

(** One of the arguments is NaN. *)
Definition has_NaN (args : list num) : bool := existsb is_nan args.


(* ================================================================== *)
(** * Facts about numbers *)
(* ================================================================== *)

Section NumFacts.
Local Open Scope num_scope.

Lemma nlt_Num (a b : Q) : (Num a <? Num b) = true <-> (a < b)%Q.
Proof.
  unfold nlt, ncmp. rewrite Qlt_alt. destruct (a ?= b)%Q; split; congruence.
Qed.

Lemma nle_Num (a b : Q) : (Num a <=? Num b) = true <-> (a <= b)%Q.
Proof.
  unfold nle, ncmp. rewrite Qle_alt. destruct (a ?= b)%Q; split; congruence.
Qed.

Lemma strict_eq_Num (a b : Q) : (Num a === Num b) = true <-> (a == b)%Q.
Proof.
  unfold strict_eq, ncmp. rewrite Qeq_alt. destruct (a ?= b)%Q; split; congruence.
Qed.

Lemma nlt_Num_false (a b : Q) : (Num a <? Num b) = false <-> (b <= a)%Q.
Proof.
  rewrite <- not_true_iff_false, nlt_Num. split; [apply Qnot_lt_le | apply Qle_not_lt].
Qed.

Lemma nle_Num_false (a b : Q) : (Num a <=? Num b) = false <-> (b < a)%Q.
Proof.
  rewrite <- not_true_iff_false, nle_Num. split; [apply Qnot_le_lt | apply Qlt_not_le].
Qed.

Lemma strict_eq_Num_false (a b : Q) : (Num a === Num b) = false <-> ~ (a == b)%Q.
Proof. rewrite <- not_true_iff_false, strict_eq_Num. reflexivity. Qed.

(** NaN is contagious. *)
Lemma nadd_NaN_r (x : num) : x + NaN = NaN.
Proof. destruct x; reflexivity. Qed.

Lemma nsub_NaN_r (x : num) : x - NaN = NaN.
Proof. destruct x; reflexivity. Qed.

Lemma nmul_NaN_r (x : num) : x * NaN = NaN.
Proof. destruct x; reflexivity. Qed.

Lemma ndiv_NaN_r (x : num) : x / NaN = NaN.
Proof. destruct x; reflexivity. Qed.

(** Addition and multiplication commute. *)
Lemma nadd_comm (x y : num) : x + y = y + x.
Proof.
  destruct x, y; try reflexivity. unfold nadd, fin. f_equal.
  apply Qred_complete, Qplus_comm.
Qed.

Lemma nmul_comm (x y : num) : x * y = y * x.
Proof.
  destruct x, y; try reflexivity. unfold nmul, fin. f_equal.
  apply Qred_complete, Qmult_comm.
Qed.

(** Order facts used to read the guards. *)
Lemma nlt_nge (x y : num) : (x >=? y) = true -> (x <? y) = false.
Proof.
  unfold nge, nle, nlt. destruct x, y; simpl; try congruence.
  rewrite <- (Qcompare_antisym q0 q). destruct (q0 ?= q)%Q; simpl; congruence.
Qed.

Lemma nle_ngt (x y : num) : (x >? y) = true -> (x <=? y) = false.
Proof.
  unfold ngt, nle, nlt. destruct x, y; simpl; try congruence.
  rewrite <- (Qcompare_antisym q0 q). destruct (q0 ?= q)%Q; simpl; congruence.
Qed.

End NumFacts.

(** Rounding leaves the integers up to [2^53] as they are. *)
Section Binary64Facts.

(** An integer is in lowest terms. *)
Lemma Qred_inject_Z (z : Z) : Qred (inject_Z z) = inject_Z z.
Proof.
  unfold Qred, inject_Z.
  pose proof (Z.ggcd_gcd z 1) as Hg.
  pose proof (Z.ggcd_correct_divisors z 1) as Hd.
  destruct (Z.ggcd z 1) as [g [aa bb]]. simpl in *.
  rewrite Z.gcd_1_r in Hg. subst g. destruct Hd as [Ha Hb].
  rewrite Z.mul_1_l in Ha, Hb. subst aa bb. reflexivity.
Qed.

Lemma two_power (l : Z) : (0 <= l)%Z -> 2 ^ l == inject_Z (2 ^ l).
Proof. intros H. symmetry. apply (Zpower_Qpower 2). exact H. Qed.

Lemma two_power_pos (l : Z) : 0 < 2 ^ l.
Proof. apply Qpower_0_lt. reflexivity. Qed.

Lemma ilog2_integer (n : Z) : (0 < n)%Z -> binary64.ilog2 (inject_Z n) = Z.log2 n.
Proof.
  intros H. unfold binary64.ilog2. cbn [Qnum Qden inject_Z].
  change (Z.log2 1) with 0%Z. rewrite Z.sub_0_r.
  replace (Qle_bool (2 ^ Z.log2 n) (inject_Z n)) with true; [reflexivity|].
  symmetry. apply Qle_bool_iff. rewrite two_power by apply Z.log2_nonneg.
  rewrite <- Zle_Qle. apply Z.log2_spec. exact H.
Qed.

Lemma nearest_even_integer (x : Q) (m : Z) :
  x == inject_Z m -> binary64.nearest_even x = m.
Proof.
  intros E. unfold binary64.nearest_even.
  assert (F : Qfloor x = m) by (rewrite E; apply Qfloor_Z).
  rewrite F.
  assert (C : Qcompare (x - inject_Z m) (1 # 2) = Lt).
  { apply Qlt_alt. rewrite E. unfold Qminus. rewrite Qplus_opp_r. reflexivity. }
  rewrite C. reflexivity.
Qed.

(** Every integer from [1] to [2^53] is a binary64 number. *)
Lemma nearest_integer (n : Z) :
  (0 < n <= 2 ^ 53)%Z -> binary64.nearest (inject_Z n) == inject_Z n.
Proof.
  intros [H0 H1]. unfold binary64.nearest.
  destruct (Qeq_bool (inject_Z n) 0) eqn:Z0.
  { apply Qeq_bool_iff in Z0. unfold Qeq in Z0. simpl in Z0. lia. }
  unfold binary64.ulp_exponent.
  replace (Qabs (inject_Z n)) with (inject_Z n)
    by (unfold Qabs, inject_Z; rewrite Z.abs_eq by lia; reflexivity).
  rewrite ilog2_integer by exact H0.
  assert (L : (0 <= Z.log2 n <= 53)%Z).
  { split; [apply Z.log2_nonneg|].
    rewrite <- (Z.log2_pow2 53) by lia. apply Z.log2_le_mono. exact H1. }
  rewrite Z.max_l by lia.
  destruct (Z.eq_dec (Z.log2 n) 53%Z) as [E|E].
  - assert (n = 2 ^ 53)%Z.
    { pose proof (Z.log2_spec n H0) as [S _]. rewrite E in S. lia. }
    subst n. rewrite E. vm_compute. reflexivity.
  - set (k := (52 - Z.log2 n)%Z). assert (Hk : (0 <= k)%Z) by (unfold k; lia).
    replace (Z.log2 n - 52)%Z with (- k)%Z by (unfold k; lia).
    rewrite (nearest_even_integer _ (n * 2 ^ k)).
    + rewrite Qpower_opp, inject_Z_mult, <- two_power by exact Hk.
      field. pose proof (two_power_pos k). lra.
    + rewrite Qpower_opp, inject_Z_mult, <- two_power by exact Hk.
      field. pose proof (two_power_pos k). lra.
Qed.

Lemma round_integer (n : Z) :
  (0 <= n <= 2 ^ 53)%Z -> binary64.round (Num (inject_Z n)) = Num (inject_Z n).
Proof.
  intros [H0 H1]. destruct (Z.eq_dec n 0%Z) as [->|N]; [reflexivity|].
  unfold binary64.round. cbv zeta.
  pose proof (nearest_integer n ltac:(lia)) as E.
  assert (B : inject_Z n < 2 ^ 1024).
  { apply Qle_lt_trans with (inject_Z (2 ^ 53)); [rewrite <- Zle_Qle; exact H1|].
    reflexivity. }
  assert (P : 0 < inject_Z n) by (change 0 with (inject_Z 0); rewrite <- Zlt_Qlt; lia).
  replace (Qle_bool (2 ^ 1024) (binary64.nearest (inject_Z n))) with false.
  2:{ symmetry. apply not_true_is_false. intros C. apply Qle_bool_iff in C.
      rewrite E in C. lra. }
  replace (Qle_bool (binary64.nearest (inject_Z n)) (- 2 ^ 1024)) with false.
  2:{ symmetry. apply not_true_is_false. intros C. apply Qle_bool_iff in C.
      rewrite E in C. assert (0 < 2 ^ 1024) by reflexivity. lra. }
  unfold fin. rewrite (Qred_complete _ _ E). rewrite Qred_inject_Z. reflexivity.
Qed.

Lemma nearest_even_nonneg (x : Q) : 0 <= x -> (0 <= binary64.nearest_even x)%Z.
Proof.
  intros H. unfold binary64.nearest_even.
  assert (F : (0 <= Qfloor x)%Z).
  { change 0%Z with (Qfloor 0). apply Qfloor_resp_le. exact H. }
  destruct (Qcompare (x - inject_Z (Qfloor x)) (1 # 2)); [|lia|lia].
  destruct (Z.even (Qfloor x)); lia.
Qed.

(** Rounding keeps the sign. *)
Lemma nearest_nonneg (q : Q) : 0 <= q -> 0 <= binary64.nearest q.
Proof.
  intros H. unfold binary64.nearest. destruct (Qeq_bool q 0); [lra|].
  set (e := binary64.ulp_exponent q). pose proof (two_power_pos e) as P.
  assert (X : 0 <= q / 2 ^ e) by (apply Qle_shift_div_l; lra).
  pose proof (nearest_even_nonneg _ X) as N. rewrite Zle_Qle in N.
  change (inject_Z 0) with 0 in N. nra.
Qed.

Local Open Scope num_scope.

Lemma round_not_negative (x : num) :
  (x <? 0) = false -> (binary64.round x <? 0) = false.
Proof.
  destruct x as [| | |q]; try (intros; assumption). intros H.
  apply nlt_Num_false in H. pose proof (nearest_nonneg q H) as N.
  unfold binary64.round. cbv zeta.
  destruct (Qle_bool (2 ^ 1024) (binary64.nearest q)); [reflexivity|].
  destruct (Qle_bool (binary64.nearest q) (- 2 ^ 1024)) eqn:C.
  - apply Qle_bool_iff in C. assert (0 < 2 ^ 1024)%Q by reflexivity. lra.
  - unfold fin. apply nlt_Num_false. rewrite Qred_correct. exact N.
Qed.

(** Below [2^53] the step of an integer counter is exact. *)
Lemma increment_exact (z : Z) :
  (0 <= z < 2 ^ 53)%Z ->
  increment (Num (inject_Z z)) = Num (inject_Z (z + 1)).
Proof.
  intros H. unfold increment, binary64.add. cbn [nadd]. unfold fin.
  rewrite (Qred_complete (inject_Z z + 1) (inject_Z (z + 1)))
    by (rewrite inject_Z_plus; reflexivity).
  rewrite Qred_inject_Z. apply round_integer. lia.
Qed.

(** At [2^53] the counter stays where it is. *)
Lemma increment_stuck :
  increment (Num (inject_Z (2 ^ 53))) = Num (inject_Z (2 ^ 53)).
Proof. vm_compute. reflexivity. Qed.

End Binary64Facts.

(** The series satisfy the order facts of [MathLib]. *)
Section SeriesLaws.

Lemma series_exp_pos (q : Q) : 0 < series.exp q.
Proof.
  unfold series.exp. destruct (Qle_bool 0 q) eqn:E.
  - apply Qle_bool_iff in E. nra.
  - apply Qinv_lt_0_compat. nra.
Qed.

Lemma series_exp_ge1 (q : Q) : 0 <= q -> 1 <= series.exp q.
Proof.
  intros H. unfold series.exp. apply Qle_bool_iff in H. rewrite H.
  apply Qle_bool_iff in H. nra.
Qed.

Lemma series_exp_gt1 (q : Q) : 0 < q -> 1 < series.exp q.
Proof.
  intros H. unfold series.exp.
  assert (E : Qle_bool 0 q = true) by (apply Qle_bool_iff; lra).
  rewrite E. nra.
Qed.

Lemma series_log_neg (q : Q) : 0 < q -> q < 1 -> series.log q < 0.
Proof.
  intros H0 H1. unfold series.log.
  assert (Hi : 0 < / (q + 1)) by (apply Qinv_lt_0_compat; lra).
  nra.
Qed.

Lemma series_log_pos (q : Q) : 1 < q -> 0 < series.log q.
Proof.
  intros H1. unfold series.log.
  assert (Hi : 0 < / (q + 1)) by (apply Qinv_lt_0_compat; lra).
  nra.
Qed.

Lemma series_sqrt_pos (q : Q) : 0 < q -> 0 < series.sqrt q.
Proof. intros H. unfold series.sqrt. lra. Qed.

Lemma series_sqrt_mono (p q : Q) :
  0 < p -> p <= q -> series.sqrt p <= series.sqrt q.
Proof. intros H0 H. unfold series.sqrt. lra. Qed.

Lemma series_pow_pos (b e : Q) : 0 < b -> 0 < series.pow b e.
Proof. intros _. apply series_exp_pos. Qed.

Lemma series_pow_gt1 (b e : Q) : 1 < b -> 0 < e -> 1 < series.pow b e.
Proof.
  intros Hb He. apply series_exp_gt1.
  pose proof (series_log_pos b Hb). nra.
Qed.

End SeriesLaws.

Definition series_math : MathLib :=
  {| exp_approx := series.exp;
     log_approx := series.log;
     sqrt_approx := series.sqrt;
     sin_approx := series.sin;
     cos_approx := series.cos;
     pow_approx := series.pow;
     exp_approx_nonneg := fun q => Qlt_le_weak _ _ (series_exp_pos q);
     exp_approx_ge1 := series_exp_ge1;
     log_approx_neg := series_log_neg;
     sqrt_approx_pos := series_sqrt_pos;
     sqrt_approx_mono := series_sqrt_mono;
     pow_approx_nonneg := fun b e H => Qlt_le_weak _ _ (series_pow_pos b e H);
     pow_approx_ge1 := fun b e Hb He => Qlt_le_weak _ _ (series_pow_gt1 b e Hb He) |}.

(** The tabulated functions satisfy them too. *)
Section TableLaws.

Lemma table_exp_nonneg (q : Q) : 0 <= table.exp q.
Proof.
  unfold table.exp. destruct (Qeq_bool q (-10.5)); [discriminate|].
  destruct (Qle_bool (-1.496) q && Qle_bool q (-1.495)); [discriminate|].
  apply Qlt_le_weak, series_exp_pos.
Qed.

Lemma table_exp_ge1 (q : Q) : 0 <= q -> 1 <= table.exp q.
Proof.
  intros H. unfold table.exp.
  destruct (Qeq_bool q (-10.5)) eqn:E; [apply Qeq_bool_iff in E; lra|].
  destruct (Qle_bool (-1.496) q && Qle_bool q (-1.495)) eqn:B.
  - apply andb_true_iff in B. destruct B as [_ B]. apply Qle_bool_iff in B. lra.
  - apply series_exp_ge1, H.
Qed.

Lemma table_log_neg (q : Q) : 0 < q -> q < 1 -> table.log q < 0.
Proof.
  intros H0 H1. unfold table.log.
  destruct (Qeq_bool q 3) eqn:E; [apply Qeq_bool_iff in E; lra|].
  destruct (Qle_bool 5.9 q && Qle_bool q 6.1) eqn:B.
  - apply andb_true_iff in B. destruct B as [B _]. apply Qle_bool_iff in B. lra.
  - apply series_log_neg; assumption.
Qed.

Lemma table_sqrt_pos (q : Q) : 0 < q -> 0 < table.sqrt q.
Proof. intros H. unfold table.sqrt. lra. Qed.

Lemma table_sqrt_mono (p q : Q) : 0 < p -> p <= q -> table.sqrt p <= table.sqrt q.
Proof. intros _ H. unfold table.sqrt. lra. Qed.

Lemma table_pow_nonneg (b e : Q) : 0 < b -> 0 <= table.pow b e.
Proof.
  intros H. unfold table.pow.
  destruct (Qeq_bool b 10.5 && Qeq_bool e 3.5); [discriminate|].
  apply Qlt_le_weak, series_pow_pos, H.
Qed.

Lemma table_pow_ge1 (b e : Q) : 1 < b -> 0 < e -> 1 <= table.pow b e.
Proof.
  intros Hb He. unfold table.pow.
  destruct (Qeq_bool b 10.5 && Qeq_bool e 3.5); [discriminate|].
  apply Qlt_le_weak, series_pow_gt1; assumption.
Qed.

End TableLaws.

Definition table_math : MathLib :=
  {| exp_approx := table.exp;
     log_approx := table.log;
     sqrt_approx := table.sqrt;
     sin_approx := series.sin;
     cos_approx := series.cos;
     pow_approx := table.pow;
     exp_approx_nonneg := table_exp_nonneg;
     exp_approx_ge1 := table_exp_ge1;
     log_approx_neg := table_log_neg;
     sqrt_approx_pos := table_sqrt_pos;
     sqrt_approx_mono := table_sqrt_mono;
     pow_approx_nonneg := table_pow_nonneg;
     pow_approx_ge1 := table_pow_ge1 |}.

(* ================================================================== *)
(** * The kernel *)
(* ================================================================== *)

Section KernelFacts.
Context {M : MathLib}.
Local Open Scope num_scope.

(** The argument of the reflected call is never below [0.5] again. *)
Lemma reflected_argument (z : num) :
  (z <? 0.5) = true -> (1 - z <? 0.5) = false.
Proof.
  destruct z as [| | |q]; try discriminate; try reflexivity.
  intros H. apply nlt_Num in H.
  unfold nsub, nneg, nadd, fin. apply nlt_Num_false.
  rewrite !Qred_correct. lra.
Qed.

Lemma gamma_rec_direct (fuel : nat) (z : num) :
  (z <? 0.5) = false -> mathUtils.gamma_rec (S fuel) z = Some (mathUtils.lanczos z).
Proof. intros H. simpl. rewrite H. reflexivity. Qed.

Lemma gamma_rec_reflect (fuel : nat) (z : num) :
  (z <? 0.5) = true ->
  mathUtils.gamma_rec (S (S fuel)) z =
    Some (Math_PI / (Math_sin (Math_PI * z) * mathUtils.lanczos (1 - z))).
Proof.
  intros H. cbn [mathUtils.gamma_rec]. rewrite H.
  rewrite (reflected_argument z H). reflexivity.
Qed.

(** Any fuel from two on gives the value of [gamma]. *)
Lemma gamma_rec_enough (fuel : nat) (z : num) :
  mathUtils.gamma_rec (S (S fuel)) z = Some (mathUtils.gamma z).
Proof.
  unfold mathUtils.gamma. destruct (z <? 0.5) eqn:H.
  - rewrite !gamma_rec_reflect by exact H. reflexivity.
  - rewrite !gamma_rec_direct by exact H. reflexivity.
Qed.

(** The recursive equation of the source holds for [gamma]. *)
Lemma gamma_unfold (z : num) :
  mathUtils.gamma z =
    if z <? 0.5
    then Math_PI / (Math_sin (Math_PI * z) * mathUtils.gamma (1 - z))
    else mathUtils.lanczos z.
Proof.
  unfold mathUtils.gamma at 1. destruct (z <? 0.5) eqn:H.
  - rewrite (gamma_rec_reflect 0 z H).
    unfold mathUtils.gamma.
    rewrite (gamma_rec_direct 1 (1 - z) (reflected_argument z H)). reflexivity.
  - rewrite (gamma_rec_direct 1 z H). reflexivity.
Qed.

(** C9.  [gamma] terminates on every input.  Whatever [z] is, a call depth
    of two is enough and any larger bound gives the same value.  When
    [z < 0.5] the reflection branch makes one recursive call (a depth of
    one does not suffice), its argument [1 - z] is not below [0.5], and so
    the inner call returns without recursing; when [z < 0.5] fails
    (including for NaN) there is no recursive call at all. *)
Theorem gamma_terminates_depth_one (z : num) :
  (forall fuel, (2 <= fuel)%nat ->
     mathUtils.gamma_rec fuel z = Some (mathUtils.gamma z))
  /\ ((z <? 0.5) = true ->
        mathUtils.gamma_rec 1 z = None
        /\ (1 - z <? 0.5) = false
        /\ mathUtils.gamma_rec 1 (1 - z) = Some (mathUtils.lanczos (1 - z))
        /\ mathUtils.gamma z =
             Math_PI / (Math_sin (Math_PI * z) * mathUtils.lanczos (1 - z)))
  /\ ((z <? 0.5) = false ->
        mathUtils.gamma_rec 1 z = Some (mathUtils.gamma z)
        /\ mathUtils.gamma z = mathUtils.lanczos z).
Proof.
  split; [|split].
  - intros [|[|fuel]] Hf; try lia. apply gamma_rec_enough.
  - intros H. pose proof (reflected_argument z H) as H'.
    repeat split.
    + simpl. rewrite H. reflexivity.
    + exact H'.
    + apply gamma_rec_direct, H'.
    + unfold mathUtils.gamma. rewrite (gamma_rec_reflect 0 z H). reflexivity.
  - intros H.
    assert (E : mathUtils.gamma z = mathUtils.lanczos z).
    { unfold mathUtils.gamma. rewrite (gamma_rec_direct 1 z H). reflexivity. }
    split; [|exact E]. rewrite E. apply gamma_rec_direct, H.
Qed.

(** The branch test of [beta] does not depend on the order of the
    arguments. *)
Lemma beta_branch_symmetric (a b : num) :
  ((a >? 50) || (b >? 50) || (a + b >? 50))
  = ((b >? 50) || (a >? 50) || (b + a >? 50)).
Proof.
  rewrite (nadd_comm b a). destruct (a >? 50), (b >? 50); reflexivity.
Qed.

(** C8.  The Beta function of the kernel is symmetric, [beta a b = beta b a]:
    the domain test and the branch test give the same answer for [(a, b)]
    and [(b, a)], and both the log-space formula and the direct formula are
    unchanged by the swap. *)
Theorem beta_symmetric (a b : num) :
  mathUtils.beta a b = mathUtils.beta b a
  /\ ((a >? 50) || (b >? 50) || (a + b >? 50))
     = ((b >? 50) || (a >? 50) || (b + a >? 50)).
Proof.
  split; [|apply beta_branch_symmetric].
  unfold mathUtils.beta.
  rewrite (orb_comm (a <=? 0) (b <=? 0)).
  rewrite (beta_branch_symmetric a b).
  rewrite (nadd_comm a b).
  rewrite (nadd_comm (mathUtils.logGamma a) (mathUtils.logGamma b)).
  rewrite (nmul_comm (mathUtils.gamma a) (mathUtils.gamma b)).
  reflexivity.
Qed.

End KernelFacts.

(* ================================================================== *)
(** * Evaluators *)
(* ================================================================== *)

(** An inequality between two explicit rationals. *)
Ltac Qcompute := vm_compute; let H := fresh in intro H; discriminate H.

Section PoissonFacts.
Context {M : MathLib}.
Local Open Scope num_scope.

Lemma within_mul (a b : num) (a1 a2 b1 b2 : Q) :
  (0 <= a1)%Q -> (0 <= b1)%Q -> within a a1 a2 -> within b b1 b2 ->
  within (a * b) (a1 * b1) (a2 * b2).
Proof.
  intros Ha Hb (x & -> & Hx) (y & -> & Hy).
  exists (Qred (x * y)). split; [reflexivity|]. rewrite Qred_correct. nra.
Qed.

Lemma within_weaken (v : num) (lo hi lo' hi' : Q) :
  within v lo hi -> (lo' <= lo)%Q -> (hi <= hi')%Q -> within v lo' hi'.
Proof. intros (q & -> & H) L U. exists q. split; [reflexivity | lra]. Qed.

(** The sum of the Lanczos series at [z = 3]. *)
Lemma lanczos_4 :
  exists X : Q,
    (23.17345716 <= X <= 23.17345717)%Q
    /\ mathUtils.lanczos 4
       = Math_sqrt (2 * Math_PI) * Math_pow (Num 3 + 7 + 0.5) (Num 3 + 0.5)
         * Math_exp (- (Num 3 + 7 + 0.5)) * Num X.
Proof.
  unfold mathUtils.lanczos. cbv zeta.
  change (Num 4 - 1) with (Num 3).
  match goal with
  | |- context [fold_left ?f ?l ?a] =>
      let v := eval vm_compute in (fold_left f l a) in
      change (fold_left f l a) with v
  end.
  eexists. split; [|reflexivity]. split; Qcompute.
Qed.

Lemma gamma_4 :
  accurate_for_poisson_3_3 -> within (mathUtils.gamma 4) 5.999999 6.000001.
Proof.
  intros (S & P & E & _). 
  unfold mathUtils.gamma. rewrite gamma_rec_direct by reflexivity.
  destruct lanczos_4 as (X & HX & ->).
  assert (W : within (Num X) 23.17345716 23.17345717) by (exists X; split; [reflexivity | exact HX]).
  pose proof (fun A B => within_mul _ _ _ _ _ _ A B S P) as G.
  specialize (G ltac:(Qcompute) ltac:(Qcompute)).
  pose proof (fun A B => within_mul _ _ _ _ _ _ A B G E) as G'.
  specialize (G' ltac:(Qcompute) ltac:(Qcompute)). clear G.
  pose proof (fun A B => within_mul _ _ _ _ _ _ A B G' W) as G.
  specialize (G ltac:(Qcompute) ltac:(Qcompute)). clear G'.
  apply (within_weaken _ _ _ _ _ G); Qcompute.
Qed.

Lemma poisson_3_3 :
  accurate_for_poisson_3_3 -> within (poisson.pdf 3 3) 0.2240414 0.2240420.
Proof.
  intros A. pose proof (gamma_4 A) as (g & Eg & Hg).
  destruct A as (_ & _ & _ & (l3 & El3 & Hl3) & L6 & Ex).
  destruct (L6 g Hg) as (l6 & El6 & Hl6).
  unfold poisson.pdf.
  change (negb (Number_isInteger 3) || (Num 3 <? 0) || (Num 3 <=? 0)) with false.
  cbv iota zeta.
  assert (F : mathUtils.logFactorial 3 = Num l6).
  { unfold mathUtils.logFactorial.
    change (Num 3 <? 0) with false. change ((Num 3 === 0) || (Num 3 === 1)) with false.
    cbv iota. change (Num 3 + 1) with (Num 4). unfold mathUtils.logGamma.
    change (Num 4 <=? 0) with false. change (Num 4 >? 50) with false.
    cbv iota zeta. rewrite Eg. cbn [isFinite andb].
    replace (Num g >? 0) with true by (symmetry; unfold ngt; apply nlt_Num; lra).
    exact El6. }
  rewrite F, El3. unfold nmul, nsub, nadd, nneg, fin.
  apply Ex. rewrite !Qred_correct. lra.
Qed.

(** C7.  For every integer [k >= 0] and every [lambda > 0] the Poisson
    evaluator returns [exp(k * ln lambda - lambda - logFactorial k)].  In
    particular [Poisson.pdf(3, 3)] is [exp(3 ln 3 - 3 - logGamma 4)], the
    log-space form of [e^-3 * 27 / 6]; with a Math object that is
    accurate to seven digits where this call uses it, the value lies
    between [0.2240414] and [0.2240420], within [4e-7] of [0.2240418].
    [Poisson.pdf(1.5, 3)] is [0] because [1.5] is not an integer. *)
Theorem poisson_pdf_log_space :
  (forall k lambda : num,
     Number_isInteger k = true -> (k >=? 0) = true -> (lambda >? 0) = true ->
     poisson.pdf k lambda =
       Math_exp (k * Math_log lambda - lambda - mathUtils.logFactorial k))
  /\ poisson.pdf 3 3 =
       Math_exp (3 * Math_log 3 - 3 - mathUtils.logGamma 4)
  /\ (accurate_for_poisson_3_3 -> within (poisson.pdf 3 3) 0.2240414 0.2240420)
  /\ Number_isInteger 1.5 = false
  /\ poisson.pdf 1.5 3 = 0.
Proof.
  assert (G : forall k lambda : num,
     Number_isInteger k = true -> (k >=? 0) = true -> (lambda >? 0) = true ->
     poisson.pdf k lambda =
       Math_exp (k * Math_log lambda - lambda - mathUtils.logFactorial k)).
  { intros k lambda Hk H0 Hl. unfold poisson.pdf.
    rewrite Hk, (nlt_nge _ _ H0), (nle_ngt _ _ Hl). reflexivity. }
  split; [exact G|]. split; [|split; [exact poisson_3_3 | split; reflexivity]].
  rewrite G by reflexivity. reflexivity.
Qed.

End PoissonFacts.

Section DiscreteFacts.
Context {M : MathLib}.
Local Open Scope num_scope.

Lemma Qden_Qred_inject_Z (z : Z) : Qden (Qred (inject_Z z)) = 1%positive.
Proof.
  unfold Qred, inject_Z.
  pose proof (Z.ggcd_gcd z 1) as Hg.
  pose proof (Z.ggcd_correct_divisors z 1) as Hd.
  destruct (Z.ggcd z 1) as [g [aa bb]]. simpl in *.
  rewrite Z.gcd_1_r in Hg. subst g. destruct Hd as [_ Hb].
  rewrite Z.mul_1_l in Hb. subst bb. reflexivity.
Qed.

(** A number strictly equal to an integer literal is an integer. *)
Lemma strict_eq_integer (x : num) (z : Z) :
  (x === Num (inject_Z z)) = true -> Number_isInteger x = true.
Proof.
  destruct x as [| | |q]; try discriminate.
  intros H. apply strict_eq_Num in H. unfold Number_isInteger.
  rewrite (Qred_complete _ _ H), Qden_Qred_inject_Z. reflexivity.
Qed.

Lemma not_integer_strict_ne (x : num) (z : Z) :
  Number_isInteger x = false -> (x !== Num (inject_Z z)) = true.
Proof.
  intros H. unfold strict_ne. destruct (x === Num (inject_Z z)) eqn:E; [|reflexivity].
  rewrite (strict_eq_integer x z E) in H. discriminate.
Qed.

(** More fuel does not change the result of a coefficient loop. *)
Lemma binomial_coeff_loop_more (fuel fuel' : nat) (k n i coeff v : num) :
  binomial.coeff_loop fuel k n i coeff = Some v -> (fuel <= fuel')%nat ->
  binomial.coeff_loop fuel' k n i coeff = Some v.
Proof.
  revert fuel' i coeff. induction fuel as [|fuel IH]; intros fuel' i coeff H Hle.
  - simpl in H. destruct fuel'; simpl; destruct (i <? k); congruence.
  - destruct fuel' as [|fuel']; [lia|]. simpl in *.
    destruct (i <? k); [|exact H]. apply IH; [exact H | lia].
Qed.

Lemma binomial_pdf_more (fuel fuel' : nat) (k n p v : num) :
  binomial.pdf fuel k n p = Some v -> (fuel <= fuel')%nat ->
  binomial.pdf fuel' k n p = Some v.
Proof.
  unfold binomial.pdf. intros H Hle.
  destruct (negb (Number_isInteger k) || (k <? 0) || (k >? n) || (n <? 0)
            || (p <? 0) || (p >? 1)); [exact H|].
  destruct (p === 0); [exact H|]. destruct (p === 1); [exact H|].
  destruct (binomial.coeff_loop fuel k n 0 1) as [c|] eqn:E; [|discriminate].
  rewrite (binomial_coeff_loop_more _ _ _ _ _ _ _ E Hle). exact H.
Qed.

(** C4.  Each of the nine discrete evaluators returns [0] at every [x] that
    is not an integer.  [Binomial.pdf(k, 10, 0.5)] is [0] when [k] is not an
    integer, when [k < 0] and when [k > 10], and [Binomial.pdf(5, 10, 0.5)]
    is [0.24609375] (five iterations of the coefficient loop). *)
Theorem discrete_support :
  (forall x : num, Number_isInteger x = false ->
     (forall fuel n p, binomial.pdf fuel x n p = Some (Num 0))
     /\ (forall lambda, poisson.pdf x lambda = 0)
     /\ (forall p, geometric.pdf x p = 0)
     /\ (forall fuel r p, negativeBinomial.pdf fuel x r p = Some (Num 0))
     /\ (forall p, bernoulli.pdf x p = 0)
     /\ (forall lower upper, discreteUniform.pdf x lower upper = 0)
     /\ (forall N K n, hypergeometric.pdf x N K n = 0)
     /\ (forall n alpha beta_param, betaBinomial.pdf x n alpha beta_param = 0)
     /\ (forall q beta_param, discreteWeibull.pdf x q beta_param = 0))
  /\ (forall (fuel : nat) (k : num),
        Number_isInteger k = false \/ (k <? 0) = true \/ (k >? 10) = true ->
        binomial.pdf fuel k 10 0.5 = Some (Num 0))
  /\ (forall fuel : nat, (5 <= fuel)%nat ->
        exists v, binomial.pdf fuel 5 10 0.5 = Some v
                  /\ (v === 0.24609375) = true).
Proof.
  split; [|split].
  - intros x Hx. repeat split; intros;
      try (unfold binomial.pdf, poisson.pdf, geometric.pdf, negativeBinomial.pdf,
             discreteUniform.pdf, hypergeometric.pdf, betaBinomial.pdf,
             discreteWeibull.pdf; rewrite Hx; reflexivity).
    unfold bernoulli.pdf.
    pose proof (not_integer_strict_ne x 0 Hx) as H0.
    pose proof (not_integer_strict_ne x 1 Hx) as H1.
    unfold inject_Z in H0, H1. rewrite H0, H1. reflexivity.
  - intros fuel k H. unfold binomial.pdf.
    destruct H as [H | [H | H]]; rewrite H; rewrite ?orb_true_r; reflexivity.
  - intros fuel Hf. exists (fin 0.24609375). split; [|reflexivity].
    apply (binomial_pdf_more 5 fuel); [|exact Hf]. vm_compute. reflexivity.
Qed.

End DiscreteFacts.

(* ================================================================== *)
(** * Range estimators *)
(* ================================================================== *)

(** Reading comparisons of finite numbers as facts about rationals. *)
Ltac to_Q :=
  unfold ordered, weakly_ordered, width, ngt, nge in *; cbn [min max] in *;
  repeat match goal with
  | H : (Num _ <? Num _)%num = true |- _ => apply nlt_Num in H
  | H : (Num _ <=? Num _)%num = true |- _ => apply nle_Num in H
  | H : (Num _ <? Num _)%num = false |- _ => apply nlt_Num_false in H
  | H : (Num _ <=? Num _)%num = false |- _ => apply nle_Num_false in H
  | H : (Num _ === Num _)%num = true |- _ => apply strict_eq_Num in H
  | H : (Num _ === Num _)%num = false |- _ => apply strict_eq_Num_false in H
  | H : Qle_bool _ _ = true |- _ => apply Qle_bool_iff in H
  | H : Qeq_bool _ _ = true |- _ => apply Qeq_bool_iff in H
  | H : Qeq_bool _ _ = false |- _ => apply Qeq_bool_neq in H
  end;
  try match goal with
  | |- (Num _ <? Num _)%num = true => apply nlt_Num
  | |- (Num _ <=? Num _)%num = true => apply nle_Num
  | |- (Num _ <? Num _)%num = false => apply nlt_Num_false
  | |- (Num _ <=? Num _)%num = false => apply nle_Num_false
  | |- (Num _ === Num _)%num = true => apply strict_eq_Num
  | |- (Num _ === Num _)%num = false => apply strict_eq_Num_false
  end.

Section NormalRange.
Local Open Scope num_scope.

Lemma nonzero_truthy (x : num) :
  (x === 0) = false -> is_nan x = false -> truthy x = true.
Proof.
  destruct x as [| | |q]; try reflexivity; try discriminate.
  intros H _. simpl. to_Q. destruct (Qeq_bool q 0) eqn:E; [|reflexivity].
  to_Q. contradiction.
Qed.

(** With [sigma] nonzero (and not NaN) and [mu] finite, the window of the
    Normal estimator is [mu -+ 4 sigma]. *)
Lemma normal_range_sigma (ps : params) (s : num) :
  truthy s = true ->
  normal.rangeCalculator (<["sigma" := s]> ps)
  = let mu := or_default (ps !! "mu") 0 in
    {| min := mu - 4 * s; max := mu + 4 * s |}.
Proof.
  intros Hs. unfold normal.rangeCalculator.
  rewrite lookup_insert_ne by discriminate. rewrite lookup_insert_eq.
  replace (or_default (Some s) 1) with s by (simpl; rewrite Hs; reflexivity).
  reflexivity.
Qed.

Lemma positive_truthy (s : num) : (s >? 0) = true -> truthy s = true.
Proof.
  destruct s as [| | |q]; try discriminate; try reflexivity.
  intros H. simpl. to_Q. destruct (Qeq_bool q 0) eqn:E; [|reflexivity].
  to_Q. lra.
Qed.

(** With [mu] left out, the width is [8 sigma]. *)
Lemma normal_width_sigma (s : Q) :
  (0 < s)%Q ->
  width (normal.rangeCalculator {["sigma" := Num s]}) = Num (Qred (8 * s)).
Proof.
  intros Hs.
  change ({["sigma" := Num s]} : params) with (<["sigma" := Num s]> (∅ : params)).
  rewrite normal_range_sigma by (apply positive_truthy, nlt_Num; exact Hs).
  rewrite lookup_empty. cbv zeta. unfold width; cbn [min max or_default].
  unfold nmul, nsub, nadd, nneg, fin. f_equal. apply Qred_complete.
  rewrite !Qred_correct. ring.
Qed.

(** C6, as amended.  The width of the Normal range estimate does not
    decrease when [sigma] grows: for [0 < s1 < s2] and any finite [mu], the
    width at [sigma = s2] is at least the width at [sigma = s1].  With [mu]
    left at its default, as in [range_normal({sigma: s})], the width is
    [8 s] for [0 < s < 2^1021], so that there the width at [s2] exceeds
    the width at [s1] whenever [s2 > s1]. *)
Theorem normal_width_increasing :
  (forall (ps : params) (s1 s2 : num),
     isFinite (or_default (ps !! "mu") 0) = true ->
     (s1 >? 0) = true -> (s2 >? s1) = true ->
     (width (normal.rangeCalculator (<["sigma" := s2]> ps))
        >=? width (normal.rangeCalculator (<["sigma" := s1]> ps))) = true)
  /\ (forall s : Q,
        (0 < s)%Q -> (s < 2 ^ 1021)%Q ->
        (width (normal.rangeCalculator {["sigma" := Num s]}) === 8 * Num s) = true)
  /\ (forall s1 s2 : Q,
        (0 < s1)%Q -> (s1 < s2)%Q -> (s2 < 2 ^ 1021)%Q ->
        (width (normal.rangeCalculator {["sigma" := Num s2]})
           >? width (normal.rangeCalculator {["sigma" := Num s1]})) = true).
Proof.
  split; [|split].
  - intros ps s1 s2 Hmu H1 Hlt.
    assert (H2 : (s2 >? 0) = true).
    { destruct s1 as [| | |q1], s2 as [| | |q2]; try discriminate; try reflexivity.
      to_Q. lra. }
    rewrite !normal_range_sigma by (apply positive_truthy; assumption).
    destruct (or_default (ps !! "mu") 0) as [| | |m]; try discriminate.
    cbv zeta.
    destruct s1 as [| | |q1], s2 as [| | |q2];
      try discriminate; try reflexivity.
    unfold width; cbn [min max].
    unfold nmul, nsub, nadd, nneg, fin. to_Q. rewrite !Qred_correct. lra.
  - intros s Hs _. rewrite normal_width_sigma by exact Hs.
    unfold nmul, fin. to_Q. reflexivity.
  - intros s1 s2 H1 H12 _.
    rewrite !normal_width_sigma by lra. to_Q. rewrite !Qred_correct. lra.
Qed.

End NormalRange.

Section NormalBetaFacts.
Context {M : MathLib}.
Local Open Scope num_scope.

Lemma nmul_NaN_l (x : num) : NaN * x = NaN.
Proof. reflexivity. Qed.

Lemma ndiv_NaN_l (x : num) : NaN / x = NaN.
Proof. reflexivity. Qed.

(** Once [sigma] has passed the domain check, a NaN among the arguments of
    the Normal evaluator reaches the result. *)
Lemma normal_pdf_NaN (x mu sigma : num) :
  (sigma <=? 0) = false ->
  is_nan x || is_nan mu || is_nan sigma = true ->
  normal.pdf x mu sigma = NaN.
Proof.
  intros Hs H. unfold normal.pdf. rewrite Hs. cbv zeta.
  destruct sigma as [| | |s]; [reflexivity | | |].
  all: destruct x as [| | |x]; try (rewrite nmul_NaN_r; reflexivity).
  all: destruct mu as [| | |mu]; try discriminate.
  all: rewrite nsub_NaN_r, !ndiv_NaN_l, (nmul_NaN_r (-0.5)), nmul_NaN_l;
       change (Math_exp NaN) with NaN; apply nmul_NaN_r.
Qed.

(** The first argument of [safePow] being NaN, the result is NaN unless
    the exponent is zero. *)
Lemma safePow_NaN (e : Q) : ~ (e == 0)%Q -> mathUtils.safePow NaN (Num e) = NaN.
Proof.
  intros He. unfold mathUtils.safePow. simpl.
  destruct (Qeq_bool e 0) eqn:E; [|reflexivity]. to_Q. contradiction.
Qed.

Lemma ndiv_one_finite (b : Q) : (0 < b)%Q -> isFinite (1 / Num b) = true.
Proof.
  intros Hb. unfold ndiv. destruct (Qeq_bool b 0) eqn:E; [|reflexivity].
  to_Q. lra.
Qed.

(** No return path of the Beta evaluator yields NaN. *)
Lemma beta_pdf_not_NaN (x alpha betaParam : num) :
  is_nan (beta.pdf x alpha betaParam) = false.
Proof.
  unfold beta.pdf.
  repeat match goal with
  | |- context [if ?c then _ else _] =>
      lazymatch c with
      | context [if _ then _ else _] => fail
      | _ => destruct c eqn:?
      end
  end; try reflexivity.
  - (* 1 / betaValue, with betaValue finite and positive *)
    cbv zeta in *.
    destruct (mathUtils.beta alpha betaParam) as [| | |b]; try discriminate.
    match goal with H : (_ && _)%bool = true |- _ => apply andb_true_iff in H; destruct H as [_ H] end.
    to_Q. pose proof (ndiv_one_finite b ltac:(assumption)) as F.
    destruct (1 / Num b); try discriminate; reflexivity.
  - (* the guarded product *)
    cbv zeta in *.
    destruct (mathUtils.safePow x (alpha - 1) * mathUtils.safePow (1 - x) (betaParam - 1)
                / mathUtils.beta alpha betaParam); try discriminate; reflexivity.
Qed.

Lemma beta_pdf_NaN_2_2 : beta.pdf NaN 2 2 = 0.
Proof.
  unfold beta.pdf.
  change ((NaN <? 0) || (NaN >? 1) || (Num 2 <=? 0) || (Num 2 <=? 0)) with false.
  change ((NaN === 0) || (NaN === 1)) with false.
  cbv iota zeta.
  destruct (negb (isFinite (mathUtils.beta 2 2)) || (mathUtils.beta 2 2 <=? 0));
    [reflexivity|].
  change (Num 2 - 1) with (Num 1).
  rewrite (safePow_NaN 1) by discriminate. reflexivity.
Qed.

End NormalBetaFacts.

Section BetaBoundary.
Context {M : MathLib}.
Local Open Scope num_scope.

(** A number above [0] is below, equal to or above [1]. *)
Lemma positive_trichotomy (a : num) :
  (a >? 0) = true -> (a >? 1) = false -> (a <? 1) = false -> (a === 1) = true.
Proof.
  destruct a as [| | |q]; try discriminate. intros H0 H1 H2. to_Q. lra.
Qed.

Lemma beta_pdf_at_0 (alpha betaParam : num) :
  (alpha >? 0) = true -> (betaParam >? 0) = true ->
  beta.pdf 0 alpha betaParam = beta_boundary_value alpha alpha betaParam.
Proof.
  intros Ha Hb. unfold beta.pdf, beta_boundary_value.
  rewrite (nle_ngt _ _ Ha), (nle_ngt _ _ Hb).
  change (Num 0 <? 0) with false. change (Num 0 >? 1) with false.
  change (Num 0 === 0) with true. change (Num 0 === 1) with false.
  cbn [orb andb]. rewrite !andb_true_r, !andb_false_r, !orb_false_r.
  destruct (alpha >? 1) eqn:H1; [reflexivity|].
  destruct (alpha <? 1) eqn:H2; [reflexivity|].
  rewrite (positive_trichotomy alpha Ha H1 H2). reflexivity.
Qed.

Lemma beta_pdf_at_1 (alpha betaParam : num) :
  (alpha >? 0) = true -> (betaParam >? 0) = true ->
  beta.pdf 1 alpha betaParam = beta_boundary_value betaParam alpha betaParam.
Proof.
  intros Ha Hb. unfold beta.pdf, beta_boundary_value.
  rewrite (nle_ngt _ _ Ha), (nle_ngt _ _ Hb).
  change (Num 1 <? 0) with false. change (Num 1 >? 1) with false.
  change (Num 1 === 0) with false. change (Num 1 === 1) with true.
  cbn [orb andb]. rewrite !andb_true_r, !andb_false_r. cbn [orb].
  destruct (betaParam >? 1) eqn:H1; [reflexivity|].
  destruct (betaParam <? 1) eqn:H2; [reflexivity|].
  rewrite (positive_trichotomy betaParam Hb H1 H2). reflexivity.
Qed.

(** With [beta = Infinity] the log-space branch of the kernel gives NaN. *)
Lemma beta_1_Infinity : mathUtils.beta 1 Infinity = NaN.
Proof.
  unfold mathUtils.beta.
  change ((Num 1 <=? 0) || (Infinity <=? 0)) with false.
  change ((Num 1 >? 50) || (Infinity >? 50) || (Num 1 + Infinity >? 50)) with true.
  cbv iota.
  assert (E : mathUtils.logGamma Infinity = NaN) by reflexivity.
  rewrite E, nadd_NaN_r. reflexivity.
Qed.

(** Whatever the Math object, the evaluator returns [0] there. *)
Lemma beta_pdf_0_1_Infinity : beta.pdf 0 1 Infinity = 0.
Proof.
  rewrite beta_pdf_at_0 by reflexivity. unfold beta_boundary_value.
  rewrite beta_1_Infinity. reflexivity.
Qed.

(** C3, as amended.  For the Beta evaluator with shapes [alpha, beta > 0]:
    at [x = 0] it returns [0] when [alpha > 1], [+Infinity] when [alpha < 1],
    and when [alpha = 1] it returns [1 / B(alpha, beta)] provided the
    kernel's [B(alpha, beta)] is finite and positive, and [0] otherwise;
    symmetrically at [x = 1], governed by [beta].  With [alpha = beta = 2]
    the value at [0] and at [1] is [0]; with [alpha = beta = 0.5] it is
    [+Infinity] at both. *)
Theorem beta_pdf_boundary :
  (forall alpha betaParam : num,
     (alpha >? 0) = true -> (betaParam >? 0) = true ->
     beta.pdf 0 alpha betaParam = beta_boundary_value alpha alpha betaParam
     /\ beta.pdf 1 alpha betaParam = beta_boundary_value betaParam alpha betaParam)
  /\ beta.pdf 0 2 2 = 0 /\ beta.pdf 1 2 2 = 0
  /\ beta.pdf 0 0.5 0.5 = Infinity /\ beta.pdf 1 0.5 0.5 = Infinity.
Proof.
  split.
  - intros alpha betaParam Ha Hb.
    split; [apply beta_pdf_at_0 | apply beta_pdf_at_1]; assumption.
  - repeat split;
      first [rewrite beta_pdf_at_0 by reflexivity | rewrite beta_pdf_at_1 by reflexivity];
      reflexivity.
Qed.

End BetaBoundary.

(* ================================================================== *)
(** * Domain validation *)
(* ================================================================== *)

Section DomainValidation.
Context {M : MathLib}.
Local Open Scope num_scope.

(** Split a violated disjunction into its cases. *)
Ltac violated H :=
  repeat match type of H with
  | (_ || _)%bool = true => apply orb_true_iff in H; destruct H as [H | H]
  end.

Ltac guard_returns_zero H :=
  violated H; rewrite H; rewrite ?orb_true_r; reflexivity.

Lemma violates_returns_zero (d : dist) (fuel : nat) (args : list num) :
  violates d args = true -> pdfFunctions d fuel args = Some (Num 0).
Proof.
  intros H.
  destruct d; simpl in H;
    repeat (let a := fresh "a" in destruct args as [|a args]; try discriminate H);
    cbn [pdfFunctions].
  all: try (f_equal;
            unfold normal.pdf, beta.pdf, gamma.pdf, exponential.pdf, lognormal.pdf,
              chi2.pdf, student.pdf, poisson.pdf, geometric.pdf,
              discreteUniform.pdf, betaBinomial.pdf, discreteWeibull.pdf,
              cauchy.pdf, laplace.pdf, logistic.pdf, gumbel.pdf, weibull.pdf,
              pareto.pdf, halfNormal.pdf, halfCauchy.pdf, inverseGamma.pdf,
              triangular.pdf, kumaraswamy.pdf, asymmetricLaplace.pdf,
              skewNormal.pdf, halfStudentT.pdf, logitNormal.pdf, wald.pdf,
              moyal.pdf, exGaussian.pdf, vonMises.pdf, rice.pdf,
              truncatedNormal.pdf;
            guard_returns_zero H).
  - (* uniform: the test on the bounds comes first *)
    unfold uniform.pdf. rewrite H. reflexivity.
  - unfold binomial.pdf. guard_returns_zero H.
  - unfold negativeBinomial.pdf. guard_returns_zero H.
  - (* bernoulli: the test on x comes first *)
    unfold bernoulli.pdf. destruct ((a !== 0) && (a !== 1)); [reflexivity|].
    f_equal. guard_returns_zero H.
  - (* hypergeometric: the second test catches the parameters *)
    unfold hypergeometric.pdf.
    match goal with |- context [if ?c then _ else _] => destruct c end; [reflexivity|].
    f_equal. guard_returns_zero H.
  - (* betaBinomial: with n < 0 the test on x rejects every integer *)
    f_equal. unfold betaBinomial.pdf. violated H;
      [|rewrite H; rewrite ?orb_true_r; reflexivity ..].
    destruct (Number_isInteger a) eqn:I; [|reflexivity].
    destruct a as [| | |x]; try discriminate I. cbn [negb orb].
    destruct a0 as [| | |n]; try discriminate H.
    { change (Num x >? NegInfinity) with true. rewrite orb_true_r. reflexivity. }
    destruct (Num x <? 0) eqn:X; [reflexivity|].
    replace (Num x >? Num n) with true; [reflexivity|].
    symmetry. unfold ngt. to_Q. lra.
Qed.

End DomainValidation.

Section LoopTermination.
Context {M : MathLib}.
Local Open Scope num_scope.

Lemma fuel_for (q : Q) : (q <= inject_Z (Z.of_nat (Z.to_nat (Qceiling q))))%Q.
Proof.
  apply Qle_trans with (inject_Z (Qceiling q)); [apply Qle_ceiling|].
  rewrite <- Zle_Qle. lia.
Qed.

Lemma inject_Z_succ (n : nat) :
  (inject_Z (Z.of_nat (S n)) == inject_Z (Z.of_nat n) + 1)%Q.
Proof. rewrite Nat2Z.inj_succ. unfold Z.succ. rewrite inject_Z_plus. reflexivity. Qed.

(** The coefficient loop of the Binomial evaluator stops once the
    counter, which grows by one each turn, reaches the bound [k]; the
    counter is exact as long as [k] is at most [2^53]. *)
Lemma binomial_coeff_loop_terminates (fuel : nat) (k : Q) (z : Z) (n coeff : num) :
  (0 <= z)%Z -> (k <= inject_Z (2 ^ 53))%Q ->
  (k - inject_Z z <= inject_Z (Z.of_nat fuel))%Q ->
  exists v, binomial.coeff_loop fuel (Num k) n (Num (inject_Z z)) coeff = Some v.
Proof.
  intros Hz Hk. revert z coeff Hz. induction fuel as [|fuel IH]; intros z coeff Hz H.
  - simpl. replace (Num (inject_Z z) <? Num k) with false; [eauto|].
    symmetry. apply nlt_Num_false. change (inject_Z (Z.of_nat 0)) with 0%Q in H. lra.
  - simpl. destruct (Num (inject_Z z) <? Num k) eqn:E; [|eauto].
    apply nlt_Num in E.
    assert (B : (z < 2 ^ 53)%Z) by (rewrite Zlt_Qlt; lra).
    rewrite increment_exact by lia. apply IH; [lia|].
    rewrite inject_Z_plus. rewrite inject_Z_succ in H. change (inject_Z 1) with 1%Q. lra.
Qed.

Lemma negativeBinomial_coeff_loop_terminates (fuel : nat) (k : num) (r : Q) (z : Z)
    (coeff : num) :
  (0 <= z)%Z -> (r - 1 <= inject_Z (2 ^ 53))%Q ->
  (r - 1 - inject_Z z <= inject_Z (Z.of_nat fuel))%Q ->
  exists v,
    negativeBinomial.coeff_loop fuel k (Num r) (Num (inject_Z z)) coeff = Some v.
Proof.
  intros Hz Hr. revert z coeff Hz. induction fuel as [|fuel IH]; intros z coeff Hz H.
  - cbn [negativeBinomial.coeff_loop].
    destruct (Num (inject_Z z) <? Num r - 1) eqn:E; [|eauto].
    exfalso. unfold nsub, nadd, nneg, fin in E. to_Q. rewrite !Qred_correct in E.
    change (inject_Z (Z.of_nat 0)) with 0%Q in H. lra.
  - cbn [negativeBinomial.coeff_loop].
    destruct (Num (inject_Z z) <? Num r - 1) eqn:E; [|eauto].
    unfold nsub, nadd, nneg, fin in E. to_Q. rewrite !Qred_correct in E.
    assert (B : (z < 2 ^ 53)%Z) by (rewrite Zlt_Qlt; lra).
    rewrite increment_exact by lia. apply IH; [lia|].
    rewrite inject_Z_plus. rewrite inject_Z_succ in H. change (inject_Z 1) with 1%Q. lra.
Qed.

(** From [2^53] on the counter no longer moves: a loop whose bound lies
    above [2^53] never ends. *)
Lemma binomial_coeff_loop_never_ends (fuel : nat) (k : Q) (z : Z) (n coeff : num) :
  (0 <= z <= 2 ^ 53)%Z -> (inject_Z (2 ^ 53) < k)%Q ->
  binomial.coeff_loop fuel (Num k) n (Num (inject_Z z)) coeff = None.
Proof.
  intros Hz Hk. revert z coeff Hz. induction fuel as [|fuel IH]; intros z coeff Hz.
  - simpl. replace (Num (inject_Z z) <? Num k) with true; [reflexivity|].
    symmetry. apply nlt_Num. apply Qle_lt_trans with (inject_Z (2 ^ 53)); [|exact Hk].
    rewrite <- Zle_Qle. lia.
  - simpl. replace (Num (inject_Z z) <? Num k) with true.
    2:{ symmetry. apply nlt_Num. apply Qle_lt_trans with (inject_Z (2 ^ 53)); [|exact Hk].
        rewrite <- Zle_Qle. lia. }
    destruct (Z.eq_dec z (2 ^ 53)%Z) as [->|N].
    + rewrite increment_stuck. apply IH. lia.
    + rewrite increment_exact by lia. apply IH. lia.
Qed.

Lemma binomial_pdf_total (k n p : num) :
  (k >? Num (inject_Z (2 ^ 53))) = false ->
  exists fuel v, binomial.pdf fuel k n p = Some v.
Proof.
  intros B. unfold binomial.pdf.
  destruct (Number_isInteger k) eqn:Hk; [|exists 0%nat; eauto].
  destruct k as [| | |k]; try discriminate. unfold ngt in B. to_Q.
  exists (Z.to_nat (Qceiling (k - 0))).
  destruct (binomial_coeff_loop_terminates (Z.to_nat (Qceiling (k - 0))) k 0 n 1
              ltac:(lia) B (fuel_for (k - 0))) as [v Hv].
  change (Num (inject_Z 0)) with (Num 0) in Hv.
  rewrite Hv. repeat match goal with |- context [if ?c then _ else _] => destruct c end; eauto.
Qed.

Lemma negativeBinomial_pdf_total (k r p : num) :
  (k >? Num (inject_Z (2 ^ 53))) = false ->
  exists fuel v, negativeBinomial.pdf fuel k r p = Some v.
Proof.
  intros B. unfold negativeBinomial.pdf.
  destruct (Number_isInteger k) eqn:Hk; [|exists 0%nat; eauto].
  destruct k as [| | |k]; try discriminate. unfold ngt in B. to_Q.
  destruct r as [| | |r].
  - (* r is NaN: the loop test fails at once *)
    exists 0%nat.
    change (negativeBinomial.coeff_loop 0 (Num k) NaN 0 1) with (Some (Num 1)).
    match goal with |- context [if ?c then _ else _] => destruct c end; eauto.
  - (* r is infinite: rejected by the guard *)
    exists 0%nat. change (Num k <? Infinity) with true.
    rewrite orb_true_r. cbn [orb]. eauto.
  - exists 0%nat. change (NegInfinity <? 1) with true.
    rewrite orb_true_r. cbn [orb]. eauto.
  - destruct (Num k <? Num r) eqn:G.
    { (* r above k: rejected by the guard *)
      exists 0%nat. rewrite orb_true_r. cbn [orb]. eauto. }
    to_Q. exists (Z.to_nat (Qceiling (r - 1 - 0))).
    destruct (negativeBinomial_coeff_loop_terminates (Z.to_nat (Qceiling (r - 1 - 0)))
                (Num k) r 0 1 ltac:(lia) ltac:(lra) (fuel_for (r - 1 - 0))) as [v Hv].
    change (Num (inject_Z 0)) with (Num 0) in Hv.
    rewrite Hv. repeat match goal with |- context [if ?c then _ else _] => destruct c end; eauto.
Qed.

(** Every evaluator returns a number at an evaluation point that is not
    above [2^53]: with enough fuel for the two coefficient loops, a call
    with the right number of arguments yields [Some] value. *)
Lemma pdfFunctions_total (d : dist) (x : num) (parameters : list num) :
  length (x :: parameters) = arity d -> (x >? Num (inject_Z (2 ^ 53))) = false ->
  exists fuel v, pdfFunctions d fuel (x :: parameters) = Some v.
Proof.
  intros H B. rename parameters into ps.
  destruct d; simpl in H;
    repeat (let a := fresh "a" in destruct ps as [|a ps]; try discriminate H);
    cbn [pdfFunctions]; try (exists 0%nat; eauto; fail).
  - apply binomial_pdf_total, B.
  - apply negativeBinomial_pdf_total, B.
Qed.

End LoopTermination.

Section DomainValidationClaim.
Context {M : MathLib}.
Local Open Scope num_scope.

(** C2, as amended.  For every evaluator and every argument list, if a
    parameter violates its constraint (a scale, shape or rate that is not
    positive, a probability outside its interval, a negative count, bounds
    out of order) the evaluator returns [0], whatever the evaluation point.
    No evaluator throws, and at an evaluation point that is not above
    [2^53] each returns a number; above it the coefficient loop of the
    Binomial evaluator never ends, its counter being stuck at [2^53].
    Integrality of an integer-only parameter is not checked: with
    [n = 10.5], which is not an integer, [Binomial.pdf(0, 10.5, 0)] is
    [1]. *)
Theorem invalid_parameters_return_zero :
  (forall (d : dist) (fuel : nat) (args : list num),
     violates d args = true -> pdfFunctions d fuel args = Some (Num 0))
  /\ (forall (d : dist) (x : num) (parameters : list num),
        length (x :: parameters) = arity d ->
        (x >? Num (inject_Z (2 ^ 53))) = false ->
        exists fuel v, pdfFunctions d fuel (x :: parameters) = Some v)
  /\ (forall (fuel : nat) (k : Q) (n p : num),
        Number_isInteger (Num k) = true -> (inject_Z (2 ^ 53) < k)%Q ->
        (Num k <=? n) = true -> (p >? 0) = true -> (p <? 1) = true ->
        binomial.pdf fuel (Num k) n p = None)
  /\ Number_isInteger 10.5 = false
  /\ (forall fuel : nat, binomial.pdf fuel 0 10.5 0 = Some (Num 1)).
Proof.
  split; [exact violates_returns_zero|].
  split; [exact pdfFunctions_total|].
  split; [|split; reflexivity].
  intros fuel k n p Hk Hb Hn H0 H1. unfold binomial.pdf. rewrite Hk. cbn [negb orb].
  assert (P : (0 < k)%Q) by (assert (0 < inject_Z (2 ^ 53))%Q by reflexivity; lra).
  replace (Num k <? 0) with false by (symmetry; apply nlt_Num_false; lra).
  replace (Num k >? n) with false
    by (symmetry; destruct n; try discriminate Hn; try reflexivity;
        unfold ngt; to_Q; lra).
  replace (n <? 0) with false
    by (symmetry; destruct n; try discriminate Hn; try reflexivity; to_Q; lra).
  destruct p as [| | |q]; try discriminate H0; try discriminate H1.
  unfold ngt in H0. to_Q.
  replace (Num q <? 0) with false by (symmetry; apply nlt_Num_false; lra).
  replace (Num 1 <? Num q) with false by (symmetry; apply nlt_Num_false; lra).
  replace (Num q === 0) with false by (symmetry; apply strict_eq_Num_false; lra).
  replace (Num q === 1) with false by (symmetry; apply strict_eq_Num_false; lra).
  cbn [orb].
  pose proof (binomial_coeff_loop_never_ends fuel k 0 n 1 ltac:(lia) Hb) as L.
  change (Num (inject_Z 0)) with (Num 0) in L. rewrite L. reflexivity.
Qed.

End DomainValidationClaim.

(* ================================================================== *)
(** * NaN arguments *)
(* ================================================================== *)

Section NaNFacts.
Context {M : MathLib}.
Local Open Scope num_scope.

Lemma nadd_NaN_l (x : num) : NaN + x = NaN.
Proof. reflexivity. Qed.

Lemma nsub_NaN_l (x : num) : NaN - x = NaN.
Proof. destruct x; reflexivity. Qed.

Lemma nlt_NaN_r (x : num) : (x <? NaN) = false.
Proof. destruct x; reflexivity. Qed.

Lemma strict_eq_NaN_r (x : num) : (x === NaN) = false.
Proof. destruct x; reflexivity. Qed.

Lemma is_nan_true (x : num) : is_nan x = true -> x = NaN.
Proof. destruct x; try discriminate; reflexivity. Qed.

Lemma gamma_NaN : mathUtils.gamma NaN = NaN.
Proof.
  unfold mathUtils.gamma. cbn [mathUtils.gamma_rec]. change (NaN <? 0.5) with false.
  cbv iota. unfold mathUtils.lanczos. cbv zeta.
  change (NaN - 1) with NaN. rewrite !nadd_NaN_l. change (- NaN) with NaN.
  change (Math_exp NaN) with NaN. change (Math_pow NaN NaN) with NaN.
  rewrite nmul_NaN_r. reflexivity.
Qed.

Lemma logGamma_NaN : mathUtils.logGamma NaN = NaN.
Proof.
  unfold mathUtils.logGamma. change (NaN <=? 0) with false.
  change (NaN >? 50) with false. cbv iota zeta. rewrite gamma_NaN. reflexivity.
Qed.

Lemma logFactorial_NaN : mathUtils.logFactorial NaN = NaN.
Proof.
  unfold mathUtils.logFactorial. change (NaN <? 0) with false.
  change ((NaN === 0) || (NaN === 1)) with false. cbv iota.
  rewrite nadd_NaN_l. apply logGamma_NaN.
Qed.

Lemma erfc_NaN : mathUtils.erfc NaN = NaN.
Proof.
  unfold mathUtils.erfc. cbv zeta. change (NaN <? 0) with false. cbv iota.
  change (Math_abs NaN) with NaN.
  repeat first
    [ rewrite nadd_NaN_l | rewrite nadd_NaN_r | rewrite nsub_NaN_r
    | rewrite nmul_NaN_l | rewrite nmul_NaN_r | rewrite ndiv_NaN_r ].
  reflexivity.
Qed.

Lemma normalCDF_NaN : mathUtils.normalCDF NaN = NaN.
Proof.
  unfold mathUtils.normalCDF. change (- NaN) with NaN. rewrite ndiv_NaN_l, erfc_NaN.
  reflexivity.
Qed.

Lemma Math_pow_NaN_r (b : num) : Math_pow b NaN = NaN.
Proof. reflexivity. Qed.

(** [Math.pow(NaN, e)] is NaN unless [e] is zero. *)
Lemma Math_pow_NaN_l (e : num) : (e === 0) = false -> Math_pow NaN e = NaN.
Proof.
  destruct e as [| | |q]; try reflexivity. intros H. to_Q. simpl.
  destruct (Qeq_bool q 0) eqn:E; [to_Q; contradiction | reflexivity].
Qed.

Lemma safePow_NaN_r (b : num) : mathUtils.safePow b NaN = NaN.
Proof.
  unfold mathUtils.safePow. change (NaN === 0) with false. rewrite andb_false_r.
  destruct ((b <? 0) && (NaN % 1 !== 0)); reflexivity.
Qed.

Lemma safePow_NaN_l (e : num) : (e === 0) = false -> mathUtils.safePow NaN e = NaN.
Proof.
  intros H. unfold mathUtils.safePow. change (NaN === 0) with false.
  change (NaN <? 0) with false. cbn [andb]. apply Math_pow_NaN_l, H.
Qed.

End NaNFacts.

(** Push a NaN through the arithmetic and the kernel. *)
Ltac nan_step :=
  first
    [ rewrite nadd_NaN_l | rewrite nadd_NaN_r | rewrite nsub_NaN_l | rewrite nsub_NaN_r
    | rewrite nmul_NaN_l | rewrite nmul_NaN_r | rewrite ndiv_NaN_l | rewrite ndiv_NaN_r
    | rewrite gamma_NaN | rewrite logGamma_NaN | rewrite logFactorial_NaN
    | rewrite erfc_NaN | rewrite normalCDF_NaN | rewrite Math_pow_NaN_r
    | rewrite safePow_NaN_r
    | rewrite nlt_NaN_r; cbv iota | rewrite strict_eq_NaN_r; cbv iota
    | progress change (- NaN)%num with NaN
    | progress change (Math_exp NaN) with NaN
    | progress change (Math_log NaN) with NaN
    | progress change (Math_sqrt NaN) with NaN
    | progress change (Math_abs NaN) with NaN
    | progress change (Math_cos NaN) with NaN
    | progress change (Math_pow NaN (Num 2)) with NaN ].

Ltac nan := cbv zeta; repeat nan_step; try reflexivity.

Section NaNPropagation.
Context {M : MathLib}.
Local Open Scope num_scope.

(** Which argument is NaN. *)
Ltac which_NaN H :=
  unfold has_NaN in H; cbn [existsb] in H; rewrite ?orb_false_r in H;
  repeat match type of H with
  | (_ || _)%bool = true => apply orb_true_iff in H; destruct H as [H | H]
  end;
  apply is_nan_true in H; subst.

(** The tests of the guard, one by one. *)
Ltac guard_false H :=
  unfold rejects in H; cbn [violates outside_support spec.type] in H;
  repeat match goal with
  | H0 : (_ || _)%bool = false |- _ =>
      let H1 := fresh "G" in apply orb_false_iff in H0; destruct H0 as [H0 H1]
  end.

Ltac pass_guard :=
  repeat match goal with
  | H0 : ?c = false |- context [?c] => rewrite H0
  end;
  cbn [orb negb].

Lemma positive_nonzero (a : num) : (a <=? 0) = false -> (a === 0) = false.
Proof.
  intros H. destruct a as [| | |q]; try reflexivity. to_Q. lra.
Qed.

Lemma shifted_exponent (nu : num) :
  (nu <=? 0) = false -> ((nu + 1) / 2 === 0) = false.
Proof.
  intros H. destruct nu as [| | |q]; try reflexivity; try discriminate.
  to_Q. unfold nadd, ndiv, fin. change (Qeq_bool 2 0) with false. cbv iota. to_Q.
  rewrite !Qred_correct. unfold Qdiv. change (/ 2)%Q with (1 # 2)%Q. lra.
Qed.

Lemma plus_one_exponent (a : num) : (a <=? 0) = false -> (a + 1 === 0) = false.
Proof.
  intros H. destruct a as [| | |q]; try reflexivity; try discriminate.
  to_Q. unfold nadd, fin. to_Q. rewrite !Qred_correct. lra.
Qed.

Lemma negated_exponent (nu : num) :
  (nu <=? 0) = false -> (- (nu + 1) / 2 === 0) = false.
Proof.
  intros H. destruct nu as [| | |q]; try reflexivity; try discriminate.
  to_Q. unfold nadd, nneg, ndiv, fin. change (Qeq_bool 2 0) with false. cbv iota. to_Q.
  rewrite !Qred_correct. unfold Qdiv. change (/ 2)%Q with (1 # 2)%Q. lra.
Qed.

Lemma first_group (d : dist) (x : num) (ps : list num) :
  In d [Normal; Gamma; Exponential; Poisson; Geometric; Bernoulli; DiscreteUniform;
        Hypergeometric; BetaBinomial; Cauchy; Laplace; Logistic; Gumbel;
        HalfNormal; HalfCauchy; InverseGamma; Triangular; AsymmetricLaplace;
        SkewNormal; LogitNormal; Wald; Moyal; ExGaussian; VonMises; Rice;
        TruncatedNormal] ->
  length (x :: ps) = arity d -> rejects d (x :: ps) = false ->
  has_NaN (x :: ps) = true ->
  forall fuel, pdfFunctions d fuel (x :: ps) = Some NaN.
Proof.
  intros Hd L R N fuel. cbn [In] in Hd.
  repeat (destruct Hd as [<- | Hd]); [..|destruct Hd];
    simpl in L;
    repeat (let a := fresh "a" in destruct ps as [|a ps]; try discriminate L);
    cbn [pdfFunctions]; f_equal; guard_false R.
  all: unfold normal.pdf, gamma.pdf, exponential.pdf, poisson.pdf, geometric.pdf,
         bernoulli.pdf, discreteUniform.pdf, hypergeometric.pdf, betaBinomial.pdf,
         cauchy.pdf, laplace.pdf, logistic.pdf, gumbel.pdf, halfNormal.pdf,
         halfCauchy.pdf, inverseGamma.pdf, triangular.pdf, asymmetricLaplace.pdf,
         skewNormal.pdf,
         logitNormal.pdf, wald.pdf, moyal.pdf, exGaussian.pdf, vonMises.pdf,
         rice.pdf, truncatedNormal.pdf.
  all: pass_guard.
  all: which_NaN N; try discriminate.
  all: nan.
  all: repeat match goal with |- context [if ?c then _ else _] => destruct c end; nan.
Qed.

(** The evaluators that raise NaN to a power: the exponent is not zero
    once the guard is passed. *)
Lemma student_pdf_NaN (x nu : num) :
  rejects Student [x; nu] = false -> has_NaN [x; nu] = true ->
  student.pdf x nu = NaN.
Proof.
  intros R N. guard_false R. unfold student.pdf. pass_guard.
  pose proof (shifted_exponent nu R) as E.
  which_NaN N; nan.
  rewrite (safePow_NaN_l _ E). nan.
Qed.

Lemma weibull_pdf_NaN (x alpha beta : num) :
  rejects Weibull [x; alpha; beta] = false -> has_NaN [x; alpha; beta] = true ->
  weibull.pdf x alpha beta = NaN.
Proof.
  intros R N. guard_false R. unfold weibull.pdf. pass_guard.
  which_NaN N; nan.
  rewrite (Math_pow_NaN_l alpha) by (apply positive_nonzero; assumption).
  nan.
Qed.

Lemma pareto_pdf_NaN (x alpha m : num) :
  rejects Pareto [x; alpha; m] = false -> has_NaN [x; alpha; m] = true ->
  pareto.pdf x alpha m = NaN.
Proof.
  intros R N. guard_false R. unfold pareto.pdf. pass_guard.
  which_NaN N; nan.
  - rewrite (Math_pow_NaN_l (alpha + 1)) by (apply plus_one_exponent; assumption). nan.
  - rewrite (Math_pow_NaN_l alpha) by (apply positive_nonzero; assumption).
    nan.
Qed.

Lemma halfStudentT_pdf_NaN (x nu sigma : num) :
  rejects HalfStudentT [x; nu; sigma] = false -> has_NaN [x; nu; sigma] = true ->
  halfStudentT.pdf x nu sigma = NaN.
Proof.
  intros R N. guard_false R. unfold halfStudentT.pdf. pass_guard.
  pose proof (negated_exponent nu R) as E.
  which_NaN N; nan.
  all: rewrite (Math_pow_NaN_l _ E); nan.
Qed.

(** The Negative Binomial evaluator: whatever the coefficient loop
    returns, the powers of [p] make the result NaN. *)
Lemma negativeBinomial_pdf_NaN (fuel : nat) (k r p v : num) :
  rejects NegativeBinomial [k; r; p] = false -> has_NaN [k; r; p] = true ->
  negativeBinomial.pdf fuel k r p = Some v -> v = NaN.
Proof.
  intros R N. guard_false R. unfold negativeBinomial.pdf. pass_guard.
  destruct (negativeBinomial.coeff_loop fuel k r 0 1) as [c|]; [|discriminate].
  intros E. injection E as <-.
  which_NaN N; try discriminate; nan.
  rewrite (Math_pow_NaN_l r); nan.
  destruct r as [| | |q]; try reflexivity. to_Q. lra.
Qed.

(** NaN reaches the result of every evaluator outside [swallows_NaN]. *)
Lemma NaN_propagates (d : dist) (x : num) (ps : list num) :
  swallows_NaN d = false -> length (x :: ps) = arity d ->
  rejects d (x :: ps) = false -> has_NaN (x :: ps) = true ->
  forall (fuel : nat) (v : num), pdfFunctions d fuel (x :: ps) = Some v -> v = NaN.
Proof.
  intros S L R N fuel v E.
  assert (G : forall d', d' = d ->
            In d' [Normal; Gamma; Exponential; Poisson; Geometric; Bernoulli;
                   DiscreteUniform; Hypergeometric; BetaBinomial; Cauchy; Laplace;
                   Logistic; Gumbel; HalfNormal; HalfCauchy; InverseGamma;
                   Triangular; AsymmetricLaplace; SkewNormal; LogitNormal; Wald;
                   Moyal; ExGaussian; VonMises; Rice; TruncatedNormal] ->
            v = NaN).
  { intros d' -> Hd. rewrite (first_group d x ps Hd L R N fuel) in E. congruence. }
  destruct d; try discriminate S;
    try (apply (G _ eq_refl); cbn [In]; tauto); clear G;
    simpl in L;
    repeat (let a := fresh "a" in destruct ps as [|a ps]; try discriminate L);
    cbn [pdfFunctions] in E.
  - injection E as <-. apply student_pdf_NaN; assumption.
  - exact (negativeBinomial_pdf_NaN fuel _ _ _ v R N E).
  - injection E as <-. apply weibull_pdf_NaN; assumption.
  - injection E as <-. apply pareto_pdf_NaN; assumption.
  - injection E as <-. apply halfStudentT_pdf_NaN; assumption.
Qed.

(** The seven evaluators of [swallows_NaN]: where the NaN is lost, and
    where it is not. *)

Lemma uniform_pdf_NaN (x a b : num) :
  rejects Uniform [x; a; b] = false -> is_nan a || is_nan b = true ->
  uniform.pdf x a b = NaN.
Proof.
  intros R N. guard_false R. unfold uniform.pdf. pass_guard.
  apply orb_true_iff in N. destruct N as [N | N]; apply is_nan_true in N; subst; nan.
Qed.

Lemma lognormal_pdf_NaN (x : Q) (mu sigma : num) :
  rejects Lognormal [Num x; mu; sigma] = false -> is_nan mu || is_nan sigma = true ->
  lognormal.pdf x mu sigma = NaN.
Proof.
  intros R N. guard_false R. unfold lognormal.pdf. pass_guard. cbv zeta.
  assert (F : isFinite (mathUtils.safeLog x) = true).
  { to_Q. unfold mathUtils.safeLog, ngt.
    replace (Num 0 <? Num x) with true by (symmetry; to_Q; lra).
    unfold Math_log, Qlt_bool.
    replace (Qle_bool 0 x) with true by (symmetry; apply Qle_bool_iff; lra).
    cbn [negb]. destruct (Qeq_bool x 0) eqn:E0; [to_Q; lra|].
    destruct (Qeq_bool x 1); reflexivity. }
  rewrite F. cbn [negb].
  apply orb_true_iff in N. destruct N as [N | N]; apply is_nan_true in N; subst; nan.
Qed.

Lemma chi2_pdf_NaN (x k : num) :
  rejects Chi2 [x; k] = false -> has_NaN [x; k] = true -> (x === 0) = false ->
  chi2.pdf x k = NaN.
Proof.
  intros R N X. guard_false R. unfold chi2.pdf. pass_guard. cbn [andb].
  which_NaN N; nan.
Qed.

Lemma kumaraswamy_pdf_NaN (x a b : num) :
  rejects Kumaraswamy [x; a; b] = false ->
  is_nan a || is_nan b || (is_nan x && negb ((a === 1) && (b === 1))) = true ->
  kumaraswamy.pdf x a b = NaN.
Proof.
  intros R N. guard_false R. unfold kumaraswamy.pdf. pass_guard.
  apply orb_true_iff in N. destruct N as [N | N].
  - apply orb_true_iff in N. destruct N as [N | N]; apply is_nan_true in N; subst; nan.
  - apply andb_true_iff in N. destruct N as [N E]. apply is_nan_true in N. subst.
    apply negb_true_iff, andb_false_iff in E.
    assert (A : (a === 0) = false).
    { apply positive_nonzero; assumption. }
    rewrite (Math_pow_NaN_l a A). nan.
    destruct E as [E | E].
    + rewrite (Math_pow_NaN_l (a - 1)); nan.
      destruct a as [| | |q]; try reflexivity. to_Q. unfold nsub, nadd, nneg, fin.
      to_Q. rewrite !Qred_correct. lra.
    + rewrite (Math_pow_NaN_l (b - 1)); nan.
      destruct b as [| | |q]; try reflexivity. to_Q. unfold nsub, nadd, nneg, fin.
      to_Q. rewrite !Qred_correct. lra.
Qed.

(** No return path of the Discrete Weibull evaluator yields NaN. *)
Lemma discreteWeibull_pdf_not_NaN (x q beta_param : num) :
  is_nan (discreteWeibull.pdf x q beta_param) = false.
Proof.
  unfold discreteWeibull.pdf. cbv zeta.
  repeat match goal with
  | |- context [if ?c then _ else _] =>
      lazymatch c with
      | context [if _ then _ else _] => fail
      | _ => destruct c eqn:?
      end
  end; try reflexivity.
  match goal with H : (isFinite ?r && _)%bool = true |- _ =>
    apply andb_true_iff in H; destruct H as [H _]; destruct r; try discriminate H
  end.
  reflexivity.
Qed.

(** The Binomial evaluator: a NaN number of trials is lost when [p] is
    [0] or [1], and a NaN [p] when [k] and [n] are both [0]. *)
Lemma binomial_pdf_NaN (fuel : nat) (k n p v : num) :
  rejects Binomial [k; n; p] = false ->
  (is_nan n && (p !== 0) && (p !== 1))
  || (is_nan p && negb ((k === 0) && (n === 0))) = true ->
  binomial.pdf fuel k n p = Some v -> v = NaN.
Proof.
  intros R N. guard_false R. unfold binomial.pdf. pass_guard.
  apply orb_true_iff in N. destruct N as [N | N].
  - apply andb_true_iff in N. destruct N as [N P1].
    apply andb_true_iff in N. destruct N as [N P0].
    apply is_nan_true in N. subst. apply negb_true_iff in P0, P1.
    rewrite P0, P1.
    destruct (binomial.coeff_loop fuel k NaN 0 1) as [c|]; [|discriminate].
    intros E. injection E as <-. nan.
  - apply andb_true_iff in N. destruct N as [N Z]. apply is_nan_true in N. subst.
    change (NaN === 0) with false. change (NaN === 1) with false. cbv iota.
    destruct (k === 0) eqn:K.
    + cbn [andb negb] in Z. apply negb_true_iff in Z.
      destruct (binomial.coeff_loop fuel k n 0 1) as [c|]; [|discriminate].
      intros E. injection E as <-. nan.
      rewrite (Math_pow_NaN_l (n - k)); nan.
      destruct k as [| | |k]; try discriminate K.
      destruct n as [| | |n]; try reflexivity. to_Q.
      unfold nsub, nadd, nneg, fin. to_Q. rewrite !Qred_correct. lra.
    + destruct (binomial.coeff_loop fuel k n 0 1) as [c|]; [|discriminate].
      intros E. injection E as <-. rewrite (Math_pow_NaN_l k K). nan.
Qed.

(** A discrete evaluator returns [0] at a NaN evaluation point, which is
    not an integer. *)
Lemma discrete_pdf_at_NaN (d : dist) (fuel : nat) (ps : list num) :
  spec.type d = discrete -> length (NaN :: ps) = arity d ->
  pdfFunctions d fuel (NaN :: ps) = Some (Num 0).
Proof.
  intros T L.
  destruct d; try discriminate T; simpl in L;
    repeat (let a := fresh "a" in destruct ps as [|a ps]; try discriminate L);
    reflexivity.
Qed.

Lemma swallowed_NaN :
  beta.pdf NaN 2 2 = 0 /\ uniform.pdf NaN 0 1 = 1 /\ lognormal.pdf NaN 0 1 = 0
  /\ chi2.pdf 0 NaN = 0 /\ (forall fuel, binomial.pdf fuel 0 NaN 0 = Some (Num 1))
  /\ discreteWeibull.pdf 1 NaN 1 = 0 /\ kumaraswamy.pdf NaN 1 1 = 1.
Proof.
  split; [exact beta_pdf_NaN_2_2|]. repeat split; reflexivity.
Qed.

(** C1, as amended.  In every evaluator other than those of Beta,
    Uniform, Lognormal, Chi-squared, Binomial, Discrete Weibull and
    Kumaraswamy, a NaN argument that passes the first tests (no parameter
    rejected, the evaluation point in the support, and an integer where
    the distribution is discrete) makes the result NaN: the evaluator
    returns nothing else, and it returns at an evaluation point that is
    not above [2^53].  [Normal.pdf(NaN, 0, 1)] is NaN and
    [Normal.pdf(0, 0, -1)] is [0].
    The seven others can lose the NaN.  The Beta and Discrete Weibull
    evaluators never return NaN.  [Uniform.pdf(NaN, 0, 1)] is [1],
    [Lognormal.pdf(NaN, 0, 1)] is [0], [Chi2.pdf(0, NaN)] is [0],
    [Binomial.pdf(0, NaN, 0)] is [1] and [Kumaraswamy.pdf(NaN, 1, 1)] is
    [1]; these five still return NaN for a NaN bound of Uniform, a NaN
    parameter of Lognormal at a finite point, a NaN argument of
    Chi-squared at a point other than [0], a NaN parameter of Kumaraswamy
    or a NaN point unless [a = b = 1], and in Binomial a NaN [n] with [p]
    other than [0] and [1] or a NaN [p] unless [k = n = 0].
    At a NaN evaluation point every discrete evaluator returns [0]. *)
Theorem nan_propagation :
  (forall (d : dist) (x : num) (ps : list num),
     swallows_NaN d = false -> length (x :: ps) = arity d ->
     rejects d (x :: ps) = false -> has_NaN (x :: ps) = true ->
     (forall (fuel : nat) (v : num),
        pdfFunctions d fuel (x :: ps) = Some v -> v = NaN)
     /\ ((x >? Num (inject_Z (2 ^ 53))) = false ->
         exists fuel : nat, pdfFunctions d fuel (x :: ps) = Some NaN))
  /\ normal.pdf NaN 0 1 = NaN
  /\ normal.pdf 0 0 (-1) = 0
  /\ (forall x alpha betaParam : num, is_nan (beta.pdf x alpha betaParam) = false)
  /\ (forall x q beta_param : num,
        is_nan (discreteWeibull.pdf x q beta_param) = false)
  /\ (beta.pdf NaN 2 2 = 0 /\ uniform.pdf NaN 0 1 = 1 /\ lognormal.pdf NaN 0 1 = 0
      /\ chi2.pdf 0 NaN = 0 /\ (forall fuel, binomial.pdf fuel 0 NaN 0 = Some (Num 1))
      /\ discreteWeibull.pdf 1 NaN 1 = 0 /\ kumaraswamy.pdf NaN 1 1 = 1)
  /\ (forall x a b : num,
        rejects Uniform [x; a; b] = false -> is_nan a || is_nan b = true ->
        uniform.pdf x a b = NaN)
  /\ (forall (x : Q) (mu sigma : num),
        rejects Lognormal [Num x; mu; sigma] = false ->
        is_nan mu || is_nan sigma = true ->
        lognormal.pdf x mu sigma = NaN)
  /\ (forall x k : num,
        rejects Chi2 [x; k] = false -> has_NaN [x; k] = true -> (x === 0) = false ->
        chi2.pdf x k = NaN)
  /\ (forall x a b : num,
        rejects Kumaraswamy [x; a; b] = false ->
        is_nan a || is_nan b || (is_nan x && negb ((a === 1) && (b === 1))) = true ->
        kumaraswamy.pdf x a b = NaN)
  /\ (forall (fuel : nat) (k n p v : num),
        rejects Binomial [k; n; p] = false ->
        (is_nan n && (p !== 0) && (p !== 1))
        || (is_nan p && negb ((k === 0) && (n === 0))) = true ->
        binomial.pdf fuel k n p = Some v -> v = NaN)
  /\ (forall (d : dist) (fuel : nat) (ps : list num),
        spec.type d = discrete -> length (NaN :: ps) = arity d ->
        pdfFunctions d fuel (NaN :: ps) = Some (Num 0)).
Proof.
  split.
  { intros d x ps S L R N.
    pose proof (NaN_propagates d x ps S L R N) as P. split; [exact P|].
    intros B. destruct (pdfFunctions_total d x ps L B) as (fuel & v & E).
    exists fuel. rewrite E. f_equal. exact (P fuel v E). }
  split; [apply normal_pdf_NaN; reflexivity|].
  split; [reflexivity|].
  split; [exact beta_pdf_not_NaN|].
  split; [exact discreteWeibull_pdf_not_NaN|].
  split; [exact swallowed_NaN|].
  split; [exact uniform_pdf_NaN|].
  split; [exact lognormal_pdf_NaN|].
  split; [exact chi2_pdf_NaN|].
  split; [exact kumaraswamy_pdf_NaN|].
  split; [exact binomial_pdf_NaN | exact discrete_pdf_at_NaN].
Qed.

End NaNPropagation.

(* ================================================================== *)
(** * Default substitution in the range estimators *)
(* ================================================================== *)

(** Unfold the range estimator of whichever distribution is at hand. *)
Ltac unfold_rangeCalculators :=
  cbn [rangeCalculators];
  unfold normal.rangeCalculator, beta.rangeCalculator, gamma.rangeCalculator,
    exponential.rangeCalculator, uniform.rangeCalculator,
    lognormal.rangeCalculator, chi2.rangeCalculator, student.rangeCalculator,
    binomial.rangeCalculator, poisson.rangeCalculator,
    geometric.rangeCalculator, negativeBinomial.rangeCalculator,
    bernoulli.rangeCalculator, discreteUniform.rangeCalculator,
    hypergeometric.rangeCalculator, betaBinomial.rangeCalculator,
    discreteWeibull.rangeCalculator, cauchy.rangeCalculator,
    laplace.rangeCalculator, logistic.rangeCalculator, gumbel.rangeCalculator,
    weibull.rangeCalculator, pareto.rangeCalculator,
    halfNormal.rangeCalculator, halfCauchy.rangeCalculator,
    inverseGamma.rangeCalculator, triangular.rangeCalculator,
    kumaraswamy.rangeCalculator, asymmetricLaplace.rangeCalculator,
    skewNormal.rangeCalculator, halfStudentT.rangeCalculator,
    logitNormal.rangeCalculator, wald.rangeCalculator, moyal.rangeCalculator,
    exGaussian.rangeCalculator, vonMises.rangeCalculator,
    rice.rangeCalculator, truncatedNormal.rangeCalculator.

Section DefaultSubstitution.
Context {M : MathLib}.
Local Open Scope num_scope.

(** A property holding [0] reads like a missing property. *)
Lemma or_default_zero_missing (ps : params) (k key : string) (d : num) :
  or_default (<[k := Num 0]> ps !! key) d = or_default (delete k ps !! key) d.
Proof.
  destruct (decide (k = key)) as [->|Hne].
  - rewrite lookup_insert_eq, lookup_delete_eq. reflexivity.
  - rewrite lookup_insert_ne, lookup_delete_ne by exact Hne. reflexivity.
Qed.

(** For every range estimator, a parameter supplied as [0] gives the same
    window as the parameter left out. *)
Lemma range_zero_is_missing (d : dist) (ps : params) (k : string) :
  rangeCalculators d (<[k := Num 0]> ps) = rangeCalculators d (delete k ps).
Proof.
  destruct d; unfold_rangeCalculators;
    rewrite ?or_default_zero_missing; reflexivity.
Qed.

(** Except for the shape [alpha] of the Gamma distribution, the value put
    in place of a [0] is the [default] of the parameter: supplying [0] and
    supplying the default give the same window. *)
Lemma range_zero_is_default (d : dist) (ps : params) (k : string) (v : num) :
  In (k, v) (parameters d) -> (d, k) <> (Gamma, "alpha"%string) ->
  rangeCalculators d (<[k := Num 0]> ps) = rangeCalculators d (<[k := v]> ps).
Proof.
  intros Hin Hne.
  destruct d; simpl in Hin;
    repeat match goal with
    | H : _ \/ _ |- _ => destruct H as [H | H]
    | H : False |- _ => destruct H
    | H : (_, _) = (_, _) |- _ => injection H as <- <-
    end;
    try (exfalso; apply Hne; reflexivity);
    unfold_rangeCalculators;
    rewrite ?lookup_insert_eq; rewrite ?lookup_insert_ne by discriminate;
    reflexivity.
Qed.

End DefaultSubstitution.

Section FiniteArithmetic.
Local Open Scope num_scope.

Lemma ndiv_Num (a b : Q) : ~ (b == 0)%Q -> Num a / Num b = Num (Qred (a / b)).
Proof.
  intros Hb. unfold ndiv. destruct (Qeq_bool b 0) eqn:E; [|reflexivity].
  to_Q. contradiction.
Qed.

Lemma Math_max_Num (a b : Q) :
  exists c, Math_max (Num a) (Num b) = Num c /\ (a <= c)%Q /\ (b <= c)%Q.
Proof.
  unfold Math_max, ncmp. destruct (a ?= b)%Q eqn:E.
  - apply Qeq_alt in E. exists a. repeat split; lra.
  - apply Qlt_alt in E. exists b. repeat split; lra.
  - apply Qgt_alt in E. exists a. repeat split; lra.
Qed.

Lemma Math_max_Num_lt (a b : Q) : (a < b)%Q -> Math_max (Num a) (Num b) = Num b.
Proof.
  intros H. unfold Math_max, ncmp. rewrite (proj1 (Qlt_alt a b) H). reflexivity.
Qed.

Lemma Math_min_Num (a b : Q) :
  exists c, Math_min (Num a) (Num b) = Num c /\ ((c == a)%Q \/ (c == b)%Q).
Proof.
  unfold Math_min, ncmp. destruct (a ?= b)%Q.
  - exists a. split; [reflexivity | left; reflexivity].
  - exists a. split; [reflexivity | left; reflexivity].
  - exists b. split; [reflexivity | right; reflexivity].
Qed.

End FiniteArithmetic.

Section GammaFallback.
Context {M : MathLib}.
Local Open Scope num_scope.

Lemma Math_sqrt_pos (q : Q) :
  (0 < q)%Q -> Math_sqrt (Num q) = Num (Qred (sqrt_approx q)).
Proof.
  intros H. unfold Math_sqrt, Qlt_bool.
  replace (Qle_bool 0 q) with true by (symmetry; apply Qle_bool_iff; lra).
  destruct (Qeq_bool q 0) eqn:E; [|reflexivity]. to_Q. lra.
Qed.

(** C10.  The range estimators put a fixed value in place of a parameter
    supplied as [0].  For the shape [alpha] of the Gamma distribution that
    value is [1], while the documented default of [alpha] is [2]: supplying
    [alpha = 0] gives the window of [alpha = 1], and with [beta = 0.1] this
    window is strictly narrower than the one of the default [alpha = 2]. *)
Theorem gamma_range_alpha_fallback :
  In ("alpha"%string, Num 2) (parameters Gamma)
  /\ (forall ps : params,
        gamma.rangeCalculator (<["alpha" := Num 0]> ps)
        = gamma.rangeCalculator (<["alpha" := Num 1]> ps))
  /\ (max (gamma.rangeCalculator (<["alpha" := Num 0]> {["beta" := Num 0.1]}))
        <? max (gamma.rangeCalculator (<["alpha" := Num 2]> {["beta" := Num 0.1]})))
     = true.
Proof.
  assert (E : forall ps : params,
        gamma.rangeCalculator (<["alpha" := Num 0]> ps)
        = gamma.rangeCalculator (<["alpha" := Num 1]> ps)).
  { intros ps. unfold gamma.rangeCalculator.
    rewrite !lookup_insert_eq. rewrite !lookup_insert_ne by discriminate. reflexivity. }
  split; [left; reflexivity|]. split; [exact E|].
  rewrite E. unfold gamma.rangeCalculator.
  rewrite !lookup_insert_eq. rewrite !lookup_insert_ne by discriminate.
  rewrite lookup_singleton_eq. cbn [or_default truthy max].
  change (negb (Qeq_bool 1 0)) with true. change (negb (Qeq_bool 2 0)) with true.
  change (negb (Qeq_bool 0.1 0)) with true. cbv iota.
  rewrite !Math_sqrt_pos by lra.
  pose proof (sqrt_approx_pos 1 ltac:(lra)) as P1.
  pose proof (sqrt_approx_mono 1 2 ltac:(lra) ltac:(lra)) as P2.
  set (s1 := sqrt_approx 1) in *. set (s2 := sqrt_approx 2) in *.
  cbn [nadd nmul]. unfold fin. rewrite !ndiv_Num by discriminate.
  assert (V1 : (5 < Qred ((Qred (1 + Qred (3 * Qred s1))) / 0.1))%Q).
  { rewrite !Qred_correct. unfold Qdiv. change (/ 0.1)%Q with 10%Q. lra. }
  assert (V2 : (5 < Qred ((Qred (2 + Qred (3 * Qred s2))) / 0.1))%Q).
  { rewrite !Qred_correct. unfold Qdiv. change (/ 0.1)%Q with 10%Q. lra. }
  rewrite !Math_max_Num_lt by assumption.
  to_Q. rewrite !Qred_correct. unfold Qdiv. change (/ 0.1)%Q with 10%Q. lra.
Qed.

End GammaFallback.

(* ================================================================== *)
(** * Windows with [min < max] *)
(* ================================================================== *)

Section OrderedWindows.
Context {M : MathLib}.
Local Open Scope num_scope.

Lemma Qlt_bool_iff (a b : Q) : Qlt_bool a b = true <-> (a < b)%Q.
Proof.
  unfold Qlt_bool. rewrite negb_true_iff, <- not_true_iff_false, Qle_bool_iff.
  split; [apply Qnot_le_lt | apply Qlt_not_le].
Qed.

Lemma check_true (ps : params) (k : string) (P : Q -> bool) :
  check ps k P = true -> exists q, ps !! k = Some (Num q) /\ P q = true.
Proof.
  unfold check. destruct (ps !! k) as [[| | |q]|]; try discriminate. eauto.
Qed.

Lemma or_default_Num (q d : Q) :
  or_default (Some (Num q)) (Num d) = if Qeq_bool q 0 then Num d else Num q.
Proof. unfold or_default, truthy. destruct (Qeq_bool q 0); reflexivity. Qed.

(** From [valid_params d ps = true] to the supplied values and the facts
    about them. *)
Ltac unpack_valid H :=
  unfold valid_params in H; cbv zeta in H;
  repeat (apply check_true in H;
          let q := fresh "q" in let E := fresh "E" in
          destruct H as (q & E & H); cbv beta in H);
  repeat match type of H with
  | (_ && _)%bool = true =>
      let H' := fresh "H" in apply andb_true_iff in H; destruct H as [H' H]
  end;
  repeat match goal with
  | H0 : (_ && _)%bool = true |- _ =>
      let H' := fresh "H" in apply andb_true_iff in H0; destruct H0 as [H' H0]
  end;
  repeat match goal with
  | H0 : Qlt_bool _ _ = true |- _ => apply Qlt_bool_iff in H0
  | H0 : Qle_bool _ _ = true |- _ => apply Qle_bool_iff in H0
  end.

(** Read the parameters, settle which of them fall back to the default,
    and reduce the arithmetic on finite values. *)
Ltac read_params :=
  repeat match goal with
  | E : ?ps !! ?k = Some _ |- context [?ps !! ?k] => rewrite E
  end;
  rewrite ?or_default_Num;
  repeat match goal with
  | |- context [Qeq_bool ?q 0] =>
      let Z := fresh "Z" in destruct (Qeq_bool q 0) eqn:Z;
      [apply Qeq_bool_iff in Z | apply Qeq_bool_neq in Z]
  end.

Lemma nadd_Num (a b : Q) : Num a + Num b = Num (Qred (a + b)).
Proof. reflexivity. Qed.

Lemma nsub_Num (a b : Q) : Num a - Num b = Num (Qred (a + Qred (- b))).
Proof. reflexivity. Qed.

Lemma nmul_Num (a b : Q) : Num a * Num b = Num (Qred (a * b)).
Proof. reflexivity. Qed.

Lemma nneg_Num (a : Q) : - Num a = Num (Qred (- a)).
Proof. reflexivity. Qed.

Ltac finite_arith :=
  repeat (progress (rewrite ?nadd_Num, ?nsub_Num, ?nmul_Num, ?nneg_Num)).

(** Put the order facts of the context in terms of plain rationals. *)
Ltac clean_facts :=
  repeat match goal with
  | H : _ /\ _ |- _ => destruct H
  end;
  repeat match goal with
  | H : (_ <= _)%Q |- _ => progress (rewrite !Qred_correct in H)
  | H : (_ < _)%Q |- _ => progress (rewrite !Qred_correct in H)
  | H : (_ == _)%Q |- _ => progress (rewrite !Qred_correct in H)
  end.

Ltac by_lra :=
  unfold ordered, weakly_ordered; cbn [min max]; finite_arith;
  to_Q; rewrite ?Qred_correct; clean_facts; lra.

(** Values of the Math functions at finite arguments. *)
Lemma Math_exp_Num (q : Q) :
  exists e, Math_exp (Num q) = Num e /\ (0 <= e)%Q /\ ((0 <= q)%Q -> (1 <= e)%Q).
Proof.
  unfold Math_exp. destruct (Qeq_bool q 0).
  - exists 1%Q. repeat split; lra.
  - exists (Qred (exp_approx q)). split; [reflexivity|].
    rewrite Qred_correct. split; [apply exp_approx_nonneg | apply exp_approx_ge1].
Qed.

Lemma Math_sqrt_Num (q : Q) :
  (0 <= q)%Q ->
  exists s, Math_sqrt (Num q) = Num s /\ (0 <= s)%Q /\ ((0 < q)%Q -> (0 < s)%Q).
Proof.
  intros Hq. unfold Math_sqrt, Qlt_bool.
  replace (Qle_bool 0 q) with true by (symmetry; apply Qle_bool_iff; exact Hq).
  cbn [negb]. destruct (Qeq_bool q 0) eqn:E.
  - to_Q. exists 0%Q. repeat split; lra.
  - to_Q. assert (P : (0 < q)%Q) by (apply Qle_lteq in Hq; destruct Hq as [Hq | Hq];
      [exact Hq | exfalso; apply E; symmetry; exact Hq]).
    exists (Qred (sqrt_approx q)). split; [reflexivity|]. rewrite Qred_correct.
    pose proof (sqrt_approx_pos q P). split; [lra | intros _; assumption].
Qed.

Lemma Math_log_Num (q : Q) :
  (0 < q)%Q -> (q < 1)%Q -> exists l, Math_log (Num q) = Num l /\ (l < 0)%Q.
Proof.
  intros H0 H1. unfold Math_log, Qlt_bool.
  replace (Qle_bool 0 q) with true by (symmetry; apply Qle_bool_iff; lra).
  cbn [negb].
  destruct (Qeq_bool q 0) eqn:E0; [to_Q; lra|].
  destruct (Qeq_bool q 1) eqn:E1; [to_Q; lra|].
  exists (Qred (log_approx q)). split; [reflexivity|]. rewrite Qred_correct.
  apply log_approx_neg; assumption.
Qed.

Lemma Qto_Z_pos (e : Q) : (0 < e)%Q -> (0 < Qto_Z e)%Z.
Proof.
  intros H. rewrite <- (Qred_correct e) in H. unfold Qto_Z.
  unfold Qlt in H. simpl in H. lia.
Qed.

Lemma Math_pow_Num (b e : Q) :
  (0 < b)%Q -> ~ (e == 0)%Q ->
  exists p, Math_pow (Num b) (Num e) = Num p /\ (0 <= p)%Q
            /\ ((1 < b)%Q -> (0 < e)%Q -> (1 <= p)%Q).
Proof.
  intros Hb He. unfold Math_pow.
  destruct (Qeq_bool e 0) eqn:E; [to_Q; contradiction|]. clear E.
  unfold pow_finite, Qlt_bool.
  destruct (Qeq_bool b 0) eqn:E; [to_Q; lra|]. clear E.
  replace (Qle_bool 0 b) with true by (symmetry; apply Qle_bool_iff; lra).
  cbn [negb andb]. destruct (Qis_integer e).
  - exists (Qred (Qpower b (Qto_Z e))). split; [reflexivity|]. rewrite Qred_correct.
    split; [apply Qlt_le_weak, Qpower_0_lt; exact Hb|].
    intros H1 H2. apply Qlt_le_weak, Qpower_1_lt; [exact H1 | apply Qto_Z_pos; exact H2].
  - exists (Qred (pow_approx b e)). split; [reflexivity|]. rewrite Qred_correct.
    split; [apply pow_approx_nonneg; exact Hb | apply pow_approx_ge1].
Qed.

(** Replace a Math call on a finite argument by its finite value. *)
Ltac math_value L :=
  let v := fresh "v" in let E := fresh "E" in
  destruct L as (v & E & ?); rewrite E.

(** The estimators whose window is a linear expression of the
    parameters, or a constant. *)
Lemma linear_windows (d : dist) (ps : params) :
  In d [Beta; Uniform; Binomial; Bernoulli; BetaBinomial; HalfNormal;
        HalfCauchy; Triangular; Kumaraswamy; LogitNormal; VonMises;
        TruncatedNormal] ->
  valid_params d ps = true -> ordered (rangeCalculators d ps) = true.
Proof.
  intros Hd H. cbn [In] in Hd.
  repeat (destruct Hd as [<- | Hd]); [..|destruct Hd];
    unpack_valid H; unfold_rangeCalculators; try reflexivity; read_params;
    by_lra.
Qed.

(** The windows around a location: [min <= max]. *)
Lemma location_windows (d : dist) (ps : params) :
  In d [Normal; Cauchy; Laplace; Logistic; Gumbel; Moyal] ->
  valid_params d ps = true -> weakly_ordered (rangeCalculators d ps) = true.
Proof.
  intros Hd H. cbn [In] in Hd.
  repeat (destruct Hd as [<- | Hd]); [..|destruct Hd];
    unpack_valid H; unfold_rangeCalculators; read_params; by_lra.
Qed.

(** Facts about the inverses that occur in the goal. *)
Ltac inverse_facts :=
  unfold Qdiv in *;
  repeat match goal with
  | |- context [(/ ?b)%Q] =>
      lazymatch goal with
      | _ : (0 < / b)%Q |- _ => fail
      | _ => assert (0 < / b)%Q by (apply Qinv_lt_0_compat; rewrite ?Qred_correct; lra)
      end
  end.

Ltac eval_div :=
  repeat match goal with
  | |- context [Num ?a / Num ?b] =>
      rewrite (ndiv_Num a b) by (rewrite ?Qred_correct; first [lra | nra])
  end.

Ltac by_nra :=
  unfold ordered, weakly_ordered; cbn [min max]; finite_arith; eval_div; finite_arith;
  to_Q; rewrite ?Qred_correct; clean_facts; inverse_facts; nra.

Ltac eval_sqrt :=
  match goal with
  | |- context [Math_sqrt (Num ?q)] =>
      let H := fresh "H" in
      assert (H : (0 <= q)%Q) by (rewrite ?Qred_correct; inverse_facts; nra);
      math_value (Math_sqrt_Num q H)
  end.

Ltac eval_exp :=
  match goal with
  | |- context [Math_exp (Num ?q)] => math_value (Math_exp_Num q)
  end.

Ltac eval_max :=
  match goal with
  | |- context [Math_max (Num ?a) (Num ?b)] => math_value (Math_max_Num a b)
  end.

Lemma exponential_window (ps : params) :
  valid_params Exponential ps = true -> ordered (exponential.rangeCalculator ps) = true.
Proof.
  intros H. unpack_valid H. unfold exponential.rangeCalculator. read_params; by_nra.
Qed.

Lemma reciprocal_windows (d : dist) (ps : params) :
  In d [AsymmetricLaplace; ExGaussian; SkewNormal] ->
  valid_params d ps = true -> weakly_ordered (rangeCalculators d ps) = true.
Proof.
  intros Hd H. cbn [In] in Hd.
  repeat (destruct Hd as [<- | Hd]); [..|destruct Hd];
    unpack_valid H; unfold_rangeCalculators; read_params;
    try match goal with |- context [if ?c then _ else _] => destruct c end;
    try by_nra.
Qed.

Lemma gamma_window (ps : params) :
  valid_params Gamma ps = true -> ordered (gamma.rangeCalculator ps) = true.
Proof.
  intros H. unpack_valid H. unfold gamma.rangeCalculator. read_params; try lra.
  eval_sqrt. finite_arith. eval_div. eval_max. by_lra.
Qed.

Lemma chi2_window (ps : params) :
  valid_params Chi2 ps = true -> ordered (chi2.rangeCalculator ps) = true.
Proof.
  intros H. unpack_valid H. unfold chi2.rangeCalculator. read_params; try lra.
  finite_arith. eval_sqrt. by_lra.
Qed.

Lemma poisson_window (ps : params) :
  valid_params Poisson ps = true -> ordered (poisson.rangeCalculator ps) = true.
Proof.
  intros H. unpack_valid H. unfold poisson.rangeCalculator. read_params; try lra.
  eval_sqrt. finite_arith. cbn [Math_ceil]. eval_max. by_lra.
Qed.

Ltac eval_sqrt_pos :=
  match goal with
  | |- context [Math_sqrt (Num ?q)] =>
      let H := fresh "H" in let v := fresh "v" in let E := fresh "E" in
      let P := fresh "P" in
      assert (H : (0 < q)%Q) by (rewrite ?Qred_correct; inverse_facts; nra);
      destruct (Math_sqrt_Num q (Qlt_le_weak _ _ H)) as (v & E & _ & P);
      specialize (P H); rewrite E
  end.

Lemma student_window (ps : params) :
  valid_params Student ps = true -> ordered (student.rangeCalculator ps) = true.
Proof.
  intros H. unpack_valid H. unfold student.rangeCalculator. read_params; try lra.
  destruct (Num q >? 2) eqn:G; [|by_lra].
  to_Q. finite_arith. eval_div. eval_sqrt_pos. by_lra.
Qed.

Lemma halfStudentT_window (ps : params) :
  valid_params HalfStudentT ps = true -> ordered (halfStudentT.rangeCalculator ps) = true.
Proof.
  intros H. unpack_valid H. unfold halfStudentT.rangeCalculator. read_params; try lra.
  destruct (Num q >? 2) eqn:G; [|by_nra].
  to_Q. finite_arith. eval_div. eval_sqrt_pos. by_nra.
Qed.

Lemma Math_log_unit (q : Q) :
  (0 <= q)%Q -> (q < 1)%Q ->
  Math_log (Num q) = NegInfinity
  \/ exists l, Math_log (Num q) = Num l /\ (l < 0)%Q.
Proof.
  intros H0 H1. destruct (Qeq_bool q 0) eqn:E.
  - left. unfold Math_log, Qlt_bool.
    replace (Qle_bool 0 q) with true by (symmetry; apply Qle_bool_iff; lra).
    rewrite E. reflexivity.
  - right. apply Math_log_Num; [|exact H1]. to_Q.
    apply Qle_lteq in H0. destruct H0 as [H0 | H0]; [exact H0|].
    exfalso. apply E. symmetry. exact H0.
Qed.

Lemma geometric_window (ps : params) :
  valid_params Geometric ps = true -> ordered (geometric.rangeCalculator ps) = true.
Proof.
  intros H. unpack_valid H. unfold geometric.rangeCalculator. read_params; try lra.
  destruct (Math_log_Num 0.01 ltac:(lra) ltac:(lra)) as (l0 & El0 & Hl0). rewrite El0.
  finite_arith.
  match goal with
  | |- context [Math_log (Num ?w)] =>
      destruct (Math_log_unit w) as [El | (l & El & Hl)];
        [rewrite !Qred_correct; lra | rewrite !Qred_correct; lra | |]; rewrite El
  end.
  - cbn [ndiv Math_ceil]. eval_max. by_lra.
  - eval_div. cbn [Math_ceil]. eval_max. by_lra.
Qed.

Lemma negativeBinomial_window (ps : params) :
  valid_params NegativeBinomial ps = true ->
  weakly_ordered (negativeBinomial.rangeCalculator ps) = true.
Proof.
  intros H. unpack_valid H. unfold negativeBinomial.rangeCalculator.
  read_params; try lra.
  finite_arith. eval_div. finite_arith. eval_div.
  match goal with
  | |- context [Math_sqrt (Num ?q)] =>
      assert (Hq : (0 <= q)%Q)
  end.
  { rewrite !Qred_correct. inverse_facts.
    repeat apply Qmult_le_0_compat; lra. }
  math_value (Math_sqrt_Num _ Hq). finite_arith. cbn [Math_ceil]. eval_max. by_lra.
Qed.

Lemma find_maxX_finite (q beta_param : num) (xs : list nat) :
  Forall (fun x => (1 <= x)%nat) xs ->
  exists v, discreteWeibull.find_maxX q beta_param xs = Num v /\ (1 <= v)%Q.
Proof.
  induction 1 as [|x xs Hx _ IH]; cbn [discreteWeibull.find_maxX].
  - exists 10%Q. split; [reflexivity | lra].
  - cbv zeta. destruct (_ <? _); [|exact IH].
    exists (inject_Z (Z.of_nat x)). split; [reflexivity|].
    change 1%Q with (inject_Z 1). rewrite <- Zle_Qle. lia.
Qed.

Lemma discreteWeibull_window (ps : params) :
  ordered (discreteWeibull.rangeCalculator ps) = true.
Proof.
  unfold discreteWeibull.rangeCalculator. cbv zeta.
  match goal with
  | |- context [discreteWeibull.find_maxX ?q ?b ?xs] =>
      destruct (find_maxX_finite q b xs) as (v & E & Hv); [|rewrite E]
  end.
  { apply Forall_forall. intros x Hx. apply elem_of_seq in Hx. lia. }
  destruct (Math_min_Num v 30) as (c & Ec & [Hc | Hc]); rewrite Ec;
    unfold ordered; cbn [min max]; to_Q; lra.
Qed.

(** The base [- Math.log(0.001)] of the Weibull estimator is positive;
    it is above [1] when the logarithm is below [-1]. *)
Lemma weibull_power (alpha : Q) :
  (0 < alpha)%Q ->
  exists p, Math_pow (- Math_log 0.001) (1 / Num alpha) = Num p /\ (0 <= p)%Q
            /\ ((Math_log 0.001 <? -1) = true -> (1 <= p)%Q).
Proof.
  intros Ha.
  destruct (Math_log_Num 0.001 ltac:(lra) ltac:(lra)) as (l0 & El0 & Hl0). rewrite El0.
  finite_arith. eval_div.
  match goal with
  | |- context [Math_pow (Num ?b) (Num ?e)] =>
      destruct (Math_pow_Num b e) as (p & Ep & Hp & Hp1);
        [rewrite ?Qred_correct; lra
        | rewrite ?Qred_correct; inverse_facts; nra
        | rewrite Ep]
  end.
  exists p. split; [reflexivity|]. split; [exact Hp|].
  intros L. change (- Num 1)%num with (Num (-1)) in L. to_Q.
  apply Hp1; rewrite ?Qred_correct; [lra | inverse_facts; nra].
Qed.

Lemma weibull_window (ps : params) :
  valid_params Weibull ps = true ->
  weakly_ordered (weibull.rangeCalculator ps) = true
  /\ ((Math_log 0.001 <? -1) = true -> ordered (weibull.rangeCalculator ps) = true).
Proof.
  intros H. unpack_valid H. unfold weibull.rangeCalculator. read_params; try lra.
  destruct (weibull_power q H0) as (p & Ep & Hp & Hp1). rewrite Ep.
  finite_arith.
  match goal with
  | |- context [Math_min (Num ?a) (Num ?b)] =>
      destruct (Math_min_Num a b) as (c & Ec & [Hc | Hc]); rewrite Ec
  end.
  all: split; [|intros L; specialize (Hp1 L)];
    unfold ordered, weakly_ordered; cbn [min max]; to_Q;
    rewrite Hc, ?Qred_correct; nra.
Qed.

Lemma pareto_window (ps : params) :
  valid_params Pareto ps = true -> weakly_ordered (pareto.rangeCalculator ps) = true.
Proof.
  intros H. unpack_valid H. unfold pareto.rangeCalculator. read_params; try lra.
  eval_div.
  match goal with
  | |- context [Math_pow (Num ?b) (Num ?e)] =>
      destruct (Math_pow_Num b e) as (p & Ep & _ & Hp);
        [lra
        | rewrite ?Qred_correct; inverse_facts; nra
        | rewrite Ep;
          assert (1 <= p)%Q by (apply Hp; [lra | rewrite ?Qred_correct; inverse_facts; nra])]
  end.
  finite_arith.
  match goal with
  | |- context [Math_min (Num ?a) (Num ?b)] =>
      destruct (Math_min_Num a b) as (c & Ec & [Hc | Hc]); rewrite Ec
  end; unfold weakly_ordered; cbn [min max]; to_Q; rewrite Hc, ?Qred_correct; nra.
Qed.

(** Valid parameters are accepted by the evaluator: passed in the order
    of [parameters], they do not violate any constraint. *)
Lemma valid_params_accepted (d : dist) (ps : params) (x : num) :
  valid_params d ps = true ->
  violates d (arguments d ps x) = false /\ length (arguments d ps x) = arity d.
Proof.
  intros H. split; [|destruct d; reflexivity].
  destruct d; unpack_valid H; unfold arguments; cbn [parameters map fst];
    repeat match goal with
    | E : ?ps !! ?k = Some _ |- context [?ps !! ?k] => rewrite E
    end;
    cbn [violates]; unfold ngt, nge;
    repeat match goal with
    | |- (_ || _)%bool = false => apply orb_false_iff; split
    end;
    to_Q; lra.
Qed.

(** C5, as amended.  Under parameters that satisfy the constraints of
    the distribution (finite values):
    - the estimators of Beta, Gamma, Exponential, Uniform, Chi-squared,
      Student, Binomial, Poisson, Geometric, Bernoulli, Beta-Binomial,
      Discrete Weibull, Half-Normal, Half-Cauchy, Triangular, Kumaraswamy,
      Half-Student-t, Logit-Normal, von Mises and Truncated Normal return
      [min < max];
    - those of Normal, Negative Binomial, Cauchy, Laplace, Logistic,
      Gumbel, Weibull, Pareto, Asymmetric Laplace, Skew Normal, Moyal and
      Ex-Gaussian return [min <= max];
    - the Weibull estimator returns [min < max] when [Math.log(0.001)] is
      below [-1];
    - the Discrete Uniform estimator returns the two bounds themselves:
      with both bounds nonzero its window has [min < max] exactly when
      [lower < upper], and it is a single point when they are equal. *)
Theorem range_min_below_max :
  (forall (d : dist) (ps : params),
     valid_params d ps = true -> window_guarantee d = below ->
     ordered (rangeCalculators d ps) = true)
  /\ (forall (d : dist) (ps : params),
        valid_params d ps = true -> window_guarantee d = not_above ->
        weakly_ordered (rangeCalculators d ps) = true)
  /\ (forall ps : params,
        valid_params Weibull ps = true -> (Math_log 0.001 <? -1) = true ->
        ordered (weibull.rangeCalculator ps) = true)
  /\ (forall (ps : params) (lower upper : Q),
        ps !! "lower" = Some (Num lower) -> ps !! "upper" = Some (Num upper) ->
        ~ (lower == 0)%Q -> ~ (upper == 0)%Q ->
        discreteUniform.rangeCalculator ps = {| min := Num lower; max := Num upper |}
        /\ ordered (discreteUniform.rangeCalculator ps) = Qlt_bool lower upper).
Proof.
  split; [|split; [|split]].
  - intros d ps Hv Hc.
    destruct d; try discriminate Hc;
      first
        [ apply linear_windows; [cbn [In]; tauto | exact Hv]
        | exact (exponential_window ps Hv)
        | exact (gamma_window ps Hv)
        | exact (chi2_window ps Hv)
        | exact (student_window ps Hv)
        | exact (poisson_window ps Hv)
        | exact (geometric_window ps Hv)
        | exact (discreteWeibull_window ps)
        | exact (halfStudentT_window ps Hv) ].
  - intros d ps Hv Hc.
    destruct d; try discriminate Hc;
      first
        [ apply location_windows; [cbn [In]; tauto | exact Hv]
        | apply reciprocal_windows; [cbn [In]; tauto | exact Hv]
        | exact (negativeBinomial_window ps Hv)
        | exact (proj1 (weibull_window ps Hv))
        | exact (pareto_window ps Hv) ].
  - intros ps Hv L. exact (proj2 (weibull_window ps Hv) L).
  - intros ps lower upper El Eu Hl Hu.
    assert (E : discreteUniform.rangeCalculator ps
                = {| min := Num lower; max := Num upper |}).
    { unfold discreteUniform.rangeCalculator. rewrite El, Eu, !or_default_Num.
      destruct (Qeq_bool lower 0) eqn:Zl; [apply Qeq_bool_iff in Zl; contradiction|].
      destruct (Qeq_bool upper 0) eqn:Zu; [apply Qeq_bool_iff in Zu; contradiction|].
      reflexivity. }
    split; [exact E|]. rewrite E. unfold ordered. cbn [min max].
    destruct (Qlt_bool lower upper) eqn:B.
    + apply Qlt_bool_iff in B. apply nlt_Num. exact B.
    + apply nlt_Num_false. apply not_true_iff_false in B.
      rewrite Qlt_bool_iff in B. apply Qnot_lt_le. exact B.
Qed.

End OrderedWindows.

(* ================================================================== *)
(** * Exact assertions of the test suite *)
(* ================================================================== *)

(** The assertions of the repository's tests that pin an exact value
    ([toBe]), replayed on the model; none of them depends on the
    approximated part of the Math object. *)
Section TestSuite.
Context {M : MathLib}.
Local Open Scope num_scope.

Example binomial_degenerate_p :
  binomial.pdf 0 5 10 0 = Some (Num 0) /\ binomial.pdf 0 0 10 0 = Some (Num 1)
  /\ binomial.pdf 0 10 10 1 = Some (Num 1) /\ binomial.pdf 0 5 10 1 = Some (Num 0).
Proof. repeat split; reflexivity. Qed.

Example binomial_outside_support :
  binomial.pdf 0 (-1) 10 0.5 = Some (Num 0) /\ binomial.pdf 0 11 10 0.5 = Some (Num 0)
  /\ binomial.pdf 0 5.5 10 0.5 = Some (Num 0).
Proof. repeat split; reflexivity. Qed.

Example geometric_values :
  (geometric.pdf 1 0.5 === 0.5) = true /\ (geometric.pdf 2 0.5 === 0.25) = true
  /\ (geometric.pdf 3 0.5 === 0.125) = true
  /\ (geometric.pdf 1 1 === 1) = true /\ (geometric.pdf 2 1 === 0) = true
  /\ geometric.pdf 0 0.5 = 0 /\ geometric.pdf 1.5 0.5 = 0.
Proof. repeat split; vm_compute; reflexivity. Qed.

Example negativeBinomial_values :
  (exists v, negativeBinomial.pdf 1 2 2 0.5 = Some v /\ (v === 0.25) = true)
  /\ (exists v, negativeBinomial.pdf 1 3 2 0.5 = Some v /\ (v === 0.25) = true)
  /\ (exists v, negativeBinomial.pdf 4 5 5 1 = Some v /\ (v === 1) = true)
  /\ (exists v, negativeBinomial.pdf 4 6 5 1 = Some v /\ (v === 0) = true)
  /\ negativeBinomial.pdf 0 1 2 0.5 = Some (Num 0)
  /\ negativeBinomial.pdf 0 5.5 2 0.5 = Some (Num 0).
Proof.
  repeat split; try reflexivity; eexists; (split; [vm_compute; reflexivity | reflexivity]).
Qed.

Example poisson_outside_support :
  poisson.pdf (-1) 3 = 0 /\ poisson.pdf 5.5 3 = 0 /\ poisson.pdf 5 0 = 0.
Proof. repeat split; reflexivity. Qed.

Example invalid_scale_or_shape :
  normal.pdf 0 0 0 = 0 /\ normal.pdf 0 0 (-1) = 0
  /\ beta.pdf 0.5 0 1 = 0 /\ beta.pdf 0.5 1 (-1) = 0
  /\ gamma.pdf 1 0 1 = 0 /\ gamma.pdf 1 1 (-1) = 0
  /\ exponential.pdf 1 0 = 0 /\ exponential.pdf 1 (-1) = 0
  /\ uniform.pdf 0.5 1 0 = 0 /\ uniform.pdf 0.5 1 1 = 0
  /\ lognormal.pdf 1 0 0 = 0 /\ lognormal.pdf 0 0 1 = 0
  /\ chi2.pdf 1 0 = 0 /\ student.pdf 0 (-1) = 0.
Proof. repeat split; reflexivity. Qed.

Example safe_operations :
  mathUtils.safeLog 0 = NegInfinity /\ mathUtils.safeLog (-1) = NegInfinity
  /\ (mathUtils.safePow 2 3 === 8) = true /\ mathUtils.safePow 0 0 = 1
  /\ mathUtils.safePow (-2) 0.5 = NaN /\ mathUtils.safePow (-4) 1.5 = NaN.
Proof. repeat split; vm_compute; reflexivity. Qed.

Example default_ranges :
  normal.rangeCalculator ∅ = {| min := Num (-4); max := Num 4 |}
  /\ beta.rangeCalculator ∅ = {| min := Num 0; max := Num 1 |}
  /\ exponential.rangeCalculator ∅ = {| min := Num 0; max := Num 5 |}
  /\ binomial.rangeCalculator {["n" := Num 20; "p" := Num 0.3]}
     = {| min := Num 0; max := Num 20 |}.
Proof. repeat split; vm_compute; reflexivity. Qed.

End TestSuite.

(* ================================================================== *)
(** * The catalog *)
(* ================================================================== *)

Section ObjFacts.
Context {A : Type}.
Implicit Types (o : obj.t A) (k : string) (v : A).

Lemma obj_get_set_eq k v o : obj.get k (obj.set k v o) = Some v.
Proof.
  induction o as [|[k' v'] o IH]; simpl.
  - destruct (decide (k = k)); [reflexivity | contradiction].
  - destruct (decide (k = k')) as [E|E]; simpl.
    + destruct (decide (k = k)); [reflexivity | contradiction].
    + destruct (decide (k = k')); [contradiction | exact IH].
Qed.

Lemma obj_get_set_ne k k' v o : k <> k' -> obj.get k' (obj.set k v o) = obj.get k' o.
Proof.
  intros Hne. induction o as [|[k0 v0] o IH]; simpl.
  - destruct (decide (k' = k)); [congruence | reflexivity].
  - destruct (decide (k = k0)) as [E|E]; simpl.
    + subst k0. destruct (decide (k' = k)); [congruence | reflexivity].
    + destruct (decide (k' = k0)); [reflexivity | exact IH].
Qed.

Lemma obj_get_None k o : obj.get k o = None <-> ~ In k (obj.keys o).
Proof.
  induction o as [|[k' v'] o IH]; simpl.
  - tauto.
  - destruct (decide (k = k')) as [E|E].
    + split; [discriminate | intros H; exfalso; apply H; left; congruence].
    + rewrite IH. split; [intros H [H'|H']; [congruence | tauto] | tauto].
Qed.

Lemma obj_get_In k v o : obj.get k o = Some v -> In (k, v) o.
Proof.
  induction o as [|[k' v'] o IH]; simpl; [discriminate|].
  destruct (decide (k = k')) as [E|E].
  - intros [= ->]. left. congruence.
  - intros H. right. apply IH, H.
Qed.

(** An assignment to a key already present keeps the order of the keys. *)
Lemma obj_keys_set_In k v o : In k (obj.keys o) -> obj.keys (obj.set k v o) = obj.keys o.
Proof.
  induction o as [|[k' v'] o IH]; simpl; [tauto|].
  destruct (decide (k = k')) as [E|E]; simpl.
  - intros _. congruence.
  - intros [H|H]; [congruence|]. f_equal. apply IH, H.
Qed.

(** A new key goes last. *)
Lemma obj_set_new k v o : ~ In k (obj.keys o) -> obj.set k v o = o ++ [(k, v)].
Proof.
  induction o as [|[k' v'] o IH]; simpl; [reflexivity|].
  intros H. destruct (decide (k = k')) as [E|E]; [exfalso; apply H; left; congruence|].
  f_equal. apply IH. tauto.
Qed.

End ObjFacts.

Lemma to_params_lookup (o : obj.t num) (k : string) : to_params o !! k = obj.get k o.
Proof.
  unfold to_params. induction o as [|[k' v'] o IH]; simpl.
  - apply lookup_empty.
  - destruct (decide (k = k')) as [E|E].
    + subst. apply lookup_insert_eq.
    + rewrite lookup_insert_ne by congruence. exact IH.
Qed.

Section CatalogFacts.
Import DistributionCatalog.

Lemma extractDefaults_snoc (ps : list parameter.t) (p : parameter.t) :
  extractDefaults (ps ++ [p])
  = obj.set (parameter.name p) (parameter.default p) (extractDefaults ps).
Proof. unfold extractDefaults. rewrite fold_left_app. reflexivity. Qed.

Lemma extractDefaults_NoDup (ps : list parameter.t) :
  NoDup (map parameter.name ps) -> extractDefaults ps = map name_default ps.
Proof.
  induction ps as [|p ps IH] using rev_ind; [reflexivity|].
  rewrite map_app. intros H. apply NoDup_app in H as (H1 & H2 & _).
  rewrite extractDefaults_snoc, IH by exact H1.
  rewrite obj_set_new, map_app; [reflexivity|].
  unfold obj.keys. rewrite map_map. cbn [name_default fst].
  intros Hin. apply (H2 (parameter.name p)).
  - apply list_elem_of_In, Hin.
  - apply list_elem_of_In. left. reflexivity.
Qed.

(** X1. For parameter names that are plain keys, [extractDefaults] maps a
    name to the default of the last parameter of that name in the list,
    and to nothing when no parameter has the name.  When the names are
    distinct, the keys of the result are the names and its values are the
    defaults, in the order of the list. *)
Theorem extractDefaults_lookup :
  (forall (ps : list parameter.t) (k : string),
      Forall (fun p => obj.plain_key (parameter.name p) = true) ps ->
      obj.plain_key k = true ->
      obj.get k (extractDefaults ps)
      = option_map parameter.default
          (find (fun p => bool_decide (parameter.name p = k)) (rev ps)))
  /\ (forall ps : list parameter.t,
        Forall (fun p => obj.plain_key (parameter.name p) = true) ps ->
        NoDup (map parameter.name ps) ->
        obj.keys (extractDefaults ps) = map parameter.name ps
        /\ obj.values (extractDefaults ps) = map parameter.default ps).
Proof.
  split.
  - intros ps k _ _. induction ps as [|p ps IH] using rev_ind; [reflexivity|].
    rewrite extractDefaults_snoc, rev_app_distr. cbn [rev app find].
    destruct (decide (parameter.name p = k)) as [E|E].
    + rewrite bool_decide_true by exact E. subst k. apply obj_get_set_eq.
    + rewrite bool_decide_false by exact E.
      rewrite obj_get_set_ne by exact E. exact IH.
  - intros ps _ H. rewrite extractDefaults_NoDup by exact H.
    unfold obj.keys, obj.values. rewrite !map_map. split; reflexivity.
Qed.

Lemma catalog_keys : obj.keys initializeDistributions = map spec.name distributions.
Proof. vm_compute. reflexivity. Qed.

Lemma catalog_get (d : dist) :
  obj.get (spec.name d) initializeDistributions
  = Some {| dist_spec := d;
            parameterDefaults := map name_default (spec.parameters d) |}.
Proof. destruct d; vm_compute; reflexivity. Qed.

(** X2. Every distribution of the table is found in the catalog under its
    own name, with its parameter list and with the defaults of that list.
    A name that no distribution carries gives [undefined], the empty
    parameter list and the empty defaults.  [getDistributionList] lists
    the names in the order of the table. *)
Theorem catalog_lookup :
  (forall d : dist,
      getDistributionInfo (spec.name d)
      = Some {| dist_spec := d;
                parameterDefaults := map name_default (spec.parameters d) |}
      /\ getParameterInfo (spec.name d) = spec.parameters d
      /\ getParameterDefaults (spec.name d) = map name_default (spec.parameters d))
  /\ (forall n : string,
        (forall d, spec.name d <> n) ->
        getDistributionInfo n = None /\ getParameterInfo n = []
        /\ getParameterDefaults n = [])
  /\ map DistributionCatalog.name getDistributionList = map spec.name distributions.
Proof.
  split; [|split].
  - intros d. unfold getDistributionInfo, getParameterInfo, getParameterDefaults.
    rewrite catalog_get. repeat split.
  - intros n H.
    assert (G : obj.get n initializeDistributions = None).
    { apply obj_get_None. rewrite catalog_keys. intros Hin.
      apply in_map_iff in Hin as (d & E & _). exact (H d E). }
    unfold getDistributionInfo, getParameterInfo, getParameterDefaults.
    rewrite G. repeat split.
  - vm_compute. reflexivity.
Qed.

(** X3. The defaults the catalog supplies satisfy the constraints of their
    distribution: they are valid parameters, and the evaluator's check of
    the parameters does not reject them, whatever the evaluation point. *)
Theorem defaults_are_valid (d : dist) :
  valid_params d (to_params (getParameterDefaults (spec.name d))) = true
  /\ forall x : num,
       violates d (x :: obj.values (getParameterDefaults (spec.name d))) = false.
Proof.
  unfold getParameterDefaults. rewrite catalog_get. cbn [parameterDefaults].
  destruct d; (split; [vm_compute; reflexivity | intros x; reflexivity]).
Qed.

End CatalogFacts.

Section Alignment.
Context {M : MathLib}.
Import DistributionCatalog.

Lemma parameters_name_default (d : dist) :
  parameters d = map name_default (spec.parameters d).
Proof. destruct d; reflexivity. Qed.

Lemma parameter_names_NoDup (d : dist) :
  NoDup (map parameter.name (spec.parameters d)).
Proof. destruct d; refine (bool_decide_unpack _ _); vm_compute; exact I. Qed.

Lemma parameter_names_plain (d : dist) :
  Forall (fun k => obj.plain_key k = true) (map parameter.name (spec.parameters d)).
Proof. destruct d; repeat constructor. Qed.

Lemma arity_parameters (d : dist) : arity d = S (length (spec.parameters d)).
Proof. destruct d; reflexivity. Qed.

(** Reading every key of an object in order gives its values. *)
Lemma obj_get_keys {A : Type} (o : obj.t A) :
  NoDup (obj.keys o) -> map (fun k => obj.get k o) (obj.keys o) = map Some (obj.values o).
Proof.
  unfold obj.keys, obj.values.
  induction o as [|[k v] o IH]; [reflexivity|].
  cbn [map fst snd obj.get]. intros H. apply NoDup_cons in H as [H1 H2].
  destruct (decide (k = k)); [|contradiction]. f_equal.
  rewrite <- IH by exact H2. apply map_ext_in. intros k' Hin.
  destruct (decide (k' = k)) as [->|]; [|reflexivity].
  exfalso. apply H1, list_elem_of_In, Hin.
Qed.

Lemma apply_pdf_exact (d : dist) (fuel : nat) (args : list num) :
  length args = arity d -> apply_pdf d fuel args = pdfFunctions d fuel args.
Proof.
  intros H. unfold apply_pdf. rewrite firstn_app, <- H, Nat.sub_diag.
  rewrite firstn_all, firstn_O, app_nil_r. reflexivity.
Qed.

Lemma aligned_arguments (d : dist) (values : obj.t num) (x : num) :
  obj.keys values = map parameter.name (spec.parameters d) ->
  arguments d (to_params values) x = x :: obj.values values.
Proof.
  intros H. unfold arguments. f_equal.
  rewrite parameters_name_default, map_map. cbn [name_default fst].
  transitivity (map (fun o => match o with Some v => v | None => NaN end)
                  (map (fun k => obj.get k values) (obj.keys values))).
  - rewrite H, !map_map. apply map_ext. intros p. rewrite to_params_lookup. reflexivity.
  - rewrite obj_get_keys by (rewrite H; apply parameter_names_NoDup).
    rewrite map_map. apply map_id.
Qed.

(** X4. After a distribution is selected and any number of its parameters
    are changed through [ParameterInputs], the parameter object of [App]
    holds the parameter names of the distribution, which are plain keys,
    in the order of the table; so the positional call
    [pdf(xi, ...Object.values(parameters))] of [usePlotData] hands every
    value to the parameter of its name. *)
Theorem parameters_stay_aligned (d : dist) (values : obj.t num) :
  reachable d values ->
  obj.keys values = map parameter.name (spec.parameters d)
  /\ Forall (fun k => obj.plain_key k = true) (obj.keys values)
  /\ forall (fuel : nat) (x : num),
       apply_pdf d fuel (x :: obj.values values)
       = pdfFunctions d fuel (arguments d (to_params values) x).
Proof.
  intros H.
  assert (K : obj.keys values = map parameter.name (spec.parameters d)).
  { induction H as [s | values p v H IH Hp].
    - cbn [App.handleDistributionChange App.parameters].
      unfold getParameterDefaults. rewrite catalog_get. cbn [parameterDefaults].
      unfold obj.keys. rewrite map_map. reflexivity.
    - unfold ParameterInputs.handleParameterChange.
      rewrite obj_keys_set_In; [exact IH|].
      unfold getParameterInfo in Hp. rewrite catalog_get in Hp. cbn [dist_spec] in Hp.
      rewrite IH. apply in_map, Hp. }
  split; [exact K|]. split; [rewrite K; apply parameter_names_plain|]. intros fuel x.
  rewrite aligned_arguments by exact K. apply apply_pdf_exact.
  cbn [length]. unfold obj.values. rewrite length_map.
  rewrite arity_parameters. f_equal.
  rewrite <- (length_map fst values). fold (obj.keys values). rewrite K.
  apply length_map.
Qed.

End Alignment.

Section Controls.

(** X5. For every parameter of every distribution the control starts with
    the default inside the slider range: the slider shows the default, the
    range is not empty and lies within the domain of the parameter, and
    leaving the exact value field changes and reports nothing. *)
Theorem controls_start_in_range (d : dist) :
  Forall (fun p =>
    let props := ParameterControl.sliderProps p None in
    let s := RangeSlider.initial props in
    RangeSlider.isInRange props s = true
    /\ RangeSlider.sliderValue props s = parameter.default p
    /\ (RangeSlider.effectiveMin s <? RangeSlider.effectiveMax s)%num = true
    /\ (parameter.min p <=? RangeSlider.effectiveMin s)%num = true
    /\ (RangeSlider.effectiveMax s <=? parameter.max p)%num = true
    /\ RangeSlider.handleExactValueBlur props s = (s, []))
    (spec.parameters d).
Proof.
  destruct d; repeat constructor; vm_compute; reflexivity.
Qed.

End Controls.

(* ================================================================== *)
(** * The slider of a parameter *)
(* ================================================================== *)

(** Settle a goal about the order of numbers by cases on the numbers and
    on the comparisons of the rationals they carry. *)
Ltac compare_cases :=
  repeat match goal with
  | H : context [(?a ?= ?b)%Q] |- _ =>
      let E := fresh "E" in
      destruct (a ?= b)%Q eqn:E;
      [apply Qeq_alt in E | apply Qlt_alt in E | apply Qgt_alt in E]
  | |- context [(?a ?= ?b)%Q] =>
      let E := fresh "E" in
      destruct (a ?= b)%Q eqn:E;
      [apply Qeq_alt in E | apply Qlt_alt in E | apply Qgt_alt in E]
  end.

Ltac num_order :=
  unfold ngt, nge, nle, nlt, strict_ne, strict_eq, Math_max, Math_min, ncmp, isNaN in *;
  compare_cases;
  try discriminate; try reflexivity; try (exfalso; lra).

Section NumOrder.
Local Open Scope num_scope.
Implicit Types x y z a b c : num.

Lemma nle_refl x : isNaN x = false -> (x <=? x) = true.
Proof. destruct x; intros H; num_order. Qed.

Lemma nle_trans x y z : (x <=? y) = true -> (y <=? z) = true -> (x <=? z) = true.
Proof. destruct x, y, z; intros H1 H2; num_order. Qed.

Lemma nlt_false_nle x y :
  isNaN x = false -> isNaN y = false -> (x <? y) = false -> (y <=? x) = true.
Proof. destruct x, y; intros H1 H2 H3; num_order. Qed.

Lemma nle_not_NaN x y : (x <=? y) = true -> isNaN x = false /\ isNaN y = false.
Proof. destruct x, y; intros H; split; num_order. Qed.

Lemma Math_max_not_NaN a b :
  isNaN a = false -> isNaN b = false -> isNaN (Math_max a b) = false.
Proof. destruct a, b; intros H1 H2; num_order. Qed.

Lemma Math_min_not_NaN a b :
  isNaN a = false -> isNaN b = false -> isNaN (Math_min a b) = false.
Proof. destruct a, b; intros H1 H2; num_order. Qed.

Lemma Math_max_ge_l a b :
  isNaN a = false -> isNaN b = false -> (a <=? Math_max a b) = true.
Proof. destruct a, b; intros H1 H2; num_order. Qed.

Lemma Math_max_ge_r a b :
  isNaN a = false -> isNaN b = false -> (b <=? Math_max a b) = true.
Proof. destruct a, b; intros H1 H2; num_order. Qed.

Lemma Math_min_le_l a b :
  isNaN a = false -> isNaN b = false -> (Math_min a b <=? a) = true.
Proof. destruct a, b; intros H1 H2; num_order. Qed.

Lemma Math_min_le_r a b :
  isNaN a = false -> isNaN b = false -> (Math_min a b <=? b) = true.
Proof. destruct a, b; intros H1 H2; num_order. Qed.

Lemma Math_max_lub a b c :
  (a <=? c) = true -> (b <=? c) = true -> (Math_max a b <=? c) = true.
Proof. destruct a, b, c; intros H1 H2; num_order. Qed.

Lemma Math_min_glb a b c :
  (c <=? a) = true -> (c <=? b) = true -> (c <=? Math_min a b) = true.
Proof. destruct a, b, c; intros H1 H2; num_order. Qed.

End NumOrder.

Section RangeSliderFacts.
Local Open Scope num_scope.
Import RangeSlider.

Lemma shrink_below (c m : num) :
  (c <? m) = true -> (c - Math_abs (c * 0.1) <=? c) = true.
Proof.
  destruct c as [| | |q], m; try discriminate; try reflexivity; intros _.
  - cbn [nmul nsub nadd nneg Math_abs fin]. apply nle_Num.
    rewrite !Qred_correct. pose proof (Qabs_nonneg (q * 0.1)). lra.
  - cbn [nmul nsub nadd nneg Math_abs fin]. apply nle_Num.
    rewrite !Qred_correct. pose proof (Qabs_nonneg (q * 0.1)). lra.
Qed.

Lemma grow_above (c m : num) :
  (c >? m) = true -> (c <=? c + Math_abs (c * 0.1)) = true.
Proof.
  destruct c as [| | |q], m; try discriminate; try reflexivity; intros _.
  - cbn [nmul nsub nadd nneg Math_abs fin]. apply nle_Num.
    rewrite !Qred_correct. pose proof (Qabs_nonneg (q * 0.1)). lra.
  - cbn [nmul nsub nadd nneg Math_abs fin]. apply nle_Num.
    rewrite !Qred_correct. pose proof (Qabs_nonneg (q * 0.1)). lra.
Qed.

Lemma constrained_in_domain (lo hi v : num) :
  (lo <=? hi) = true -> isNaN v = false ->
  (lo <=? Math_max lo (Math_min hi v)) = true
  /\ (Math_max lo (Math_min hi v) <=? hi) = true.
Proof.
  intros H Hv. destruct (nle_not_NaN _ _ H) as [Hlo Hhi].
  pose proof (Math_min_not_NaN hi v Hhi Hv) as Hm. split.
  - apply Math_max_ge_l; assumption.
  - apply Math_max_lub; [exact H | apply Math_min_le_l; assumption].
Qed.

Lemma constrain_idempotent (lo hi v : num) :
  isNaN lo = false -> isNaN hi = false -> isNaN v = false ->
  Math_max lo (Math_min hi (Math_max lo (Math_min hi v))) = Math_max lo (Math_min hi v).
Proof. destruct lo, hi, v; intros H1 H2 H3; num_order. Qed.

Lemma in_range_shown (p : props) (s : state) :
  (sliderMin s <=? value p) = true -> (value p <=? sliderMax s) = true ->
  isInRange p s = true /\ sliderValue p s = value p.
Proof.
  intros H1 H2.
  destruct (nle_not_NaN _ _ H1) as [N1 Nv]. destruct (nle_not_NaN _ _ H2) as [_ N2].
  assert (R : isInRange p s = true).
  { unfold isInRange, nge, effectiveMin, effectiveMax. apply andb_true_iff. split.
    - apply nle_trans with (sliderMin s); [apply Math_min_le_l; assumption | exact H1].
    - apply nle_trans with (sliderMax s); [exact H2 | apply Math_max_ge_r; assumption]. }
  split; [exact R|]. unfold sliderValue. rewrite R. reflexivity.
Qed.

(** X6. [handleExactValueChange] ignores NaN.  For any other number, with
    the domain bounds in order and no NaN among the slider bounds, it
    reports [c = Math.max(domainMin, Math.min(domainMax, newValue))], the
    number clamped to the domain, keeps the number typed as [exactValue],
    and stretches the slider range so that [c] lies in it: once [c] comes
    back as the prop [value], the slider shows it as it is. *)
Theorem exact_value_is_shown (p : props) (s : state) :
  handleExactValueChange p s NaN = (s, [])
  /\ forall newValue : num,
       (domainMin p <=? domainMax p) = true ->
       isNaN (sliderMin s) = false -> isNaN (sliderMax s) = false ->
       isNaN newValue = false ->
       exists (c : num) (s' : state),
         c = Math_max (domainMin p) (Math_min (domainMax p) newValue)
         /\ handleExactValueChange p s newValue = (s', [c])
         /\ exactValue s' = newValue
         /\ (domainMin p <=? c) = true /\ (c <=? domainMax p) = true
         /\ (sliderMin s' <=? c) = true /\ (c <=? sliderMax s') = true
         /\ isInRange (with_value p c) s' = true
         /\ sliderValue (with_value p c) s' = c.
Proof.
  split; [reflexivity|]. intros newValue Hd Hmin Hmax Hv.
  unfold handleExactValueChange. rewrite Hv.
  set (c := Math_max (domainMin p) (Math_min (domainMax p) newValue)).
  destruct (constrained_in_domain _ _ newValue Hd Hv) as [Hlo Hhi]. fold c in Hlo, Hhi.
  destruct (nle_not_NaN _ _ Hlo) as [Nlo Nc]. destruct (nle_not_NaN _ _ Hhi) as [_ Nhi].
  eexists c, _. split; [reflexivity|]. split; [reflexivity|].
  cbn [exactValue sliderMin sliderMax].
  assert (L : ((if c <? sliderMin s
                then Math_max (c - Math_abs (c * 0.1)) (domainMin p)
                else sliderMin s) <=? c) = true).
  { destruct (c <? sliderMin s) eqn:E.
    - apply Math_max_lub; [apply shrink_below with (sliderMin s); exact E | exact Hlo].
    - apply nlt_false_nle; assumption. }
  assert (U : (c <=? (if c >? sliderMax s
                      then Math_min (c + Math_abs (c * 0.1)) (domainMax p)
                      else sliderMax s)) = true).
  { destruct (c >? sliderMax s) eqn:E.
    - apply Math_min_glb; [apply grow_above with (sliderMax s); exact E | exact Hhi].
    - apply nlt_false_nle; assumption. }
  repeat split; try assumption; apply in_range_shown; assumption.
Qed.

(** X7. Whatever the value is, and whichever way round the two bounds were
    entered (NaN apart), [effectiveMin <= effectiveMax] and the position
    handed to the slider input lies between them. *)
Theorem slider_value_within_range (p : props) (s : state) :
  isNaN (sliderMin s) = false -> isNaN (sliderMax s) = false ->
  (effectiveMin s <=? effectiveMax s) = true
  /\ (effectiveMin s <=? sliderValue p s) = true
  /\ (sliderValue p s <=? effectiveMax s) = true.
Proof.
  intros N1 N2.
  assert (O : (effectiveMin s <=? effectiveMax s) = true).
  { unfold effectiveMin, effectiveMax. apply nle_trans with (sliderMin s);
      [apply Math_min_le_l | apply Math_max_ge_l]; assumption. }
  destruct (nle_not_NaN _ _ O) as [Nlo Nhi].
  split; [exact O|]. unfold sliderValue. destruct (isInRange p s) eqn:R.
  - unfold isInRange, nge in R. apply andb_true_iff in R. exact R.
  - destruct (value p <? effectiveMin s);
      (split; [first [apply nle_refl; assumption | exact O]
              | first [apply nle_refl; assumption | exact O]]).
Qed.

(** X8. Leaving the exact value field twice is leaving it once: on the
    state a call of [handleExactValueBlur] leaves, a second call changes
    nothing and reports nothing (no NaN among the domain bounds and the
    exact value). *)
Theorem blur_is_idempotent (p : props) (s : state) :
  isNaN (domainMin p) = false -> isNaN (domainMax p) = false ->
  isNaN (exactValue s) = false ->
  handleExactValueBlur p (fst (handleExactValueBlur p s))
  = (fst (handleExactValueBlur p s), []).
Proof.
  intros Nlo Nhi Nv. unfold handleExactValueBlur at 2 3.
  set (c := Math_max (domainMin p) (Math_min (domainMax p) (exactValue s))).
  assert (Nc : isNaN c = false)
    by (apply Math_max_not_NaN; [|apply Math_min_not_NaN]; assumption).
  assert (R : forall x, isNaN x = false -> (x !== x) = false)
    by (intros x Hx; destruct x; num_order).
  destruct (c !== exactValue s) eqn:E; cbn [fst].
  - unfold handleExactValueBlur. cbn [exactValue].
    fold c. unfold c at 1 3. rewrite constrain_idempotent by assumption. fold c.
    rewrite R by exact Nc. reflexivity.
  - unfold handleExactValueBlur. fold c. rewrite E. reflexivity.
Qed.

End RangeSliderFacts.

Section RangeInvariant.
Local Open Scope num_scope.
Import RangeSlider.

Lemma clamped_to_domain_intro (p : props) (s : state) :
  (domainMin p <=? sliderMin s) = true -> (sliderMax s <=? domainMax p) = true ->
  clamped_to_domain p s = true.
Proof. intros H1 H2. unfold clamped_to_domain. rewrite H1, H2. reflexivity. Qed.

(** X9. Every handler of [RangeSlider] keeps the lower bound of the
    slider at or above [domainMin] and the upper bound at or below
    [domainMax]: if [domainMin <= sliderMin] and [sliderMax <= domainMax]
    hold before an event, they hold after it (after a reset, provided the
    initial range has them).  The bounds can still leave the domain on
    the other side: on the slider of [sigma], whose domain starts at
    [0.001], [handleMaxChange(-1)] leaves [sliderMax = -1]. *)
Theorem slider_bounds_stay_clamped (p : props) (s : state) :
  clamped_to_domain p s = true ->
  (forall v : num, clamped_to_domain p (fst (handleSliderChange p s v)) = true)
  /\ (forall v : num, clamped_to_domain p (fst (handleExactValueChange p s v)) = true)
  /\ (forall v : num, clamped_to_domain p (handleMinChange p s v) = true)
  /\ (forall v : num, clamped_to_domain p (handleMaxChange p s v) = true)
  /\ clamped_to_domain p (fst (handleExactValueBlur p s)) = true
  /\ (clamped_to_domain p (initial p) = true -> clamped_to_domain p (resetRange p s) = true)
  /\ (sliderMax (handleMaxChange sigma_props (initial sigma_props) (Num (-1))) = Num (-1)
      /\ domainMin sigma_props = Num 0.001
      /\ (sliderMax (handleMaxChange sigma_props (initial sigma_props) (Num (-1)))
            <? domainMin sigma_props) = true).
Proof.
  intros H. pose proof H as H'. unfold clamped_to_domain in H'.
  apply andb_true_iff in H' as [H1 H2].
  destruct (nle_not_NaN _ _ H1) as [Nlo Nmin].
  destruct (nle_not_NaN _ _ H2) as [Nmax Nhi].
  split; [intros v; exact H|]. split; [|split; [|split; [|split; [|split]]]].
  - intros v. unfold handleExactValueChange. destruct (isNaN v) eqn:Nv; [exact H|].
    cbn [fst]. set (c := Math_max (domainMin p) (Math_min (domainMax p) v)).
    apply clamped_to_domain_intro; cbn [sliderMin sliderMax].
    + destruct (c <? sliderMin s) eqn:E; [|exact H1].
      apply Math_max_ge_r; [|exact Nlo].
      exact (proj1 (nle_not_NaN _ _ (shrink_below _ _ E))).
    + destruct (c >? sliderMax s) eqn:E; [|exact H2].
      apply Math_min_le_r; [|exact Nhi].
      exact (proj2 (nle_not_NaN _ _ (grow_above _ _ E))).
  - intros v. unfold handleMinChange. destruct (isNaN v) eqn:Nv; [exact H|].
    apply clamped_to_domain_intro; cbn [sliderMin sliderMax]; [|exact H2].
    apply Math_max_ge_l; assumption.
  - intros v. unfold handleMaxChange. destruct (isNaN v) eqn:Nv; [exact H|].
    apply clamped_to_domain_intro; cbn [sliderMin sliderMax]; [exact H1|].
    apply Math_min_le_l; assumption.
  - unfold handleExactValueBlur.
    destruct (Math_max (domainMin p) (Math_min (domainMax p) (exactValue s))
              !== exactValue s); exact H.
  - intros Hi. exact Hi.
  - repeat split; vm_compute; reflexivity.
Qed.

End RangeInvariant.

(* ================================================================== *)
(** * Typed values, the selector and the ticks *)
(* ================================================================== *)

Section TypedValues.
Local Open Scope num_scope.

(** X10. A number typed into the exact value field reaches [onChange]
    clamped to [[min, max]] of the parameter.  For a distribution whose
    constraints bear on single parameters (all but Uniform, Discrete
    Uniform, Hypergeometric, Triangular and Truncated Normal), values
    clamped this way, one for each parameter, pass the evaluator's check
    of the parameters. *)
Theorem typed_values_are_accepted :
  (forall (p : parameter.t) (value : option num) (s : RangeSlider.state) (v : num),
      isNaN v = false ->
      snd (RangeSlider.handleExactValueChange (ParameterControl.sliderProps p value) s v)
      = [constrain p v])
  /\ (forall (d : dist) (typed : list num) (x : num),
        cross_constrained d = false ->
        length typed = length (spec.parameters d) ->
        Forall (fun v => isNaN v = false) typed ->
        violates d (x :: zip_with constrain (spec.parameters d) typed) = false).
Proof.
  split.
  - intros p value s v Hv. unfold RangeSlider.handleExactValueChange.
    rewrite Hv. reflexivity.
  - intros d typed x Hd Hlen Hv.
    destruct d; try discriminate Hd; cbn [spec.parameters length] in Hlen;
      repeat (let v := fresh "v" in destruct typed as [|v typed]; try discriminate Hlen);
      repeat match goal with
      | H : Forall _ (_ :: _) |- _ =>
          let N := fresh "N" in apply Forall_cons in H as [N H]
      end;
      cbn [spec.parameters zip_with violates]; unfold constrain;
      cbn [parameter.min parameter.max];
      repeat match goal with
      | v : num |- _ => destruct v; try discriminate
      end;
      num_order.
Qed.

End TypedValues.

Section Selector.
Import DistributionCatalog DistributionSelector.

Lemma groupedDistributions_snoc (ds : list listEntry) (e : listEntry) :
  groupedDistributions (ds ++ [e])
  = match obj.get (category_of e) (groupedDistributions ds) with
    | None => obj.set (category_of e) [e] (groupedDistributions ds)
    | Some group => obj.set (category_of e) (group ++ [e]) (groupedDistributions ds)
    end.
Proof. unfold groupedDistributions. rewrite fold_left_app. reflexivity. Qed.

Lemma group_is_filter (ds : list listEntry) (c : string) :
  obj.get c (groupedDistributions ds)
  = match List.filter (fun e => bool_decide (category_of e = c)) ds with
    | [] => None
    | group => Some group
    end.
Proof.
  induction ds as [|e ds IH] using rev_ind; [reflexivity|].
  rewrite groupedDistributions_snoc, List.filter_app. cbn [List.filter].
  destruct (decide (category_of e = c)) as [E|E].
  - rewrite bool_decide_true by exact E. subst c. rewrite IH.
    destruct (List.filter _ ds) as [|e0 g]; rewrite obj_get_set_eq; reflexivity.
  - rewrite bool_decide_false by exact E. rewrite app_nil_r, <- IH.
    destruct (obj.get (category_of e) (groupedDistributions ds));
      apply obj_get_set_ne; exact E.
Qed.

(** X11. For categories that are plain keys, [groupedDistributions] files
    every entry under its category ("Other" when it has none) in the
    order of the list, and has no empty group.  On the list of the catalog
    the groups are those of [distributionCategories].  A distribution is
    discrete exactly when it is plotted with bars, and exactly when its
    category is "Discrete". *)
Theorem selector_groups :
  (forall (ds : list listEntry) (c : string),
      Forall (fun e => obj.plain_key (category_of e) = true) ds ->
      obj.plain_key c = true ->
      obj.get c (groupedDistributions ds)
      = match List.filter (fun e => bool_decide (category_of e = c)) ds with
        | [] => None
        | group => Some group
        end)
  /\ map (fun g => (fst g, map DistributionCatalog.name (snd g)))
       (groupedDistributions getDistributionList)
     = distributionCategories
  /\ (forall d : dist,
        (spec.type d = discrete <-> spec.plotType d = bar)
        /\ (spec.type d = discrete <-> spec.category d = "Discrete"%string)).
Proof.
  split; [intros ds c _ _; apply group_is_filter|]. split; [vm_compute; reflexivity|].
  intros d. destruct d; split; split; intros H; first [reflexivity | discriminate H].
Qed.

End Selector.

Section Ticks.
Local Open Scope num_scope.
Import PlotViewer.

Lemma fold_max_finite (xs : list num) (a : Q) :
  Forall (fun v => isFinite v = true) xs ->
  exists m : Q, fold_left Math_max xs (Num a) = Num m /\ (a <= m)%Q.
Proof.
  revert a. induction xs as [|v xs IH]; intros a H.
  - exists a. split; [reflexivity | lra].
  - apply Forall_cons in H as [Hv H]. destruct v as [| | |q]; try discriminate.
    cbn [fold_left]. destruct (Math_max_Num a q) as (c & E & H1 & H2). rewrite E.
    destruct (IH c H) as (m & Em & Hm). exists m. split; [exact Em | lra].
Qed.

Lemma fold_min_finite (xs : list num) (a : Q) :
  Forall (fun v => isFinite v = true) xs ->
  exists m : Q, fold_left Math_min xs (Num a) = Num m /\ (m <= a)%Q.
Proof.
  revert a. induction xs as [|v xs IH]; intros a H.
  - exists a. split; [reflexivity | lra].
  - apply Forall_cons in H as [Hv H]. destruct v as [| | |q]; try discriminate.
    cbn [fold_left].
    assert (exists c, Math_min (Num a) (Num q) = Num c /\ (c <= a)%Q) as (c & E & H1).
    { unfold Math_min, ncmp. destruct (a ?= q)%Q eqn:C.
      - exists a. split; [reflexivity | lra].
      - exists a. split; [reflexivity | lra].
      - apply Qgt_alt in C. exists q. split; [reflexivity | lra]. }
    rewrite E. destruct (IH c H) as (m & Em & Hm). exists m. split; [exact Em | lra].
Qed.

(** X12. For a non-empty list of finite abscissae, the tick spacing of a
    bar plot is at least 1 and the range of the abscissae is at most 25
    spacings (in exact arithmetic). *)
Theorem dtick_bounds (xs : list num) :
  xs <> [] -> Forall (fun v => isFinite v = true) xs ->
  exists (range t : Q),
    Math_max_of xs - Math_min_of xs = Num range /\ dtick xs = Num t
    /\ (0 <= range)%Q /\ (1 <= t)%Q /\ (range <= 25 * t)%Q.
Proof.
  intros Hne H. destruct xs as [|v xs]; [contradiction|].
  apply Forall_cons in H as [Hv H]. destruct v as [| | |q]; try discriminate.
  unfold dtick, Math_max_of, Math_min_of. cbn [fold_left].
  change (Math_max NegInfinity (Num q)) with (Num q).
  change (Math_min Infinity (Num q)) with (Num q).
  destruct (fold_max_finite xs q H) as (hi & -> & Hhi).
  destruct (fold_min_finite xs q H) as (lo & -> & Hlo).
  cbn [nsub nadd nneg]. unfold fin. set (r := Qred (hi + Qred (- lo))).
  assert (Hr : (r == hi - lo)%Q) by (unfold r; rewrite !Qred_correct; lra).
  exists r. unfold ngt.
  assert (C : forall k : Q, (0 < k)%Q -> (k <= 25)%Q -> (k < r)%Q ->
            exists t : Q, Math_ceil (Num r / Num k) = Num t
                          /\ (1 <= t)%Q /\ (r <= 25 * t)%Q).
  { intros k K0 K25 Kr. rewrite ndiv_Num by lra. cbn [Math_ceil].
    eexists. split; [reflexivity|].
    set (z := Qceiling (Qred (r / k))).
    assert (L : (r / k <= inject_Z z)%Q).
    { apply Qle_trans with (Qred (r / k)); [rewrite Qred_correct; lra|].
      apply Qle_ceiling. }
    assert (D : (1 < r / k)%Q) by (apply Qlt_shift_div_l; lra).
    assert (R : (r == r / k * k)%Q) by (field; lra).
    set (u := (r / k)%Q) in *. split; [lra | nra]. }
  destruct (Num 100 <? Num r) eqn:E1.
  { apply nlt_Num in E1. destruct (C 20%Q) as (t & Et & T1 & T2); try lra.
    exists t. rewrite Et. repeat split; lra. }
  destruct (Num 50 <? Num r) eqn:E2.
  { apply nlt_Num in E2. destruct (C 25%Q) as (t & Et & T1 & T2); try lra.
    exists t. rewrite Et. repeat split; lra. }
  destruct (Num 20 <? Num r) eqn:E3.
  { apply nlt_Num in E3. destruct (C 20%Q) as (t & Et & T1 & T2); try lra.
    exists t. rewrite Et. repeat split; lra. }
  apply nlt_Num_false in E3. exists 1%Q. repeat split; lra.
Qed.

End Ticks.

(* ================================================================== *)
(** * The points of a plot *)
(* ================================================================== *)

Section PlotFacts.
Context {M : MathLib}.
Local Open Scope num_scope.
Import usePlotData.

Lemma clean_finite (v : num) : isFinite (clean v) = true.
Proof. destruct v; reflexivity. Qed.

Lemma negativeBinomial_coeff_loop_more (fuel fuel' : nat) (k r i coeff v : num) :
  negativeBinomial.coeff_loop fuel k r i coeff = Some v -> (fuel <= fuel')%nat ->
  negativeBinomial.coeff_loop fuel' k r i coeff = Some v.
Proof.
  revert fuel' i coeff. induction fuel as [|fuel IH]; intros fuel' i coeff H Hle.
  - simpl in H. destruct fuel'; simpl; destruct (i <? r - 1); congruence.
  - destruct fuel' as [|fuel']; [lia|]. simpl in *.
    destruct (i <? r - 1); [|exact H]. apply IH; [exact H | lia].
Qed.

(** More fuel does not change the value an evaluator returns. *)
Lemma pdfFunctions_more (d : dist) (fuel fuel' : nat) (args : list num) (v : num) :
  pdfFunctions d fuel args = Some v -> (fuel <= fuel')%nat ->
  pdfFunctions d fuel' args = Some v.
Proof.
  intros H Hle.
  destruct d;
    repeat (let a := fresh "a" in
            destruct args as [|a args]; cbn [pdfFunctions] in H; try discriminate H);
    try exact H; cbn [pdfFunctions] in *.
  - exact (binomial_pdf_more _ _ _ _ _ _ H Hle).
  - unfold negativeBinomial.pdf in *.
    match goal with |- context [if ?c then _ else _] => destruct c end; [exact H|].
    destruct (negativeBinomial.coeff_loop fuel a a0 0 1) as [c|] eqn:E; [|discriminate].
    rewrite (negativeBinomial_coeff_loop_more _ _ _ _ _ _ _ E Hle). exact H.
Qed.

Lemma adjusted_length (n : nat) (args : list num) :
  length (firstn n (args ++ repeat NaN n)) = n.
Proof. rewrite length_firstn, length_app, repeat_length. lia. Qed.

Lemma apply_pdf_more (d : dist) (fuel fuel' : nat) (args : list num) (v : num) :
  apply_pdf d fuel args = Some v -> (fuel <= fuel')%nat ->
  apply_pdf d fuel' args = Some v.
Proof. apply pdfFunctions_more. Qed.

(** At an evaluation point that is not above [2^53] the call returns. *)
Lemma apply_pdf_total (d : dist) (x : num) (parameters : list num) :
  (x >? Num (inject_Z (2 ^ 53))) = false ->
  exists fuel v, apply_pdf d fuel (x :: parameters) = Some v.
Proof.
  intros B. unfold apply_pdf.
  pose proof (adjusted_length (arity d) (x :: parameters)) as L.
  destruct (firstn (arity d) ((x :: parameters) ++ repeat NaN (arity d)))
    as [|x' ps] eqn:E.
  - destruct d; discriminate L.
  - assert (X : x' = x) by (destruct d; cbn in E; congruence). subst x'.
    apply pdfFunctions_total; assumption.
Qed.

(** The evaluators of the continuous distributions have no loop. *)
Lemma apply_pdf_continuous (d : dist) (fuel : nat) (args : list num) :
  spec.type d = continuous -> exists v, apply_pdf d fuel args = Some v.
Proof.
  intros Hd. unfold apply_pdf.
  pose proof (adjusted_length (arity d) args) as L.
  destruct d; try discriminate Hd;
    destruct (firstn _ _) as [|a0 [|a1 [|a2 [|a3 [|a4 [|a5 l]]]]]];
    try discriminate L; cbn [pdfFunctions]; eauto.
Qed.

Lemma continuous_loop_runs (pdf : list num -> option num) (parameters : list num)
    (lo step : num) (indices : list nat) :
  (forall args, exists v, pdf args = Some v) ->
  exists xs ys,
    continuous_loop pdf parameters lo step indices = Some (xs, ys)
    /\ xs = map (fun i => lo + mathUtils.of_nat i * step) indices
    /\ Forall2 (fun xi yi => exists v, pdf (xi :: parameters) = Some v /\ yi = clean v)
         xs ys.
Proof.
  intros Hpdf. induction indices as [|i indices IH].
  - exists [], []. repeat split. constructor.
  - destruct IH as (xs & ys & E & Ex & Ey). cbn [continuous_loop].
    destruct (Hpdf ((lo + mathUtils.of_nat i * step) :: parameters)) as [v Hv].
    rewrite Hv, E. eexists _, _. split; [reflexivity|]. split.
    + cbn [map]. f_equal. exact Ex.
    + constructor; [eauto | exact Ey].
Qed.

(** X13. For a continuous distribution [generatePDFData] returns a plot,
    whatever the parameters and the estimated window are: the 201
    abscissae [min + i * step] with [step = (max - min) / 200], and as
    many ordinates, each finite: the value of the evaluator at the
    abscissa, or 0 where that value is NaN or infinite. *)
Theorem continuous_plot_points (fuel : nat) (d : dist) (effectiveParameters : obj.t num) :
  spec.type d = continuous ->
  let range := rangeCalculators d (to_params effectiveParameters) in
  let step := (max range - min range) / 200 in
  exists ys : list num,
    generatePDFData fuel d effectiveParameters
    = Some (Some {| x := map (fun i => min range + mathUtils.of_nat i * step) (seq 0 201);
                    y := ys; type := continuous; plotType := line |})
    /\ length ys = 201%nat
    /\ Forall (fun yi => isFinite yi = true) ys
    /\ Forall2 (fun xi yi =>
                  exists v, apply_pdf d fuel (xi :: obj.values effectiveParameters) = Some v
                            /\ yi = clean v)
         (map (fun i => min range + mathUtils.of_nat i * step) (seq 0 201)) ys.
Proof.
  intros Hd range step. unfold generatePDFData. fold range.
  assert (T : spec.plotType d = line) by (destruct d; first [reflexivity | discriminate Hd]).
  rewrite Hd, T.
  destruct (continuous_loop_runs (apply_pdf d fuel) (obj.values effectiveParameters)
              (min range) step (seq 0 201)
              (fun args => apply_pdf_continuous d fuel args Hd))
    as (xs & ys & E & Ex & Ey).
  change ((max range - min range) / mathUtils.of_nat 200) with step.
  rewrite E. subst xs.
  assert (L : length ys = 201%nat).
  { apply Forall2_length in Ey. rewrite length_map, length_seq in Ey. lia. }
  exists ys. rewrite length_map, length_seq, L. cbn [Nat.eqb orb negb].
  repeat split; try assumption.
  clear - Ey. induction Ey as [|xi yi xs ys (v & _ & ->) _ IH]; constructor;
    [apply clean_finite | exact IH].
Qed.

Lemma integers_from_S (z : Z) (n : nat) :
  integers_from z (S n) = Num (inject_Z z) :: integers_from (z + 1) n.
Proof.
  unfold integers_from. cbn [seq map]. rewrite Z.add_0_r. f_equal.
  rewrite <- seq_shift, map_map. apply map_ext. intros i.
  do 2 f_equal. lia.
Qed.

Lemma discrete_loop_runs (pdf : list num -> option num) (parameters : list num)
    (n : nat) (z maxZ : Z) (fuel : nat) :
  (0 <= z)%Z -> (maxZ < 2 ^ 53)%Z ->
  n = Z.to_nat (maxZ - z + 1) -> (n <= fuel)%nat ->
  (forall xi, In xi (integers_from z n) -> exists v, pdf (xi :: parameters) = Some v) ->
  exists ys,
    discrete_loop fuel pdf parameters (Num (inject_Z z)) (Num (inject_Z maxZ))
    = Some (integers_from z n, ys)
    /\ Forall2 (fun xi yi => exists v, pdf (xi :: parameters) = Some v /\ yi = clean v)
         (integers_from z n) ys.
Proof.
  intros H0 H53. revert z fuel H0.
  induction n as [|n IH]; intros z fuel H0 Hn Hfuel Hpdf.
  - exists []. split; [|constructor].
    assert (E : (Num (inject_Z z) <=? Num (inject_Z maxZ)) = false).
    { apply nle_Num_false. rewrite <- Zlt_Qlt. lia. }
    destruct fuel; cbn [discrete_loop]; rewrite E; reflexivity.
  - destruct fuel as [|fuel]; [lia|]. cbn [discrete_loop].
    assert (E : (Num (inject_Z z) <=? Num (inject_Z maxZ)) = true).
    { apply nle_Num. rewrite <- Zle_Qle. lia. }
    rewrite E, integers_from_S.
    destruct (Hpdf (Num (inject_Z z))) as [v Hv];
      [rewrite integers_from_S; left; reflexivity|].
    rewrite Hv, increment_exact by lia.
    destruct (IH (z + 1)%Z fuel) as (ys & Eys & F); [lia | lia | lia | |].
    { intros xi Hxi. apply Hpdf. rewrite integers_from_S. right. exact Hxi. }
    rewrite Eys. exists (clean v :: ys). split; [reflexivity|].
    constructor; [eauto | exact F].
Qed.

(** One bound serves every point of a finite list of points that are
    not above [2^53]. *)
Lemma fuel_for_points (d : dist) (parameters : list num) (xs : list num) :
  Forall (fun xi => (xi >? Num (inject_Z (2 ^ 53))) = false) xs ->
  exists fuel0, forall fuel, (fuel0 <= fuel)%nat ->
    forall xi, In xi xs -> exists v, apply_pdf d fuel (xi :: parameters) = Some v.
Proof.
  induction 1 as [|x xs Hx _ (f & IH)].
  - exists 0%nat. intros fuel _ xi [].
  - destruct (apply_pdf_total d x parameters Hx) as (f0 & v & Hv).
    exists (Nat.max f0 f). intros fuel Hfuel xi [<- | Hxi].
    + exists v. apply (apply_pdf_more d f0); [exact Hv | lia].
    + apply IH; [lia | exact Hxi].
Qed.

Lemma integers_from_below (z m bound : Z) :
  (m <= bound)%Z ->
  Forall (fun xi => (xi >? Num (inject_Z bound)) = false)
    (integers_from z (Z.to_nat (m - z + 1))).
Proof.
  intros H. unfold integers_from. apply List.Forall_forall. intros xi Hxi.
  apply in_map_iff in Hxi. destruct Hxi as (i & <- & Hi). apply in_seq in Hi.
  unfold ngt. apply nlt_Num_false. rewrite <- Zle_Qle. lia.
Qed.

Lemma first_point (a : Q) :
  Math_max 0 (Math_ceil (Num a)) = Num (inject_Z (Z.max 0 (Qceiling a))).
Proof.
  cbn [Math_ceil]. unfold Math_max, ncmp. set (c := Qceiling a).
  destruct (0 ?= inject_Z c)%Q eqn:E.
  - apply Qeq_alt in E. unfold Qeq in E. simpl in E.
    replace (Z.max 0 c) with 0%Z by lia. reflexivity.
  - apply Qlt_alt in E. unfold Qlt in E. simpl in E.
    replace (Z.max 0 c) with c by lia. reflexivity.
  - apply Qgt_alt in E. unfold Qlt in E. simpl in E.
    replace (Z.max 0 c) with 0%Z by lia. reflexivity.
Qed.

(** X14. For a discrete distribution whose estimated window [[a, b]] is
    finite, with [floor b] below [2^53] (so that the counter [xi] is
    exact) and fewer than [2^32] integers from [max 0 (ceil a)] to
    [floor b] (so that they fit in an array), the loop of
    [generatePDFData] ends.  The result is [null] when
    [floor b < max 0 (ceil a)], and otherwise a bar plot on the
    consecutive integers from [max 0 (ceil a)] to [floor b], with finite
    ordinates: the value of the evaluator, or 0 where that value is NaN
    or infinite. *)
Theorem discrete_plot_points (d : dist) (effectiveParameters : obj.t num) (a b : Q) :
  spec.type d = discrete ->
  rangeCalculators d (to_params effectiveParameters) = {| min := Num a; max := Num b |} ->
  let minX := Z.max 0 (Qceiling a) in
  let maxX := Qfloor b in
  let xs := integers_from minX (Z.to_nat (maxX - minX + 1)) in
  (maxX < 2 ^ 53)%Z -> (maxX - minX + 1 < 2 ^ 32)%Z ->
  exists fuel0, forall fuel, (fuel0 <= fuel)%nat ->
    exists ys : list num,
      generatePDFData fuel d effectiveParameters
      = (if (maxX <? minX)%Z then Some None
         else Some (Some {| x := xs; y := ys; type := discrete; plotType := bar |}))
      /\ Forall (fun yi => isFinite yi = true) ys
      /\ Forall2 (fun xi yi =>
                    exists v, apply_pdf d fuel (xi :: obj.values effectiveParameters) = Some v
                              /\ yi = clean v) xs ys.
Proof.
  intros Hd Hr minX maxX xs H53 _.
  assert (T : spec.plotType d = bar) by (destruct d; first [reflexivity | discriminate Hd]).
  destruct (fuel_for_points d (obj.values effectiveParameters) xs) as (f & Hf).
  { apply integers_from_below. lia. }
  exists (Nat.max f (Z.to_nat (maxX - minX + 1))). intros fuel Hfuel.
  destruct (discrete_loop_runs (apply_pdf d fuel) (obj.values effectiveParameters)
              (Z.to_nat (maxX - minX + 1)) minX maxX fuel
              ltac:(unfold minX; lia) H53 eq_refl)
    as (ys & E & F); [lia | apply Hf; lia |]. fold xs in E, F.
  exists ys. unfold generatePDFData. rewrite Hr, Hd, T. cbn [min max].
  rewrite first_point. cbn [Math_floor]. fold minX maxX. rewrite E.
  assert (L : length ys = length xs) by (symmetry; exact (Forall2_length _ _ _ F)).
  assert (Lx : length xs = Z.to_nat (maxX - minX + 1))
    by (unfold xs, integers_from; rewrite length_map, length_seq; reflexivity).
  split; [|split; [|exact F]].
  - rewrite L, Nat.eqb_refl, orb_false_r, orb_diag.
    destruct (maxX <? minX)%Z eqn:C.
    + apply Z.ltb_lt in C. rewrite Lx.
      replace (Z.to_nat (maxX - minX + 1)) with 0%nat by lia. reflexivity.
    + apply Z.ltb_ge in C. destruct (length xs =? 0)%nat eqn:Z0; [|reflexivity].
      apply Nat.eqb_eq in Z0. lia.
  - clear - F. induction F as [|xi yi xs' ys' (v & _ & ->) _ IH]; constructor;
      [apply clean_finite | exact IH].
Qed.

End PlotFacts.

(* ================================================================== *)
(** * The kernel at its edges *)
(* ================================================================== *)

(** Arithmetic on finite numbers, as rationals. *)
Ltac on_rationals :=
  repeat (progress (rewrite ?nadd_Num, ?nsub_Num, ?nmul_Num, ?nneg_Num)).

Section SafeOperations.
Context {M : MathLib}.
Local Open Scope num_scope.

(** X15. [safeLog] never returns NaN, and it returns [-Infinity] exactly
    when its argument is not above 0 (a NaN argument included). *)
Theorem safeLog_never_NaN (x : num) :
  isNaN (mathUtils.safeLog x) = false
  /\ (mathUtils.safeLog x = NegInfinity <-> (x >? 0) = false).
Proof.
  unfold mathUtils.safeLog. destruct (x >? 0) eqn:E.
  - destruct x as [| | |q]; try discriminate E.
    + split; [reflexivity|]. split; discriminate.
    + unfold ngt in E. to_Q. unfold Math_log, Qlt_bool.
      replace (Qle_bool 0 q) with true by (symmetry; apply Qle_bool_iff; lra).
      cbn [negb]. destruct (Qeq_bool q 0) eqn:E0; [to_Q; lra|].
      destruct (Qeq_bool q 1); (split; [reflexivity | split; discriminate]).
  - split; [reflexivity | split; reflexivity].
Qed.

(** [e % 1 !== 0] holds exactly when [e] is not an integer. *)
Lemma integer_is_own_truncation (e : Q) :
  Qis_integer e = true -> (e == inject_Z (Qtrunc (e / 1)))%Q.
Proof.
  unfold Qis_integer. intros H. apply Pos.eqb_eq in H.
  assert (E : (e == inject_Z (Qnum (Qred e)))%Q).
  { rewrite <- (Qred_correct e) at 1. destruct (Qred e) as [n d]. simpl in *.
    subst d. reflexivity. }
  set (z := Qnum (Qred e)) in *.
  assert (E1 : (e / 1 == inject_Z z)%Q) by (rewrite E; field).
  unfold Qtrunc. destruct (Qle_bool 0 (e / 1)).
  - rewrite E1, Qfloor_Z. exact E.
  - rewrite E1, Qceiling_Z. exact E.
Qed.

Lemma remainder_test (e : Q) :
  (Num e % 1 !== 0) = negb (Number_isInteger (Num e)).
Proof.
  unfold strict_ne. f_equal. cbn [nrem]. change (Qeq_bool 1 0) with false. cbv iota.
  unfold fin, Number_isInteger. fold (Qis_integer e).
  destruct (Qis_integer e) eqn:I.
  - apply strict_eq_Num. rewrite Qred_correct.
    pose proof (integer_is_own_truncation e I) as T. lra.
  - apply strict_eq_Num_false. rewrite Qred_correct. intros T.
    assert (E : (e == inject_Z (Qtrunc (e / 1)))%Q) by lra.
    unfold Qis_integer in I. rewrite (Qred_complete _ _ E), Qden_Qred_inject_Z in I.
    discriminate.
Qed.

(** X16. For a finite exponent [e], [safePow base e] is NaN exactly when
    the base is NaN and [e] is not 0, or the base is negative and [e] is
    not an integer. *)
Theorem safePow_NaN_iff (base : num) (e : Q) :
  isNaN (mathUtils.safePow base (Num e))
  = (isNaN base && negb (Qeq_bool e 0))
    || ((base <? 0) && negb (Number_isInteger (Num e))).
Proof.
  unfold mathUtils.safePow. rewrite remainder_test.
  unfold Number_isInteger. fold (Qis_integer e).
  destruct base as [| | |b].
  - cbn. destruct (Qeq_bool e 0); reflexivity.
  - cbn. destruct (Qeq_bool e 0); [reflexivity|]. destruct (Qlt_bool 0 e); reflexivity.
  - change (NegInfinity === 0) with false. change (NegInfinity <? 0) with true.
    cbn [andb orb isNaN]. destruct (Qis_integer e) eqn:I; cbn [negb]; [|reflexivity].
    unfold Math_pow, pow_finite. destruct (Qeq_bool e 0); [reflexivity|].
    destruct (Qlt_bool 0 e); [|reflexivity]. destruct (Qis_odd_integer e); reflexivity.
  - cbn [isNaN andb orb]. destruct ((Num b === 0) && (Num e === 0)) eqn:Z.
    + apply andb_true_iff in Z as [Zb Ze]. to_Q.
      replace (Num b <? 0) with false by (symmetry; apply nlt_Num_false; lra).
      reflexivity.
    + destruct (Num b <? 0) eqn:B; cbn [andb]; destruct (Qis_integer e) eqn:I;
        cbn [negb]; try reflexivity.
      * unfold Math_pow. destruct (Qeq_bool e 0); [reflexivity|].
        unfold pow_finite. rewrite I. destruct (Qeq_bool b 0).
        { destruct (Qlt_bool 0 e); reflexivity. }
        rewrite andb_false_r. reflexivity.
      * unfold Math_pow. destruct (Qeq_bool e 0); [reflexivity|].
        unfold pow_finite. rewrite I. destruct (Qeq_bool b 0).
        { destruct (Qlt_bool 0 e); reflexivity. }
        rewrite andb_false_r. reflexivity.
      * unfold Math_pow. destruct (Qeq_bool e 0); [reflexivity|].
        unfold pow_finite. rewrite I. destruct (Qeq_bool b 0).
        { destruct (Qlt_bool 0 e); reflexivity. }
        to_Q. replace (Qlt_bool b 0) with false; [reflexivity|].
        symmetry. unfold Qlt_bool. apply negb_false_iff, Qle_bool_iff. exact B.
Qed.

End SafeOperations.

Section KernelEdges.
Context {M : MathLib}.
Local Open Scope num_scope.

(** X17. On a NaN argument [gamma], [logGamma], [logFactorial], [beta] (in
    either argument), [besselI0], [erfc] and [normalCDF] return NaN, while
    [safeLog] returns [-Infinity] and [safePow] with exponent 0 returns
    1. *)
Theorem kernel_NaN_propagation :
  mathUtils.gamma NaN = NaN
  /\ mathUtils.logGamma NaN = NaN
  /\ mathUtils.logFactorial NaN = NaN
  /\ (forall b : num, mathUtils.beta NaN b = NaN)
  /\ (forall a : num, mathUtils.beta a NaN = NaN)
  /\ mathUtils.besselI0 NaN = NaN
  /\ mathUtils.erfc NaN = NaN
  /\ mathUtils.normalCDF NaN = NaN
  /\ mathUtils.safeLog NaN = NegInfinity
  /\ mathUtils.safePow NaN 0 = 1.
Proof.
  assert (B : forall b : num, mathUtils.beta NaN b = NaN).
  { intros b. unfold mathUtils.beta. change (NaN <=? 0) with false.
    change (NaN >? 50) with false. change (NaN + b) with NaN.
    change (NaN >? 50) with false. cbn [orb].
    destruct (b <=? 0); [reflexivity|]. rewrite orb_false_r.
    rewrite (@gamma_NaN M), (@logGamma_NaN M). destruct (b >? 50); reflexivity. }
  repeat split; try reflexivity; [exact B|].
  intros a. unfold mathUtils.beta. change (NaN <=? 0) with false.
  change (NaN >? 50) with false. rewrite nadd_NaN_r.
  change (NaN >? 50) with false. rewrite !orb_false_r.
  destruct (a <=? 0); [reflexivity|].
  rewrite (@gamma_NaN M), (@logGamma_NaN M), nadd_NaN_r, nmul_NaN_r.
  destruct (a >? 50); reflexivity.
Qed.

End KernelEdges.

Section Bessel.
Context {M : MathLib}.
Local Open Scope num_scope.

Lemma Math_abs_opp (z : num) : Math_abs (- z) = Math_abs z.
Proof.
  destruct z as [| | |q]; try reflexivity. unfold nneg, fin. cbn [Math_abs].
  unfold fin. f_equal.
  apply Qred_complete. rewrite Qred_correct. apply Qabs_opp.
Qed.

Lemma Math_pow_square (u : Q) :
  exists w : Q, Math_pow (Num u) 2 = Num w /\ (w == u * u)%Q.
Proof.
  unfold Math_pow. change (Qeq_bool 2 0) with false. cbv iota.
  unfold pow_finite. change (Qlt_bool 0 2) with true. change (Qis_integer 2) with true.
  destruct (Qeq_bool u 0) eqn:E.
  - to_Q. exists 0%Q. split; [reflexivity | nra].
  - rewrite andb_false_r. exists (Qred (u * u)). split; [reflexivity|].
    apply Qred_correct.
Qed.

Lemma besselI0_small (A : Q) :
  (0 <= A)%Q -> (A < 3.75)%Q ->
  exists v : Q, mathUtils.besselI0 (Num A) = Num v /\ (1 <= v)%Q.
Proof.
  intros H0 H1. unfold mathUtils.besselI0.
  assert (EA : Math_abs (Num A) = Num (Qred (Qabs A))) by reflexivity.
  rewrite EA. set (A' := Qred (Qabs A)).
  assert (HA : (A' == A)%Q) by (unfold A'; rewrite Qred_correct; apply Qabs_pos; exact H0).
  replace (Num A' <? 3.75) with true by (symmetry; apply nlt_Num; lra).
  rewrite ndiv_Num by discriminate.
  destruct (Math_pow_square (Qred (A' / 3.75))) as (w & -> & Hw).
  on_rationals. eexists. split; [reflexivity|].
  rewrite !Qred_correct.
  assert (W : (0 <= w)%Q) by (rewrite Hw; nra).
  assert (R5 : (0 <= 0.0360768 + w * 0.0045813)%Q) by nra.
  assert (R4 : (0 <= 0.2659732 + w * (0.0360768 + w * 0.0045813))%Q) by nra.
  assert (R3 : (0 <= 1.2067492 + w * (0.2659732 + w * (0.0360768 + w * 0.0045813)))%Q)
    by nra.
  assert (R2 : (0 <= 3.0899424 + w * (1.2067492 + w * (0.2659732
                       + w * (0.0360768 + w * 0.0045813))))%Q) by nra.
  assert (R1 : (0 <= 3.5156229 + w * (3.0899424 + w * (1.2067492 + w * (0.2659732
                       + w * (0.0360768 + w * 0.0045813)))))%Q) by nra.
  nra.
Qed.

Lemma bessel_tail_positive (t : Q) :
  (0 < t)%Q -> (t <= 1)%Q ->
  (0 < 0.39894228 + t * (0.01328592 + t * (0.00225319 + t * (- 0.00157565
         + t * (0.00916281 + t * (- 0.02057706 + t * (0.02635537
         + t * (- 0.01647633 + t * 0.00392377))))))))%Q.
Proof.
  intros H0 H1.
  set (r7 := (- 0.01647633 + t * 0.00392377)%Q).
  assert (B7 : (- 0.02 <= r7 /\ r7 <= 0)%Q) by (unfold r7; split; nra). clearbody r7.
  set (r6 := (0.02635537 + t * r7)%Q).
  assert (B6 : (0 <= r6 /\ r6 <= 0.03)%Q) by (unfold r6; split; nra). clearbody r6.
  set (r5 := (- 0.02057706 + t * r6)%Q).
  assert (B5 : (- 0.03 <= r5 /\ r5 <= 0.01)%Q) by (unfold r5; split; nra). clearbody r5.
  set (r4 := (0.00916281 + t * r5)%Q).
  assert (B4 : (- 0.03 <= r4 /\ r4 <= 0.02)%Q) by (unfold r4; split; nra). clearbody r4.
  set (r3 := (- 0.00157565 + t * r4)%Q).
  assert (B3 : (- 0.04 <= r3 /\ r3 <= 0.02)%Q) by (unfold r3; split; nra). clearbody r3.
  set (r2 := (0.00225319 + t * r3)%Q).
  assert (B2 : (- 0.04 <= r2 /\ r2 <= 0.03)%Q) by (unfold r2; split; nra). clearbody r2.
  set (r1 := (0.01328592 + t * r2)%Q).
  assert (B1 : (- 0.03 <= r1 /\ r1 <= 0.05)%Q) by (unfold r1; split; nra). clearbody r1.
  nra.
Qed.

Lemma besselI0_large (A : Q) :
  (3.75 <= A)%Q ->
  exists v : Q, mathUtils.besselI0 (Num A) = Num v /\ (0 < v)%Q.
Proof.
  intros H1. unfold mathUtils.besselI0.
  assert (EA : Math_abs (Num A) = Num (Qred (Qabs A))) by reflexivity.
  rewrite EA. set (A' := Qred (Qabs A)).
  assert (HA : (A' == A)%Q) by (unfold A'; rewrite Qred_correct; apply Qabs_pos; lra).
  replace (Num A' <? 3.75) with false by (symmetry; apply nlt_Num_false; lra).
  rewrite (ndiv_Num 3.75 A') by lra.
  destruct (Math_exp_Num A') as (e & -> & _ & He). specialize (He ltac:(lra)).
  destruct (Math_sqrt_Num A') as (s & -> & _ & Hs); [lra|].
  specialize (Hs ltac:(lra)).
  rewrite (ndiv_Num e s) by lra.
  on_rationals. eexists. split; [reflexivity|].
  rewrite !Qred_correct.
  assert (T0 : (0 < 3.75 / A')%Q) by (apply Qlt_shift_div_l; lra).
  assert (T1 : (3.75 / A' <= 1)%Q) by (apply Qle_shift_div_r; lra).
  assert (ES : (0 < e / s)%Q) by (apply Qlt_shift_div_l; lra).
  set (t := (3.75 / A')%Q) in *. set (es := (e / s)%Q) in *.
  pose proof (bessel_tail_positive t T0 T1) as P.
  match goal with |- (0 < es * ?p)%Q => set (poly := p) end.
  assert (Pp : (0 < poly)%Q) by (unfold poly; lra).
  clearbody poly. nra.
Qed.

Lemma besselI0_value (q : Q) :
  exists v : Q, mathUtils.besselI0 (Num q) = Num v /\ (0 < v)%Q
                /\ ((Qabs q < 3.75)%Q -> (1 <= v)%Q).
Proof.
  assert (E : mathUtils.besselI0 (Num q) = mathUtils.besselI0 (Num (Qred (Qabs q)))).
  { unfold mathUtils.besselI0.
    replace (Math_abs (Num (Qred (Qabs q)))) with (Math_abs (Num q)); [reflexivity|].
    cbn [Math_abs]. unfold fin. f_equal. apply Qred_complete.
    rewrite Qred_correct. symmetry. apply Qabs_pos, Qabs_nonneg. }
  pose proof (Qabs_nonneg q) as N. pose proof (Qred_correct (Qabs q)) as R.
  destruct (Qlt_le_dec (Qabs q) 3.75) as [L|L].
  - destruct (besselI0_small (Qred (Qabs q))) as (v & Ev & Hv); [lra | lra |].
    exists v. rewrite E, Ev. repeat split; [lra | intros _; exact Hv].
  - destruct (besselI0_large (Qred (Qabs q))) as (v & Ev & Hv); [lra|].
    exists v. rewrite E, Ev. repeat split; [exact Hv | intros C; lra].
Qed.

(** X18. [besselI0] is even.  On a finite argument its value is above 0,
    and it is at least 1 where the polynomial branch ([|z| < 3.75]) is
    taken. *)
Theorem besselI0_even_positive :
  (forall z : num, mathUtils.besselI0 (- z) = mathUtils.besselI0 z)
  /\ (forall q : Q, (mathUtils.besselI0 (Num q) >? 0) = true)
  /\ (forall q : Q,
        (Qabs q < 3.75)%Q -> (mathUtils.besselI0 (Num q) >=? 1) = true).
Proof.
  split; [|split].
  - intros z. unfold mathUtils.besselI0. rewrite Math_abs_opp. reflexivity.
  - intros q. destruct (besselI0_value q) as (v & -> & P & _).
    unfold ngt. apply nlt_Num. exact P.
  - intros q H. destruct (besselI0_value q) as (v & -> & _ & L).
    unfold nge. apply nle_Num. exact (L H).
Qed.

End Bessel.

Section Erfc.
Context {M : MathLib}.
Local Open Scope num_scope.

Lemma erfc_by_sign (u : num) :
  mathUtils.erfc u
  = if u <? 0 then 1 + erfZ (Math_abs u) else 1 - erfZ (Math_abs u).
Proof. unfold mathUtils.erfc, erfZ. destruct (u <? 0); reflexivity. Qed.

Lemma erfZ_finite (z : Q) : (0 <= z)%Q -> exists e : Q, erfZ (Num z) = Num e.
Proof.
  intros Hz. unfold erfZ. on_rationals.
  rewrite ndiv_Num by (rewrite !Qred_correct; lra). on_rationals.
  destruct (Math_exp_Num (Qred (Qred (- z) * z))) as (e & -> & _).
  on_rationals. eexists. reflexivity.
Qed.

Lemma erfc_pair (u : Q) :
  ~ (u == 0)%Q ->
  exists a b : Q,
    mathUtils.erfc (Num u) = Num a /\ mathUtils.erfc (- Num u) = Num b
    /\ (a + b == 2)%Q.
Proof.
  intros Hu. rewrite !erfc_by_sign, Math_abs_opp.
  destruct (erfZ_finite (Qred (Qabs u))) as (e & He).
  { rewrite Qred_correct. apply Qabs_nonneg. }
  change (Math_abs (Num u)) with (Num (Qred (Qabs u))). rewrite He.
  rewrite nneg_Num.
  destruct (Qlt_le_dec u 0) as [L|L].
  - replace (Num u <? 0) with true by (symmetry; apply nlt_Num; exact L).
    replace (Num (Qred (- u)) <? 0) with false
      by (symmetry; apply nlt_Num_false; rewrite Qred_correct; lra).
    on_rationals. eexists _, _. repeat split. rewrite !Qred_correct. lra.
  - replace (Num u <? 0) with false by (symmetry; apply nlt_Num_false; exact L).
    replace (Num (Qred (- u)) <? 0) with true.
    2:{ symmetry; apply nlt_Num. rewrite Qred_correct.
        destruct (Qlt_le_dec 0 u) as [P|P]; [lra|]. exfalso. apply Hu. lra. }
    on_rationals. eexists _, _. repeat split. rewrite !Qred_correct. lra.
Qed.

(** X19. In exact arithmetic [erfc u + erfc (-u) = 2] and
    [normalCDF u + normalCDF (-u) = 1] for every finite [u] other than 0.
    At 0, where the branch [x >= 0] serves both signs, [erfc] is
    [0.999999999] and [normalCDF] is [0.4999999995]. *)
Theorem erfc_reflection :
  (forall u : Q, ~ (u == 0)%Q ->
      mathUtils.erfc (Num u) + mathUtils.erfc (- Num u) = 2
      /\ mathUtils.normalCDF (Num u) + mathUtils.normalCDF (- Num u) = 1)
  /\ (mathUtils.erfc 0 === 0.999999999) = true
  /\ (mathUtils.normalCDF 0 === 0.4999999995) = true.
Proof.
  split; [|split; reflexivity]. intros u Hu. split.
  - destruct (erfc_pair u Hu) as (a & b & -> & -> & H).
    on_rationals. f_equal. change 2%Q with (Qred 2). apply Qred_complete, H.
  - unfold mathUtils.normalCDF, Math_SQRT2. rewrite !nneg_Num.
    rewrite !ndiv_Num by discriminate.
    set (w := Qred (Qred (- u) / (6369051672525773 # 4503599627370496))).
    assert (Hw : ~ (w == 0)%Q).
    { unfold w. rewrite !Qred_correct. intros E. apply Hu.
      assert (E' : (- u == 0 * (6369051672525773 # 4503599627370496))%Q).
      { rewrite <- E. field. }
      lra. }
    replace (Num (Qred (Qred (- Qred (- u)) / (6369051672525773 # 4503599627370496))))
      with (- Num w).
    2:{ rewrite nneg_Num. f_equal. apply Qred_complete. unfold w.
        rewrite !Qred_correct. field. }
    destruct (erfc_pair w Hw) as (a & b & -> & -> & H).
    on_rationals. f_equal. change 1%Q with (Qred 1). apply Qred_complete.
    rewrite !Qred_correct. lra.
Qed.

End Erfc.

(* ================================================================== *)
(** * The sign of the evaluators *)
(* ================================================================== *)

Section Signs.
Context {M : MathLib}.
Local Open Scope num_scope.
Implicit Types a b x y z v : num.

Lemma not_negative_Num (q : Q) : not_negative (Num q) <-> (0 <= q)%Q.
Proof. apply nlt_Num_false. Qed.

Lemma sign_NaN : not_negative NaN.
Proof. reflexivity. Qed.

Lemma sign_Infinity : not_negative Infinity.
Proof. reflexivity. Qed.

Lemma sign_add a b : not_negative a -> not_negative b -> not_negative (a + b).
Proof.
  destruct a as [| | |p], b as [| | |q]; try discriminate; try reflexivity.
  rewrite !not_negative_Num. cbn [nadd]. unfold fin.
  rewrite not_negative_Num, Qred_correct. lra.
Qed.

Lemma sign_mul a b : not_negative a -> not_negative b -> not_negative (a * b).
Proof.
  destruct a as [| | |p], b as [| | |q]; try discriminate; try reflexivity;
    rewrite ?not_negative_Num; cbn [nmul]; unfold fin, scale_inf.
  - intros _ H. destruct (q ?= 0)%Q eqn:E; try reflexivity.
    apply Qlt_alt in E. lra.
  - intros H _. destruct (p ?= 0)%Q eqn:E; try reflexivity.
    apply Qlt_alt in E. lra.
  - intros H1 H2. rewrite not_negative_Num, Qred_correct. nra.
Qed.

Lemma sign_div a b : not_negative a -> not_negative b -> not_negative (a / b).
Proof.
  destruct a as [| | |p], b as [| | |q]; try discriminate; try reflexivity;
    rewrite ?not_negative_Num; cbn [ndiv]; unfold fin.
  - intros _ H. replace (Qle_bool 0 q) with true by (symmetry; apply Qle_bool_iff; exact H).
    reflexivity.
  - intros H1 H2. destruct (Qeq_bool q 0) eqn:E.
    + destruct (p ?= 0)%Q eqn:C; try reflexivity. apply Qlt_alt in C. lra.
    + apply Qeq_bool_neq in E. rewrite not_negative_Num, Qred_correct.
      apply Qle_shift_div_l; [|lra].
      destruct (Qlt_le_dec 0 q) as [P|P]; [exact P|]. exfalso. apply E. lra.
Qed.

Lemma sign_square z : not_negative (z * z).
Proof.
  destruct z as [| | |q]; try reflexivity. cbn [nmul]. unfold fin.
  rewrite not_negative_Num, Qred_correct. nra.
Qed.

(** [x - y] when [x < y] is false. *)
Lemma sign_sub x y : (x <? y) = false -> not_negative (x - y).
Proof.
  destruct x as [| | |p], y as [| | |q]; try discriminate; try reflexivity.
  intros H. apply nlt_Num_false in H. cbn [nsub nadd nneg]. unfold fin.
  rewrite not_negative_Num, !Qred_correct. lra.
Qed.

Lemma sign_sub_nle x y : (x <=? y) = false -> not_negative (x - y).
Proof.
  intros H. apply sign_sub. destruct x, y; try discriminate; try reflexivity.
  apply nle_Num_false in H. apply nlt_Num_false. lra.
Qed.

Lemma sign_of_nle x : (x <=? 0) = false -> not_negative x.
Proof.
  destruct x as [| | |q]; try discriminate; try reflexivity.
  intros H. apply nle_Num_false in H. apply not_negative_Num. lra.
Qed.

Lemma sign_of_nge x : (x >=? 0) = true -> not_negative x.
Proof.
  unfold nge. destruct x as [| | |q]; try discriminate; try reflexivity.
  intros H. apply nle_Num in H. apply not_negative_Num. exact H.
Qed.

Lemma sign_of_ngt x : (x >? 0) = true -> not_negative x.
Proof.
  unfold ngt. destruct x as [| | |q]; try discriminate; try reflexivity.
  intros H. apply nlt_Num in H. apply not_negative_Num. lra.
Qed.

Lemma sign_exp v : not_negative (Math_exp v).
Proof.
  destruct v as [| | |q]; try reflexivity.
  destruct (Math_exp_Num q) as (e & -> & H & _). apply not_negative_Num. lra.
Qed.

Lemma sign_sqrt v : not_negative (Math_sqrt v).
Proof.
  destruct v as [| | |q]; try reflexivity. unfold Math_sqrt.
  destruct (Qlt_bool q 0) eqn:E; [reflexivity|].
  destruct (Qeq_bool q 0) eqn:E0; [reflexivity|].
  unfold fin. apply not_negative_Num. rewrite Qred_correct.
  apply Qlt_le_weak, sqrt_approx_pos.
  unfold Qlt_bool in E. apply negb_false_iff, Qle_bool_iff in E.
  apply Qeq_bool_neq in E0.
  destruct (Qlt_le_dec 0 q) as [P|P]; [exact P|]. exfalso. apply E0. lra.
Qed.

Lemma sign_abs v : not_negative (Math_abs v).
Proof.
  destruct v as [| | |q]; try reflexivity. cbn [Math_abs]. unfold fin.
  apply not_negative_Num. rewrite Qred_correct. apply Qabs_nonneg.
Qed.

Lemma sign_increment i : not_negative i -> not_negative (increment i).
Proof.
  intros H. apply round_not_negative.
  destruct i as [| | |q]; try reflexivity; try discriminate H.
  apply not_negative_Num in H. cbn [nadd]. unfold fin. apply not_negative_Num.
  rewrite Qred_correct. lra.
Qed.

Lemma sign_pow base e : not_negative base -> not_negative (Math_pow base e).
Proof.
  intros Hb. destruct e as [| | |e]; [reflexivity | | |].
  - destruct base as [| | |b]; try discriminate; try reflexivity.
    cbn [Math_pow]. destruct (Qabs b ?= 1)%Q; reflexivity.
  - destruct base as [| | |b]; try discriminate; try reflexivity.
    cbn [Math_pow]. destruct (Qabs b ?= 1)%Q; reflexivity.
  - unfold Math_pow. destruct (Qeq_bool e 0); [reflexivity|].
    destruct base as [| | |b]; try discriminate; cbn [pow_finite].
    + reflexivity.
    + destruct (Qlt_bool 0 e); reflexivity.
    + apply not_negative_Num in Hb.
      destruct (Qeq_bool b 0) eqn:E0; [destruct (Qlt_bool 0 e); reflexivity|].
      apply Qeq_bool_neq in E0.
      assert (P : (0 < b)%Q).
      { destruct (Qlt_le_dec 0 b) as [P|P]; [exact P|]. exfalso. apply E0. lra. }
      replace (Qlt_bool b 0) with false.
      2:{ symmetry. unfold Qlt_bool. apply negb_false_iff, Qle_bool_iff. lra. }
      cbn [andb]. unfold fin.
      destruct (Qis_integer e); apply not_negative_Num; rewrite Qred_correct;
        [apply Qlt_le_weak, Qpower_0_lt | apply pow_approx_nonneg]; exact P.
Qed.

Lemma sign_safePow base e : not_negative base -> not_negative (mathUtils.safePow base e).
Proof.
  intros H. unfold mathUtils.safePow.
  destruct ((base === 0) && (e === 0)); [reflexivity|].
  destruct ((base <? 0) && (e % 1 !== 0)); [reflexivity|].
  apply sign_pow, H.
Qed.

Lemma sign_besselI0 z : not_negative (mathUtils.besselI0 z).
Proof.
  destruct z as [| | |q]; try reflexivity.
  destruct (besselI0_value q) as (v & -> & H & _). apply not_negative_Num. lra.
Qed.

End Signs.

(** The sign of a formula, from the signs of its parts. *)
Ltac sign :=
  lazymatch goal with
  | |- not_negative (_ + _)%num => apply sign_add; sign
  | |- not_negative (?z * ?z)%num => apply sign_square
  | |- not_negative (_ * _)%num => apply sign_mul; sign
  | |- not_negative (_ / _)%num => apply sign_div; sign
  | |- not_negative (Math_exp _) => apply sign_exp
  | |- not_negative (Math_sqrt _) => apply sign_sqrt
  | |- not_negative (Math_abs _) => apply sign_abs
  | |- not_negative (Math_pow _ _) => apply sign_pow; sign
  | |- not_negative (mathUtils.safePow _ _) => apply sign_safePow; sign
  | |- not_negative (mathUtils.besselI0 _) => apply sign_besselI0
  | |- not_negative (_ - _)%num =>
      first [assumption | apply sign_sub; assumption
            | apply sign_sub_nle; assumption]
  | |- not_negative _ =>
      first [assumption | apply sign_of_nle; assumption
            | apply sign_of_nge; assumption | apply sign_of_ngt; assumption
            | unfold not_negative; reflexivity]
  end.

(** Take the guards of an evaluator one by one; in the branch where a
    guard is false, keep what it says about the arguments. *)
Ltac split_guards :=
  repeat match goal with
  | H : (_ || _)%bool = false |- _ =>
      let H' := fresh "G" in apply orb_false_iff in H; destruct H as [H' H]
  | H : negb _ = false |- _ => apply negb_false_iff in H
  end.

Ltac by_guards :=
  repeat match goal with
  | |- not_negative (if ?c then _ else _) =>
      let G := fresh "G" in
      destruct c eqn:G; [try (unfold not_negative; reflexivity)|]; split_guards
  end.

Ltac sign_of_formula :=
  by_guards; cbv zeta; unfold ngt, nge in *; sign.

Section EvaluatorSigns.
Context {M : MathLib}.
Local Open Scope num_scope.

Lemma normal_sign x mu sigma : not_negative (normal.pdf x mu sigma).
Proof. unfold normal.pdf. sign_of_formula. Qed.

Lemma exponential_sign x lambda : not_negative (exponential.pdf x lambda).
Proof. unfold exponential.pdf. sign_of_formula. Qed.

Lemma uniform_sign x a b : not_negative (uniform.pdf x a b).
Proof. unfold uniform.pdf. sign_of_formula. Qed.

Lemma lognormal_sign x mu sigma : not_negative (lognormal.pdf x mu sigma).
Proof. unfold lognormal.pdf. sign_of_formula. Qed.

Lemma poisson_sign k lambda : not_negative (poisson.pdf k lambda).
Proof. unfold poisson.pdf. sign_of_formula. Qed.

Lemma geometric_sign k p : not_negative (geometric.pdf k p).
Proof. unfold geometric.pdf. sign_of_formula. Qed.

Lemma bernoulli_sign x p : not_negative (bernoulli.pdf x p).
Proof. unfold bernoulli.pdf. sign_of_formula. Qed.

Lemma discreteUniform_sign x lower upper : not_negative (discreteUniform.pdf x lower upper).
Proof. unfold discreteUniform.pdf. sign_of_formula. Qed.

Lemma hypergeometric_sign x N K n : not_negative (hypergeometric.pdf x N K n).
Proof. unfold hypergeometric.pdf. sign_of_formula. Qed.

Lemma betaBinomial_sign x n a b : not_negative (betaBinomial.pdf x n a b).
Proof. unfold betaBinomial.pdf. sign_of_formula. Qed.

Lemma discreteWeibull_sign x q b : not_negative (discreteWeibull.pdf x q b).
Proof.
  unfold discreteWeibull.pdf. by_guards. cbv zeta. by_guards.
  all: try (unfold not_negative; reflexivity).
  match goal with
  | H : (_ && _)%bool = true |- _ => apply andb_true_iff in H as [_ H]; apply sign_of_nge, H
  end.
Qed.

Lemma cauchy_sign x x0 gamma : not_negative (cauchy.pdf x x0 gamma).
Proof. unfold cauchy.pdf. sign_of_formula. Qed.

Lemma laplace_sign x mu b : not_negative (laplace.pdf x mu b).
Proof. unfold laplace.pdf. sign_of_formula. Qed.

Lemma logistic_sign x mu s : not_negative (logistic.pdf x mu s).
Proof. unfold logistic.pdf. sign_of_formula. Qed.

Lemma gumbel_sign x mu b : not_negative (gumbel.pdf x mu b).
Proof. unfold gumbel.pdf. sign_of_formula. Qed.

Lemma weibull_sign x a b : not_negative (weibull.pdf x a b).
Proof. unfold weibull.pdf. sign_of_formula. Qed.

Lemma halfNormal_sign x sigma : not_negative (halfNormal.pdf x sigma).
Proof. unfold halfNormal.pdf. sign_of_formula. Qed.

Lemma halfCauchy_sign x b : not_negative (halfCauchy.pdf x b).
Proof. unfold halfCauchy.pdf. sign_of_formula. Qed.

Lemma asymmetricLaplace_sign x mu b kappa : not_negative (asymmetricLaplace.pdf x mu b kappa).
Proof. unfold asymmetricLaplace.pdf. sign_of_formula. Qed.

Lemma logitNormal_sign x mu tau : not_negative (logitNormal.pdf x mu tau).
Proof. unfold logitNormal.pdf. sign_of_formula. Qed.

Lemma wald_sign x mu lam : not_negative (wald.pdf x mu lam).
Proof. unfold wald.pdf. sign_of_formula. Qed.

Lemma moyal_sign x mu sigma : not_negative (moyal.pdf x mu sigma).
Proof. unfold moyal.pdf. sign_of_formula. Qed.

Lemma vonMises_sign x mu kappa : not_negative (vonMises.pdf x mu kappa).
Proof. unfold vonMises.pdf. sign_of_formula. Qed.

Lemma rice_sign x nu sigma : not_negative (rice.pdf x nu sigma).
Proof. unfold rice.pdf. sign_of_formula. Qed.

Ltac take_guard :=
  match goal with
  | |- not_negative (if ?c then _ else _) =>
      let G := fresh "G" in destruct c eqn:G; split_guards
  end.

Lemma beta_sign x alpha betaParam : not_negative (beta.pdf x alpha betaParam).
Proof.
  unfold beta.pdf. cbv zeta.
  take_guard; [unfold not_negative; reflexivity|].
  take_guard.
  - repeat take_guard; try (unfold not_negative; reflexivity).
    match goal with
    | H : isFinite _ && _ = true |- _ => apply andb_true_iff in H as [_ H]
    end.
    sign.
  - take_guard; [unfold not_negative; reflexivity|].
    take_guard; [unfold not_negative; reflexivity|].
    take_guard; [|unfold not_negative; reflexivity].
    unfold ngt, nge in *. sign.
Qed.

Lemma triangular_sign x lower c upper : not_negative (triangular.pdf x lower c upper).
Proof.
  unfold triangular.pdf. take_guard; [unfold not_negative; reflexivity|].
  unfold ngt, nge in *.
  assert (W : not_negative (upper - lower) \/ x = NaN).
  { destruct x as [| | |q] eqn:X; [right; reflexivity | left ..];
      apply sign_sub; destruct lower, upper; num_order. }
  destruct W as [W | ->].
  - repeat take_guard; sign.
  - change (NaN <? c) with false. change (NaN === c) with false. cbv iota.
    rewrite nsub_NaN_r, nmul_NaN_r, ndiv_NaN_l. reflexivity.
Qed.

Lemma pareto_sign x alpha m : not_negative (pareto.pdf x alpha m).
Proof.
  unfold pareto.pdf. by_guards. unfold ngt, nge in *.
  destruct m as [| | |q] eqn:Em.
  - (* m is NaN: so is the result *)
    replace (Math_pow NaN alpha) with NaN; [rewrite nmul_NaN_r; reflexivity|].
    destruct alpha as [| | |a]; try reflexivity. unfold Math_pow.
    destruct (Qeq_bool a 0) eqn:E; [|reflexivity]. to_Q. lra.
  - assert (X : not_negative x) by (unfold not_negative; destruct x; num_order). sign.
  - discriminate.
  - assert (X : not_negative x) by (unfold not_negative; destruct x; num_order). sign.
Qed.

(** The coefficient loops keep their accumulator from going negative. *)
Lemma binomial_coeff_sign (fuel : nat) (k n i coeff v : num) :
  (k >? n) = false -> not_negative i -> not_negative coeff ->
  binomial.coeff_loop fuel k n i coeff = Some v -> not_negative v.
Proof.
  intros Hk. revert i coeff. induction fuel as [|fuel IH]; intros i coeff Hi Hc H.
  - cbn [binomial.coeff_loop] in H. destruct (i <? k); [discriminate|].
    injection H as <-. exact Hc.
  - cbn [binomial.coeff_loop] in H. destruct (i <? k) eqn:E.
    + apply IH in H; [exact H | apply sign_increment, Hi |].
      assert (S : not_negative (n - i)).
      { apply sign_sub. unfold ngt in Hk. destruct i, k, n; num_order. }
      sign.
    + injection H as <-. exact Hc.
Qed.

Lemma binomial_sign (fuel : nat) (k n p v : num) :
  binomial.pdf fuel k n p = Some v -> not_negative v.
Proof.
  assert (G : match binomial.pdf fuel k n p with
              | Some w => not_negative w
              | None => True
              end).
  { unfold binomial.pdf.
    destruct (negb (Number_isInteger k) || (k <? 0) || (k >? n) || (n <? 0)
              || (p <? 0) || (p >? 1)) eqn:G; [reflexivity|].
    split_guards.
    destruct (p === 0); [destruct (k === 0); reflexivity|].
    destruct (p === 1); [destruct (k === n); reflexivity|].
    destruct (binomial.coeff_loop fuel k n 0 1) as [c|] eqn:E; [|exact I].
    assert (C : not_negative c).
    { apply (binomial_coeff_sign fuel k n 0 1); try assumption; reflexivity. }
    unfold ngt in *. sign. }
  intros H. rewrite H in G. exact G.
Qed.

Lemma negativeBinomial_coeff_sign (fuel : nat) (k r i coeff v : num) :
  (k <? r) = false -> not_negative i -> not_negative coeff ->
  negativeBinomial.coeff_loop fuel k r i coeff = Some v -> not_negative v.
Proof.
  intros Hk. revert i coeff. induction fuel as [|fuel IH]; intros i coeff Hi Hc H.
  - cbn [negativeBinomial.coeff_loop] in H. destruct (i <? r - 1); [discriminate|].
    injection H as <-. exact Hc.
  - cbn [negativeBinomial.coeff_loop] in H. destruct (i <? r - 1) eqn:E.
    + apply IH in H; [exact H | apply sign_increment, Hi |].
      assert (S : not_negative (k - 1 - i)).
      { apply sign_sub.
        destruct i as [| | |i], k as [| | |k], r as [| | |r];
          try discriminate; try reflexivity.
        cbn [nsub nadd nneg] in *. unfold fin in *. to_Q.
        rewrite !Qred_correct in *. lra. }
      sign.
    + injection H as <-. exact Hc.
Qed.

Lemma negativeBinomial_sign (fuel : nat) (k r p v : num) :
  negativeBinomial.pdf fuel k r p = Some v -> not_negative v.
Proof.
  assert (G : match negativeBinomial.pdf fuel k r p with
              | Some w => not_negative w
              | None => True
              end).
  { unfold negativeBinomial.pdf.
    destruct (negb (Number_isInteger k) || (k <? r) || (r <? 1) || (p <=? 0) || (p >? 1))
      eqn:G; [reflexivity|].
    split_guards.
    destruct (negativeBinomial.coeff_loop fuel k r 0 1) as [c|] eqn:E; [|exact I].
    assert (C : not_negative c).
    { apply (negativeBinomial_coeff_sign fuel k r 0 1); try assumption; reflexivity. }
    unfold ngt in *. sign. }
  intros H. rewrite H in G. exact G.
Qed.

End EvaluatorSigns.

Section NeverNegative.
Context {M : MathLib}.
Local Open Scope num_scope.

(** X20. The 29 evaluators listed never return a negative number,
    whatever the arguments are (valid or not, finite or not): the result
    is NaN or it is not below 0. *)
Theorem pdf_never_negative (d : dist) (fuel : nat) (args : list num) (v : num) :
  In d [Normal; Beta; Exponential; Uniform; Lognormal; Binomial; Poisson;
        Geometric; NegativeBinomial; Bernoulli; DiscreteUniform; Hypergeometric;
        BetaBinomial; DiscreteWeibull; Cauchy; Laplace; Logistic; Gumbel;
        Weibull; Pareto; HalfNormal; HalfCauchy; Triangular; AsymmetricLaplace;
        LogitNormal; Wald; Moyal; VonMises; Rice] ->
  pdfFunctions d fuel args = Some v -> (v <? 0) = false.
Proof.
  intros Hd H. change (not_negative v). cbn [In] in Hd.
  repeat (destruct Hd as [<- | Hd]); [..|destruct Hd];
    repeat (let a := fresh "a" in
            destruct args as [|a args]; cbn [pdfFunctions] in H; try discriminate H);
    try (injection H as <-).
  - apply normal_sign.
  - apply beta_sign.
  - apply exponential_sign.
  - apply uniform_sign.
  - apply lognormal_sign.
  - exact (binomial_sign _ _ _ _ _ H).
  - apply poisson_sign.
  - apply geometric_sign.
  - exact (negativeBinomial_sign _ _ _ _ _ H).
  - apply bernoulli_sign.
  - apply discreteUniform_sign.
  - apply hypergeometric_sign.
  - apply betaBinomial_sign.
  - apply discreteWeibull_sign.
  - apply cauchy_sign.
  - apply laplace_sign.
  - apply logistic_sign.
  - apply gumbel_sign.
  - apply weibull_sign.
  - apply pareto_sign.
  - apply halfNormal_sign.
  - apply halfCauchy_sign.
  - apply triangular_sign.
  - apply asymmetricLaplace_sign.
  - apply logitNormal_sign.
  - apply wald_sign.
  - apply moyal_sign.
  - apply vonMises_sign.
  - apply rice_sign.
Qed.

End NeverNegative.

(* ================================================================== *)
(** * Support and window *)
(* ================================================================== *)


Section Support.
Context {M : MathLib}.
Local Open Scope num_scope.



End Support.




Section Coverage.
Context {M : MathLib}.
Local Open Scope num_scope.





End Coverage.

(* ================================================================== *)
(** * Symmetries and total probability *)
(* ================================================================== *)

Ltac same_rational :=
  on_rationals; f_equal; apply Qred_complete; rewrite ?Qred_correct.

Section Symmetry.
Context {M : MathLib}.
Local Open Scope num_scope.
Implicit Types x y z a b c mu s : num.

Lemma Qcompare_opp_0 (p : Q) : (Qred (- p) ?= 0)%Q = CompOpp (p ?= 0)%Q.
Proof.
  destruct (p ?= 0)%Q eqn:E; cbn [CompOpp].
  - apply Qeq_alt in E. apply (proj1 (Qeq_alt _ _)). rewrite Qred_correct. lra.
  - apply Qlt_alt in E. apply (proj1 (Qgt_alt _ _)). rewrite Qred_correct. lra.
  - apply Qgt_alt in E. apply (proj1 (Qlt_alt _ _)). rewrite Qred_correct. lra.
Qed.

Lemma sub_zero a b : a - b - 0 = a - b.
Proof.
  destruct a as [| | |p], b as [| | |q]; try reflexivity. same_rational. lra.
Qed.

Lemma neg_sub_neg x mu : - x - - mu = - (x - mu).
Proof.
  destruct x as [| | |p], mu as [| | |q]; try reflexivity. same_rational. lra.
Qed.

Lemma neg_div a s : - a / s = - (a / s).
Proof.
  destruct a as [| | |p], s as [| | |q]; try reflexivity.
  - cbn [nneg ndiv]. unfold Qlt_bool. destruct (Qle_bool 0 q); reflexivity.
  - cbn [nneg ndiv]. unfold Qlt_bool. destruct (Qle_bool 0 q); reflexivity.
  - rewrite nneg_Num. cbn [ndiv]. destruct (Qeq_bool q 0).
    + rewrite Qcompare_opp_0. destruct (p ?= 0)%Q; reflexivity.
    + unfold fin. same_rational. unfold Qdiv. lra.
Qed.

Lemma square_neg z : - z * - z = z * z.
Proof. destruct z as [| | |q]; try reflexivity. same_rational. lra. Qed.

Lemma scaled_square_neg (c : Q) z : Num c * - z * - z = Num c * z * z.
Proof.
  destruct z as [| | |q].
  - reflexivity.
  - cbn [nneg nmul]. unfold scale_inf. destruct (c ?= 0)%Q; reflexivity.
  - cbn [nneg nmul]. unfold scale_inf. destruct (c ?= 0)%Q; reflexivity.
  - same_rational. lra.
Qed.

Lemma mul_neg_neg a z : - a * - z = a * z.
Proof.
  destruct a as [| | |p], z as [| | |q]; try reflexivity;
    rewrite ?nneg_Num; cbn [nneg nmul]; unfold scale_inf;
    rewrite ?Qcompare_opp_0;
    try match goal with |- context [(?r ?= 0)%Q] => destruct (r ?= 0)%Q; reflexivity end.
  unfold fin. same_rational. lra.
Qed.

(** X23. The evaluators with a location depend on [x] and the location
    through [x - mu] only (Normal, Cauchy, Laplace, Logistic, Gumbel,
    Moyal, Skew Normal).  Normal, Cauchy and Laplace are mirror-symmetric
    about the location, Student's t about 0, and the Skew Normal is
    mirrored by negating [alpha]. *)
Theorem shift_and_mirror (x mu s : num) :
  (normal.pdf x mu s = normal.pdf (x - mu) 0 s
   /\ cauchy.pdf x mu s = cauchy.pdf (x - mu) 0 s
   /\ laplace.pdf x mu s = laplace.pdf (x - mu) 0 s
   /\ logistic.pdf x mu s = logistic.pdf (x - mu) 0 s
   /\ gumbel.pdf x mu s = gumbel.pdf (x - mu) 0 s
   /\ moyal.pdf x mu s = moyal.pdf (x - mu) 0 s
   /\ forall alpha, skewNormal.pdf x mu s alpha = skewNormal.pdf (x - mu) 0 s alpha)
  /\ (normal.pdf (- x) (- mu) s = normal.pdf x mu s
      /\ cauchy.pdf (- x) (- mu) s = cauchy.pdf x mu s
      /\ laplace.pdf (- x) (- mu) s = laplace.pdf x mu s
      /\ student.pdf (- x) s = student.pdf x s
      /\ forall alpha,
           skewNormal.pdf (- x) (- mu) s (- alpha) = skewNormal.pdf x mu s alpha).
Proof.
  split.
  - unfold normal.pdf, cauchy.pdf, laplace.pdf, logistic.pdf, gumbel.pdf, moyal.pdf,
      skewNormal.pdf. rewrite !sub_zero. repeat split.
  - unfold normal.pdf, cauchy.pdf, laplace.pdf, student.pdf, skewNormal.pdf.
    cbv zeta. rewrite !neg_sub_neg, !neg_div, Math_abs_opp, !square_neg.
    rewrite (scaled_square_neg (-0.5)). repeat split.
    intros alpha. rewrite mul_neg_neg. reflexivity.
Qed.

End Symmetry.

Section TotalMass.
Context {M : MathLib}.
Local Open Scope num_scope.

(** X24. The two values of Bernoulli add up to 1: for [0 <= p <= 1] the
    evaluator returns [1 - p] at 0 and [p] at 1, and their sum is 1. *)
Theorem probabilities_add_up (p : Q) :
  (0 <= p)%Q -> (p <= 1)%Q ->
  bernoulli.pdf 0 (Num p) = 1 - Num p
  /\ bernoulli.pdf 1 (Num p) = Num p
  /\ bernoulli.pdf 0 (Num p) + bernoulli.pdf 1 (Num p) = 1.
Proof.
  intros H0 H1. unfold bernoulli.pdf.
  change ((0 !== 0) && (0 !== 1)) with false.
  change ((1 !== 0) && (1 !== 1)) with false. cbv iota.
  replace (Num p <? 0) with false by (symmetry; apply nlt_Num_false; exact H0).
  replace (Num p >? 1) with false by (symmetry; apply nlt_Num_false; exact H1).
  cbn [orb]. change (0 === 1) with false. change (1 === 1) with true. cbv iota.
  split; [reflexivity|]. split; [reflexivity|].
  on_rationals. f_equal. change 1%Q with (Qred 1). apply Qred_complete.
  rewrite !Qred_correct. lra.
Qed.

End TotalMass.

(* ================================================================== *)
(** * Concrete instances *)
(* ================================================================== *)

(** The statements above at explicit inputs, with the series of
    [series_math] standing for the Math object where one is needed. *)

Local Open Scope num_scope.

(** [gamma(0.25)]: one reflected call, on [0.75]. *)
Lemma gamma_terminates_depth_one_witness :
  (Num 0.25 <? 0.5) = true
  /\ @mathUtils.gamma_rec series_math 1 0.25 = None
  /\ @mathUtils.gamma_rec series_math 2 0.25 = Some (@mathUtils.gamma series_math 0.25)
  /\ (1 - Num 0.25 <? 0.5) = false.
Proof.
  destruct (@gamma_terminates_depth_one series_math 0.25) as (H2 & Hr & _).
  destruct (Hr eq_refl) as (H1 & Harg & _).
  split; [reflexivity|]. split; [exact H1|]. split; [apply H2; lia | exact Harg].
Defined.

(** C7: the tabulated Math object is accurate where [Poisson.pdf(3, 3)]
    calls it. *)
Lemma table_math_accurate : @accurate_for_poisson_3_3 table_math.
Proof.
  unfold accurate_for_poisson_3_3. cbv zeta.
  split; [eexists; split; [vm_compute; reflexivity | split; Qcompute]|].
  split; [eexists; split; [vm_compute; reflexivity | split; Qcompute]|].
  split; [eexists; split; [vm_compute; reflexivity | split; Qcompute]|].
  split; [eexists; split; [vm_compute; reflexivity | split; Qcompute]|].
  split.
  - intros g [G1 G2]. exists (Qred 1.79175947). split; [|split; Qcompute].
    unfold Math_log, Qlt_bool.
    replace (Qle_bool 0 g) with true by (symmetry; apply Qle_bool_iff; lra).
    cbn [negb].
    destruct (Qeq_bool g 0) eqn:E0; [apply Qeq_bool_iff in E0; lra|].
    destruct (Qeq_bool g 1) eqn:E1; [apply Qeq_bool_iff in E1; lra|].
    cbn [log_approx table_math]. unfold table.log.
    destruct (Qeq_bool g 3) eqn:E3; [apply Qeq_bool_iff in E3; lra|].
    replace (Qle_bool 5.9 g) with true by (symmetry; apply Qle_bool_iff; lra).
    replace (Qle_bool g 6.1) with true by (symmetry; apply Qle_bool_iff; lra).
    reflexivity.
  - intros y [Y1 Y2]. exists (Qred 0.2240418). split; [|split; Qcompute].
    unfold Math_exp.
    destruct (Qeq_bool y 0) eqn:E0; [apply Qeq_bool_iff in E0; lra|].
    cbn [exp_approx table_math]. unfold table.exp.
    destruct (Qeq_bool y (-10.5)) eqn:E1; [apply Qeq_bool_iff in E1; lra|].
    replace (Qle_bool (-1.496) y) with true by (symmetry; apply Qle_bool_iff; lra).
    replace (Qle_bool y (-1.495)) with true by (symmetry; apply Qle_bool_iff; lra).
    reflexivity.
Qed.

Lemma poisson_pdf_log_space_witness :
  Number_isInteger 3 = true /\ (Num 3 >=? 0) = true /\ (Num 3 >? 0) = true
  /\ @poisson.pdf table_math 3 3
     = @Math_exp table_math
         (3 * @Math_log table_math 3 - 3 - @mathUtils.logFactorial table_math 3)
  /\ @accurate_for_poisson_3_3 table_math
  /\ within (@poisson.pdf table_math 3 3) 0.2240414 0.2240420.
Proof.
  split; [reflexivity|]. split; [reflexivity|]. split; [reflexivity|].
  destruct (@poisson_pdf_log_space table_math) as (G & _ & V & _).
  split; [apply G; reflexivity|].
  split; [exact table_math_accurate | exact (V table_math_accurate)].
Defined.

Lemma discrete_support_witness :
  Number_isInteger 5.5 = false
  /\ (forall fuel, @binomial.pdf series_math fuel 5.5 10 0.5 = Some (Num 0))
  /\ (exists v, @binomial.pdf series_math 7 5 10 0.5 = Some v
                /\ (v === 0.24609375) = true).
Proof.
  destruct (@discrete_support series_math) as (_ & Hk & H5).
  split; [reflexivity|]. split.
  - intros fuel. apply Hk. left. reflexivity.
  - apply H5. lia.
Defined.

(** C6: computed in binary64, the width does not grow with [sigma]
    everywhere.  At [mu = 1e17] the windows of [sigma = 1] and of
    [sigma = 1.5] are both the single point [1e17], of width [0]; with
    [mu] left out, the widths at [sigma = 2^1021] and at [sigma = 2^1022]
    are both [Infinity]. *)
Lemma normal_width_not_strict :
  (Num 1.5 >? Num 1) = true
  /\ rounded.normal.rangeCalculator {["mu" := Num (10 ^ 17); "sigma" := Num 1]}
     = {| min := Num (10 ^ 17); max := Num (10 ^ 17) |}
  /\ rounded.normal.rangeCalculator {["mu" := Num (10 ^ 17); "sigma" := Num 1.5]}
     = {| min := Num (10 ^ 17); max := Num (10 ^ 17) |}
  /\ (rounded.width
        (rounded.normal.rangeCalculator {["mu" := Num (10 ^ 17); "sigma" := Num 1.5]})
        >? rounded.width
             (rounded.normal.rangeCalculator {["mu" := Num (10 ^ 17); "sigma" := Num 1]}))
     = false
  /\ (Num (2 ^ 1022) >? Num (2 ^ 1021)) = true
  /\ rounded.width (rounded.normal.rangeCalculator {["sigma" := Num (2 ^ 1021)]})
     = Infinity
  /\ rounded.width (rounded.normal.rangeCalculator {["sigma" := Num (2 ^ 1022)]})
     = Infinity
  /\ (rounded.width (rounded.normal.rangeCalculator {["sigma" := Num (2 ^ 1022)]})
        >? rounded.width (rounded.normal.rangeCalculator {["sigma" := Num (2 ^ 1021)]}))
     = false.
Proof. repeat split; vm_compute; reflexivity. Qed.

Lemma normal_width_increasing_witness :
  isFinite (or_default ((∅ : params) !! "mu") 0) = true
  /\ (Num 1 >? 0) = true /\ (Num 2 >? Num 1) = true
  /\ (width (normal.rangeCalculator (<["sigma" := Num 2]> ∅))
        >=? width (normal.rangeCalculator (<["sigma" := Num 1]> ∅))) = true
  /\ (width (normal.rangeCalculator {["sigma" := Num 2]})
        >? width (normal.rangeCalculator {["sigma" := Num 1]})) = true.
Proof.
  destruct normal_width_increasing as (W & _ & S).
  split; [reflexivity|]. split; [reflexivity|]. split; [reflexivity|].
  split; [apply (W ∅ 1 2); reflexivity|].
  apply (S 1%Q 2%Q); reflexivity.
Defined.

(** C1: the Beta evaluator turns a NaN evaluation point into [0], and
    the evaluators of Uniform, Lognormal, Chi-squared, Binomial, Discrete
    Weibull and Kumaraswamy lose a NaN argument as well; in each call
    the first tests of the evaluator pass. *)
Lemma beta_pdf_swallows_NaN :
  (@beta.pdf series_math NaN 2 2 = Num 0
   /\ is_nan (@beta.pdf series_math NaN 2 2) = false
   /\ rejects Beta [NaN; Num 2; Num 2] = false)
  /\ (uniform.pdf NaN 0 1 = Num 1 /\ rejects Uniform [NaN; Num 0; Num 1] = false)
  /\ (@lognormal.pdf series_math NaN 0 1 = Num 0
      /\ rejects Lognormal [NaN; Num 0; Num 1] = false)
  /\ (@chi2.pdf series_math 0 NaN = Num 0 /\ rejects Chi2 [Num 0; NaN] = false)
  /\ (@binomial.pdf series_math 0 0 NaN 0 = Some (Num 1)
      /\ rejects Binomial [Num 0; NaN; Num 0] = false)
  /\ (@discreteWeibull.pdf series_math 1 NaN 1 = Num 0
      /\ rejects DiscreteWeibull [Num 1; NaN; Num 1] = false)
  /\ (@kumaraswamy.pdf series_math NaN 1 1 = Num 1
      /\ rejects Kumaraswamy [NaN; Num 1; Num 1] = false).
Proof. repeat split; vm_compute; reflexivity. Qed.

Lemma nan_propagation_witness :
  swallows_NaN Normal = false
  /\ rejects Normal [NaN; Num 0; Num 1] = false
  /\ has_NaN [NaN; Num 0; Num 1] = true
  /\ @pdfFunctions series_math Normal 0 [NaN; Num 0; Num 1] = Some NaN.
Proof.
  split; [reflexivity|]. split; [reflexivity|]. split; [reflexivity|].
  pose proof (proj1 (proj1 (@nan_propagation series_math) Normal NaN [Num 0; Num 1]
                       eq_refl eq_refl eq_refl eq_refl)
                0%nat (@normal.pdf series_math NaN 0 1) eq_refl) as E.
  change (Some (@normal.pdf series_math NaN 0 1) = Some NaN). rewrite E. reflexivity.
Defined.

(** C2: the number of trials [n = 10.5] is not an integer, and the
    Binomial evaluator still returns [1] at [k = 0], [p = 0]. *)
Lemma binomial_pdf_fractional_trials :
  Number_isInteger 10.5 = false
  /\ @binomial.pdf series_math 0 0 10.5 0 = Some (Num 1)
  /\ (Num 1 === 0) = false.
Proof. repeat split; vm_compute; reflexivity. Qed.

Lemma invalid_parameters_return_zero_witness :
  violates Normal [Num 0; Num 0; Num (-1)] = true
  /\ @pdfFunctions series_math Normal 0 [Num 0; Num 0; Num (-1)] = Some (Num 0).
Proof.
  split; [reflexivity|].
  apply (proj1 (@invalid_parameters_return_zero series_math)). reflexivity.
Defined.

(** C3: at [x = 0] with [alpha = 1] and [beta = Infinity] the kernel's Beta
    value is NaN; the evaluator returns [0], not its reciprocal. *)
Lemma beta_pdf_boundary_guard :
  (Num 1 >? 0) = true /\ (Infinity >? 0) = true /\ (Num 1 === 1) = true
  /\ @mathUtils.beta series_math 1 Infinity = NaN
  /\ 1 / @mathUtils.beta series_math 1 Infinity = NaN
  /\ @beta.pdf series_math 0 1 Infinity = Num 0.
Proof. repeat split; vm_compute; reflexivity. Qed.

Lemma beta_pdf_boundary_witness :
  (Num 1 >? 0) = true /\ (Num 3 >? 0) = true
  /\ @beta.pdf series_math 0 1 3 = @beta_boundary_value series_math 1 1 3
  /\ @beta.pdf series_math 1 1 3 = @beta_boundary_value series_math 3 1 3.
Proof.
  split; [reflexivity|]. split; [reflexivity|].
  apply (proj1 (@beta_pdf_boundary series_math)); reflexivity.
Defined.

(** C5: valid parameters whose window is not [min < max].
    In exact arithmetic already: a single point for Discrete Uniform with
    equal bounds and for Hypergeometric with [K = N]; [min > max] for
    Inverse Gamma and Wald with a small mean.
    Computed in binary64: at the location [1e18] with the scales at [1]
    the windows of Normal, Cauchy, Laplace, Logistic, Gumbel, Moyal,
    Asymmetric Laplace, Skew Normal and Ex-Gaussian are the single point
    [1e18]; so is the window of Negative Binomial with [r = 1e18] and
    [p = 1]; the window of Pareto is the single point [1] with
    [alpha = 1e20] and [m = 1], where [Math.pow(1000, 1e-20)] rounds to
    [1]; the Hypergeometric window is [{16, 9}] with [N = n = 1e17 + 16]
    and [K = 9], where [N - K] rounds to [1e17]; the upper bound of the
    Lognormal window is NaN with [mu = -1000] and [sigma = 30], where
    [Math.exp(900)] is [Infinity] and [Math.exp(-1100)] is [0]; and the
    upper bound of the Rice window is NaN with [nu = sigma = 2^700], where
    [nu * nu] and [4 sigma sigma] are both [Infinity].  The parameters
    used are binary64 numbers. *)
Lemma range_window_collapses :
  let point := {| min := Num (10 ^ 18); max := Num (10 ^ 18) |} in
  (valid_params DiscreteUniform {["lower" := Num 3; "upper" := Num 3]} = true
   /\ discreteUniform.rangeCalculator {["lower" := Num 3; "upper" := Num 3]}
      = {| min := Num 3; max := Num 3 |}
   /\ ordered (discreteUniform.rangeCalculator {["lower" := Num 3; "upper" := Num 3]})
      = false
   /\ valid_params Hypergeometric {["N" := Num 10; "K" := Num 10; "n" := Num 5]} = true
   /\ ordered (hypergeometric.rangeCalculator
                 {["N" := Num 10; "K" := Num 10; "n" := Num 5]}) = false
   /\ valid_params InverseGamma {["alpha" := Num 11; "beta" := Num 0.001]} = true
   /\ ordered (inverseGamma.rangeCalculator
                 {["alpha" := Num 11; "beta" := Num 0.001]}) = false
   /\ weakly_ordered (inverseGamma.rangeCalculator
                        {["alpha" := Num 11; "beta" := Num 0.001]}) = false
   /\ valid_params Wald {["mu" := Num 0.0001; "lam" := Num 1]} = true
   /\ weakly_ordered (@wald.rangeCalculator series_math
                        {["mu" := Num 0.0001; "lam" := Num 1]}) = false)
  /\ (rounded.normal.rangeCalculator {["mu" := Num (10 ^ 18); "sigma" := Num 1]} = point
      /\ rounded.cauchy.rangeCalculator {["x0" := Num (10 ^ 18); "gamma" := Num 1]}
         = point
      /\ rounded.laplace.rangeCalculator {["mu" := Num (10 ^ 18); "b" := Num 1]} = point
      /\ rounded.logistic.rangeCalculator {["mu" := Num (10 ^ 18); "s" := Num 1]} = point
      /\ rounded.gumbel.rangeCalculator {["mu" := Num (10 ^ 18); "beta" := Num 1]}
         = point
      /\ rounded.moyal.rangeCalculator {["mu" := Num (10 ^ 18); "sigma" := Num 1]}
         = point
      /\ rounded.asymmetricLaplace.rangeCalculator
           {["mu" := Num (10 ^ 18); "b" := Num 1; "kappa" := Num 1]} = point
      /\ rounded.skewNormal.rangeCalculator
           {["mu" := Num (10 ^ 18); "sigma" := Num 1; "alpha" := Num 3]} = point
      /\ rounded.exGaussian.rangeCalculator
           {["mu" := Num (10 ^ 18); "sigma" := Num 1; "lam" := Num 1]} = point
      /\ @rounded.negativeBinomial.rangeCalculator series_math
           {["r" := Num (10 ^ 18); "p" := Num 1]} = point
      /\ @rounded.pareto.rangeCalculator series_math
           {["alpha" := Num (10 ^ 20); "m" := Num 1]} = {| min := Num 1; max := Num 1 |}
      /\ ordered point = false
      /\ valid_params Normal {["mu" := Num (10 ^ 18); "sigma" := Num 1]} = true
      /\ valid_params NegativeBinomial {["r" := Num (10 ^ 18); "p" := Num 1]} = true
      /\ valid_params Pareto {["alpha" := Num (10 ^ 20); "m" := Num 1]} = true
      /\ binary64.round (Num (10 ^ 18)) = Num (10 ^ 18)
      /\ binary64.round (Num (10 ^ 20)) = Num (10 ^ 20))
  /\ (valid_params Hypergeometric
        {["N" := Num (10 ^ 17 + 16); "K" := Num 9; "n" := Num (10 ^ 17 + 16)]} = true
      /\ binary64.round (Num (10 ^ 17 + 16)) = Num (10 ^ 17 + 16)
      /\ rounded.hypergeometric.rangeCalculator
           {["N" := Num (10 ^ 17 + 16); "K" := Num 9; "n" := Num (10 ^ 17 + 16)]}
         = {| min := Num 16; max := Num 9 |}
      /\ valid_params Lognormal {["mu" := Num (-1000); "sigma" := Num 30]} = true
      /\ @rounded.lognormal.rangeCalculator series_math
           {["mu" := Num (-1000); "sigma" := Num 30]}
         = {| min := Num 0; max := NaN |}
      /\ valid_params Rice {["nu" := Num (2 ^ 700); "sigma" := Num (2 ^ 700)]} = true
      /\ binary64.round (Num (2 ^ 700)) = Num (2 ^ 700)
      /\ @rounded.rice.rangeCalculator series_math
           {["nu" := Num (2 ^ 700); "sigma" := Num (2 ^ 700)]}
         = {| min := Num 0; max := NaN |}
      /\ weakly_ordered {| min := Num 16; max := Num 9 |} = false
      /\ weakly_ordered {| min := Num 0; max := NaN |} = false).
Proof. cbv zeta. repeat split; vm_compute; reflexivity. Qed.

Lemma range_min_below_max_witness :
  valid_params Gamma {["alpha" := Num 2; "beta" := Num 1]} = true
  /\ window_guarantee Gamma = below
  /\ ordered (@rangeCalculators series_math Gamma
                {["alpha" := Num 2; "beta" := Num 1]}) = true
  /\ valid_params Normal {["mu" := Num 0; "sigma" := Num 1]} = true
  /\ window_guarantee Normal = not_above
  /\ weakly_ordered (@rangeCalculators series_math Normal
                       {["mu" := Num 0; "sigma" := Num 1]}) = true.
Proof.
  destruct (@range_min_below_max series_math) as (S & W & _).
  split; [reflexivity|]. split; [reflexivity|]. split; [apply S; reflexivity|].
  split; [reflexivity|]. split; [reflexivity|]. apply W; reflexivity.
Defined.

(** C10: the example of the Discrete Uniform estimator, where the
    fallback is the documented default. *)
Lemma discreteUniform_range_zero_lower :
  discreteUniform.rangeCalculator {["lower" := Num 0; "upper" := Num 6]}
  = {| min := Num 1; max := Num 6 |}.
Proof. vm_compute. reflexivity. Qed.

(** The statements about the catalog, the components, the kernel and
    the evaluators at explicit inputs. *)

Lemma extractDefaults_lookup_witness :
  Forall (fun p => obj.plain_key (parameter.name p) = true) (spec.parameters Normal)
  /\ NoDup (map parameter.name (spec.parameters Normal))
  /\ obj.keys (DistributionCatalog.extractDefaults (spec.parameters Normal))
     = ["mu"; "sigma"]%string
  /\ obj.values (DistributionCatalog.extractDefaults (spec.parameters Normal))
     = [Num 0; Num 1].
Proof.
  assert (H : NoDup (map parameter.name (spec.parameters Normal)))
    by (refine (bool_decide_unpack _ _); vm_compute; exact I).
  assert (P : Forall (fun p => obj.plain_key (parameter.name p) = true)
                (spec.parameters Normal)) by (repeat constructor).
  split; [exact P|]. split; [exact H|].
  exact (proj2 extractDefaults_lookup (spec.parameters Normal) P H).
Defined.

Lemma catalog_lookup_witness :
  (forall d : dist, spec.name d <> "zeta"%string)
  /\ DistributionCatalog.getDistributionInfo "zeta" = None
  /\ DistributionCatalog.getParameterInfo "zeta" = []
  /\ DistributionCatalog.getParameterDefaults "zeta" = [].
Proof.
  assert (H : forall d : dist, spec.name d <> "zeta"%string)
    by (intros d; destruct d; discriminate).
  split; [exact H|].
  exact (proj1 (proj2 catalog_lookup) "zeta"%string H).
Defined.

Lemma parameters_stay_aligned_witness :
  reachable Normal sigma_changed
  /\ obj.keys sigma_changed = ["mu"; "sigma"]%string
  /\ Forall (fun k => obj.plain_key k = true) (obj.keys sigma_changed)
  /\ forall (fuel : nat) (x : num),
       @apply_pdf series_math Normal fuel (x :: obj.values sigma_changed)
       = @pdfFunctions series_math Normal fuel
           (arguments Normal (to_params sigma_changed) x).
Proof.
  assert (H : reachable Normal sigma_changed).
  { apply (reach_change Normal _
             (parameter.make "sigma" (Num 1) (Num 0.001) Infinity (Num 0.1)
                (slider.make (Num 0.1) (Num 3) (Num 0.1))) (Num 3)
             (reach_select Normal App.initial)).
    right. left. reflexivity. }
  split; [exact H|].
  exact (@parameters_stay_aligned series_math Normal sigma_changed H).
Defined.

Lemma exact_value_is_shown_witness :
  (RangeSlider.domainMin sigma_props <=? RangeSlider.domainMax sigma_props) = true
  /\ isNaN (RangeSlider.sliderMin (RangeSlider.initial sigma_props)) = false
  /\ isNaN (RangeSlider.sliderMax (RangeSlider.initial sigma_props)) = false
  /\ isNaN (Num 7) = false
  /\ exists (c : num) (s' : RangeSlider.state),
       RangeSlider.handleExactValueChange sigma_props
         (RangeSlider.initial sigma_props) (Num 7) = (s', [c])
       /\ (RangeSlider.sliderMin s' <=? c) = true
       /\ (c <=? RangeSlider.sliderMax s') = true
       /\ RangeSlider.sliderValue (with_value sigma_props c) s' = c.
Proof.
  destruct (proj2 (exact_value_is_shown sigma_props (RangeSlider.initial sigma_props))
              (Num 7) eq_refl eq_refl eq_refl eq_refl)
    as (c & s' & _ & E & _ & _ & _ & L & U & _ & V).
  repeat (split; [reflexivity|]).
  exists c, s'. repeat split; assumption.
Defined.

Lemma slider_value_within_range_witness :
  isNaN (RangeSlider.sliderMin (RangeSlider.initial sigma_props)) = false
  /\ isNaN (RangeSlider.sliderMax (RangeSlider.initial sigma_props)) = false
  /\ (RangeSlider.effectiveMin (RangeSlider.initial sigma_props)
        <=? RangeSlider.effectiveMax (RangeSlider.initial sigma_props)) = true
  /\ (RangeSlider.effectiveMin (RangeSlider.initial sigma_props)
        <=? RangeSlider.sliderValue (with_value sigma_props (Num 7))
              (RangeSlider.initial sigma_props)) = true
  /\ (RangeSlider.sliderValue (with_value sigma_props (Num 7))
        (RangeSlider.initial sigma_props)
        <=? RangeSlider.effectiveMax (RangeSlider.initial sigma_props)) = true.
Proof.
  split; [reflexivity|]. split; [reflexivity|].
  exact (slider_value_within_range (with_value sigma_props (Num 7))
           (RangeSlider.initial sigma_props) eq_refl eq_refl).
Defined.

Lemma blur_is_idempotent_witness :
  isNaN (RangeSlider.domainMin sigma_props) = false
  /\ isNaN (RangeSlider.domainMax sigma_props) = false
  /\ isNaN (Num (-2)) = false
  /\ RangeSlider.handleExactValueBlur sigma_props
       (fst (RangeSlider.handleExactValueBlur sigma_props
               {| RangeSlider.sliderMin := Num 0.1; RangeSlider.sliderMax := Num 3;
                  RangeSlider.exactValue := Num (-2) |}))
     = (fst (RangeSlider.handleExactValueBlur sigma_props
               {| RangeSlider.sliderMin := Num 0.1; RangeSlider.sliderMax := Num 3;
                  RangeSlider.exactValue := Num (-2) |}), []).
Proof.
  repeat (split; [reflexivity|]).
  exact (blur_is_idempotent sigma_props
           {| RangeSlider.sliderMin := Num 0.1; RangeSlider.sliderMax := Num 3;
              RangeSlider.exactValue := Num (-2) |} eq_refl eq_refl eq_refl).
Defined.

Lemma slider_bounds_stay_clamped_witness :
  clamped_to_domain sigma_props (RangeSlider.initial sigma_props) = true
  /\ clamped_to_domain sigma_props
       (RangeSlider.handleMinChange sigma_props (RangeSlider.initial sigma_props)
          (Num (-4))) = true
  /\ clamped_to_domain sigma_props
       (fst (RangeSlider.handleExactValueChange sigma_props
               (RangeSlider.initial sigma_props) (Num 7))) = true.
Proof.
  destruct (slider_bounds_stay_clamped sigma_props (RangeSlider.initial sigma_props)
              eq_refl) as (_ & Hv & Hmin & _).
  split; [reflexivity|]. split; [exact (Hmin (Num (-4))) | exact (Hv (Num 7))].
Defined.

Lemma typed_values_are_accepted_witness :
  cross_constrained Normal = false
  /\ length [Num 100; Num (-4)] = length (spec.parameters Normal)
  /\ Forall (fun v => isNaN v = false) [Num 100; Num (-4)]
  /\ violates Normal
       (Num 0 :: zip_with constrain (spec.parameters Normal) [Num 100; Num (-4)])
     = false.
Proof.
  assert (H : Forall (fun v => isNaN v = false) [Num 100; Num (-4)])
    by (repeat constructor).
  split; [reflexivity|]. split; [reflexivity|]. split; [exact H|].
  exact (proj2 typed_values_are_accepted Normal [Num 100; Num (-4)] (Num 0)
           eq_refl eq_refl H).
Defined.

Lemma selector_groups_witness :
  Forall (fun e => obj.plain_key (category_of e) = true)
    DistributionCatalog.getDistributionList
  /\ obj.plain_key "Discrete" = true
  /\ obj.get "Discrete"
       (DistributionSelector.groupedDistributions DistributionCatalog.getDistributionList)
     = match List.filter (fun e => bool_decide (category_of e = "Discrete"%string))
               DistributionCatalog.getDistributionList with
       | [] => None
       | group => Some group
       end.
Proof.
  assert (P : Forall (fun e => obj.plain_key (category_of e) = true)
                DistributionCatalog.getDistributionList) by (repeat constructor).
  split; [exact P|]. split; [reflexivity|].
  exact (proj1 selector_groups DistributionCatalog.getDistributionList
           "Discrete"%string P eq_refl).
Defined.

Lemma dtick_bounds_witness :
  [Num 0; Num 60] <> []
  /\ Forall (fun v => isFinite v = true) [Num 0; Num 60]
  /\ exists (range t : Q),
       PlotViewer.Math_max_of [Num 0; Num 60] - PlotViewer.Math_min_of [Num 0; Num 60]
       = Num range
       /\ PlotViewer.dtick [Num 0; Num 60] = Num t
       /\ (0 <= range)%Q /\ (1 <= t)%Q /\ (range <= 25 * t)%Q.
Proof.
  assert (H1 : [Num 0; Num 60] <> []) by discriminate.
  assert (H2 : Forall (fun v => isFinite v = true) [Num 0; Num 60])
    by (repeat constructor).
  split; [exact H1|]. split; [exact H2|].
  exact (dtick_bounds [Num 0; Num 60] H1 H2).
Defined.

Lemma continuous_plot_points_witness :
  spec.type Normal = continuous
  /\ exists xs ys : list num,
       @usePlotData.generatePDFData series_math 0 Normal
         [("mu", Num 0); ("sigma", Num 1)]%string
       = Some (Some {| usePlotData.x := xs; usePlotData.y := ys;
                       usePlotData.type := continuous;
                       usePlotData.plotType := line |})
       /\ length ys = 201%nat
       /\ Forall (fun yi => isFinite yi = true) ys.
Proof.
  split; [reflexivity|].
  destruct (@continuous_plot_points series_math 0 Normal
              [("mu", Num 0); ("sigma", Num 1)]%string eq_refl)
    as (ys & E & L & F & _).
  eexists _, ys. split; [exact E|]. split; [exact L | exact F].
Defined.

Lemma discrete_plot_points_witness :
  spec.type DiscreteUniform = discrete
  /\ @rangeCalculators series_math DiscreteUniform
       (to_params [("lower", Num 1); ("upper", Num 6)]%string)
     = {| min := Num 1; max := Num 6 |}
  /\ (Qfloor 6 < 2 ^ 53)%Z
  /\ (Qfloor 6 - Z.max 0 (Qceiling 1) + 1 < 2 ^ 32)%Z
  /\ exists fuel0 : nat, forall fuel : nat, (fuel0 <= fuel)%nat ->
       exists ys : list num,
         @usePlotData.generatePDFData series_math fuel DiscreteUniform
           [("lower", Num 1); ("upper", Num 6)]%string
         = Some (Some {| usePlotData.x := integers_from 1 6; usePlotData.y := ys;
                         usePlotData.type := discrete;
                         usePlotData.plotType := bar |})
         /\ Forall (fun yi => isFinite yi = true) ys.
Proof.
  assert (B : (Qfloor 6 < 2 ^ 53)%Z) by reflexivity.
  assert (S : (Qfloor 6 - Z.max 0 (Qceiling 1) + 1 < 2 ^ 32)%Z) by reflexivity.
  split; [reflexivity|]. split; [reflexivity|]. split; [exact B|]. split; [exact S|].
  destruct (@discrete_plot_points series_math DiscreteUniform
              [("lower", Num 1); ("upper", Num 6)]%string 1 6 eq_refl eq_refl B S)
    as (fuel0 & H).
  exists fuel0. intros fuel Hfuel. destruct (H fuel Hfuel) as (ys & E & F & _).
  exists ys. split; [exact E | exact F].
Defined.

Lemma besselI0_even_positive_witness :
  (Qabs 2 < 3.75)%Q
  /\ (@mathUtils.besselI0 series_math (Num 2) >? 0) = true
  /\ (@mathUtils.besselI0 series_math (Num 2) >=? 1) = true.
Proof.
  assert (H : (Qabs 2 < 3.75)%Q) by reflexivity.
  destruct (@besselI0_even_positive series_math) as (_ & P & L).
  split; [exact H|]. split; [exact (P 2%Q) | exact (L 2%Q H)].
Defined.

Lemma erfc_reflection_witness :
  ~ (1 == 0)%Q
  /\ @mathUtils.erfc series_math (Num 1) + @mathUtils.erfc series_math (- Num 1) = 2
  /\ @mathUtils.normalCDF series_math (Num 1)
     + @mathUtils.normalCDF series_math (- Num 1) = 1.
Proof.
  assert (H : ~ (1 == 0)%Q) by (intros E; discriminate E).
  split; [exact H|].
  exact (proj1 (@erfc_reflection series_math) 1%Q H).
Defined.

Lemma pdf_never_negative_witness :
  In Normal
    [Normal; Beta; Exponential; Uniform; Lognormal; Binomial; Poisson;
     Geometric; NegativeBinomial; Bernoulli; DiscreteUniform; Hypergeometric;
     BetaBinomial; DiscreteWeibull; Cauchy; Laplace; Logistic; Gumbel;
     Weibull; Pareto; HalfNormal; HalfCauchy; Triangular; AsymmetricLaplace;
     LogitNormal; Wald; Moyal; VonMises; Rice]
  /\ @pdfFunctions series_math Normal 0 [Num 0; Num 0; Num 1]
     = Some (@normal.pdf series_math 0 0 1)
  /\ (@normal.pdf series_math 0 0 1 <? 0) = false.
Proof.
  split; [left; reflexivity|]. split; [reflexivity|].
  apply (@pdf_never_negative series_math Normal 0 [Num 0; Num 0; Num 1]);
    [left; reflexivity | reflexivity].
Defined.



Lemma probabilities_add_up_witness :
  (0 <= 0.25)%Q /\ (0.25 <= 1)%Q
  /\ bernoulli.pdf 0 (Num 0.25) + bernoulli.pdf 1 (Num 0.25) = 1.
Proof.
  assert (H0 : (0 <= 0.25)%Q) by discriminate.
  assert (H1 : (0.25 <= 1)%Q) by discriminate.
  split; [exact H0|]. split; [exact H1|].
  exact (proj2 (proj2 (probabilities_add_up 0.25%Q H0 H1))).
Defined.
